(** * fp_fetch_rankings: a shallow embedding of the projections scraper

    The program downloads season projections for four positions, picks the
    projection table out of what the site returns, reduces it to
    player / team / season points, turns the points into a per-game rate and
    concatenates the four tables.

    Layout of this development:
    - [PyStr]    the Python [str] methods the program calls;
    - [PyNum]    float64 arithmetic (primitive binary64) and NumPy rounding;
    - [Url]      the [urllib.parse] functions behind [add_or_update_query];
    - [Pandas]   cells, labels, frames and the frame operations used;
    - the world (object store, network replies, sleeps), the error monad,
      and the program's functions under their source names;
    - the readings of the program that the statements are made of
      ([UrlShape] for URLs and query mappings);
    - lemmas and the theorems, those of the query builder last
      ([UrlFacts]).

    A Python [str] is modelled by the [string] of its UTF-8 bytes. The
    functions of [Url] act on such text as [urllib.parse] does on the
    [str]. The character classes of [PyStr] (white space, case) and the
    lengths are Python's on ASCII text; bytes above 127 count as neither
    white space nor cased. *)

From Stdlib Require Import ZArith Floats Ascii String Bool Lia DecimalString.
From stdpp Require Import base tactics option list strings.

Local Open Scope Z_scope.

(* ================================================================= *)
(** ** Python [str] *)

Module PyStr.

Definition code (c : ascii) : N := N_of_ascii c.

Definition in_range (lo hi : N) (c : ascii) : bool :=
  ((lo <=? code c) && (code c <=? hi))%N.

(** [str.isspace] on one ASCII character: TAB..CR, FS..US and the blank. *)
Definition is_space (c : ascii) : bool :=
  in_range 9 13 c || in_range 28 32 c.

Definition is_upper_char (c : ascii) : bool := in_range 65 90 c.
Definition is_lower_char (c : ascii) : bool := in_range 97 122 c.
Definition is_alpha_char (c : ascii) : bool := is_upper_char c || is_lower_char c.
Definition is_digit_char (c : ascii) : bool := in_range 48 57 c.

Definition lower_char (c : ascii) : ascii :=
  if is_upper_char c then ascii_of_N (code c + 32) else c.

(** [s.lower()] *)
Fixpoint lower (s : string) : string :=
  match s with
  | EmptyString => EmptyString
  | String c s' => String (lower_char c) (lower s')
  end.

Fixpoint forallb_str (p : ascii -> bool) (s : string) : bool :=
  match s with
  | EmptyString => true
  | String c s' => p c && forallb_str p s'
  end.

Fixpoint existsb_str (p : ascii -> bool) (s : string) : bool :=
  match s with
  | EmptyString => false
  | String c s' => p c || existsb_str p s'
  end.

(** [s.isupper()]: no lower-case character and at least one upper-case one. *)
Definition isupper (s : string) : bool :=
  forallb_str (fun c => negb (is_lower_char c)) s && existsb_str is_upper_char s.

(** [s.lstrip(chars)] for a character class. *)
Fixpoint lstrip_with (p : ascii -> bool) (s : string) : string :=
  match s with
  | EmptyString => EmptyString
  | String c s' => if p c then lstrip_with p s' else s
  end.

(** [s.rstrip(chars)]: a character goes when it and all that follows it are
    in the class. *)
Fixpoint rstrip_with (p : ascii -> bool) (s : string) : string :=
  match s with
  | EmptyString => EmptyString
  | String c s' =>
      match rstrip_with p s' with
      | EmptyString => if p c then EmptyString else String c EmptyString
      | r => String c r
      end
  end.

Definition lstrip : string -> string := lstrip_with is_space.
Definition rstrip : string -> string := rstrip_with is_space.

(** [s.strip()] *)
Definition strip (s : string) : string := rstrip (lstrip s).

(** [s.split()] with no separator: the maximal runs of non-blank characters.
    [split_aux s] is the run that touches the start of [s] (empty when [s]
    starts with a blank) and the runs after it. *)
Definition push_token (t : string) (ts : list string) : list string :=
  match t with
  | EmptyString => ts
  | _ => t :: ts
  end.

Fixpoint split_aux (s : string) : string * list string :=
  match s with
  | EmptyString => (EmptyString, [])
  | String c s' =>
      let (t, ts) := split_aux s' in
      if is_space c then (EmptyString, push_token t ts) else (String c t, ts)
  end.

Definition split (s : string) : list string :=
  let (t, ts) := split_aux s in push_token t ts.

(** [sep.join(parts)] *)
Fixpoint join (sep : string) (parts : list string) : string :=
  match parts with
  | [] => EmptyString
  | [p] => p
  | p :: ps => p +:+ sep +:+ join sep ps
  end.

(** [s.split(c)] for a one-character separator: always at least one field.
    [split_on_aux] gives the first field and the fields after it. *)
Fixpoint split_on_aux (sep : ascii) (s : string) : string * list string :=
  match s with
  | EmptyString => (EmptyString, [])
  | String c s' =>
      let (t, ts) := split_on_aux sep s' in
      if Ascii.eqb c sep then (EmptyString, t :: ts) else (String c t, ts)
  end.

Definition split_on (sep : ascii) (s : string) : list string :=
  let (t, ts) := split_on_aux sep s in t :: ts.

(** [s.find(c) >= 0] *)
Definition has_char (c : ascii) (s : string) : bool :=
  existsb_str (Ascii.eqb c) s.

(** The text before the first [c] ([s] itself when there is none). *)
Fixpoint before (c : ascii) (s : string) : string :=
  match s with
  | EmptyString => EmptyString
  | String d s' => if Ascii.eqb d c then EmptyString else String d (before c s')
  end.

(** The text after the first [c] (empty when there is none). *)
Fixpoint after (c : ascii) (s : string) : string :=
  match s with
  | EmptyString => EmptyString
  | String d s' => if Ascii.eqb d c then s' else after c s'
  end.

(** [s.replace(a, b)] for single characters. *)
Fixpoint replace_char (a b : ascii) (s : string) : string :=
  match s with
  | EmptyString => EmptyString
  | String c s' => String (if Ascii.eqb c a then b else c) (replace_char a b s')
  end.

(** [s.replace(a, "")] *)
Fixpoint remove_char (a : ascii) (s : string) : string :=
  match s with
  | EmptyString => EmptyString
  | String c s' => if Ascii.eqb c a then remove_char a s' else String c (remove_char a s')
  end.

(** [s.startswith(p)] *)
Fixpoint startswith (p s : string) : bool :=
  match p, s with
  | EmptyString, _ => true
  | String a p', String b s' => Ascii.eqb a b && startswith p' s'
  | String _ _, EmptyString => false
  end.

(** [needle in s] *)
Fixpoint contains (needle s : string) : bool :=
  startswith needle s ||
  match s with
  | EmptyString => false
  | String _ s' => contains needle s'
  end.

(** A line boundary of [str.splitlines] on the ASCII range:
    LF, VT, FF, CR, FS, GS, RS. *)
Definition is_linebreak (c : ascii) : bool :=
  in_range 10 13 c || in_range 28 30 c.

(** [s.splitlines()]: CR LF is one boundary, and a final boundary opens no
    empty last line. [splitlines_aux] gives the first line and the lines
    after it. *)
Fixpoint splitlines_aux (s : string) : string * list string :=
  match s with
  | EmptyString => (EmptyString, [])
  | String c s' =>
      if is_linebreak c
      then
        let rest :=
          match s' with
          | String d s'' =>
              if Ascii.eqb c "013" && Ascii.eqb d "010" then s'' else s'
          | EmptyString => s'
          end in
        (EmptyString,
         match rest with
         | EmptyString => []
         | _ => let (t, ts) := splitlines_aux rest in t :: ts
         end)
      else let (t, ts) := splitlines_aux s' in (String c t, ts)
  end.

Definition splitlines (s : string) : list string :=
  match s with
  | EmptyString => []
  | _ => let (t, ts) := splitlines_aux s in t :: ts
  end.


End PyStr.

(* ================================================================= *)
(** ** float64 *)

(** Python's [float] and NumPy's [float64] are IEEE 754 binary64 numbers:
    Rocq's primitive floats, with round-to-nearest-even arithmetic. *)
Module PyNum.

(** The float nearest to an integer (what [float(n)] and an int64 to
    float64 cast compute when the result is finite). *)
Definition float_of_Z (z : Z) : float :=
  SF2Prim (binary_normalize prec emax z 0 false).

(** [float(n)] for a Python [int]: [None] stands for OverflowError. *)
Definition py_float (z : Z) : option float :=
  let f := float_of_Z z in
  if PrimFloat.is_infinity f then None else Some f.

(** C's [rint] in the default rounding mode: the nearest integer, ties to
    even, keeping the sign (also of a zero result). *)
Definition rint (x : float) : float :=
  match Prim2SF x with
  | S754_finite s m e =>
      if 0 <=? e then x
      else
        let d := 2 ^ (- e) in
        let q := Z.pos m / d in
        let r := Z.pos m mod d in
        let q' :=
          match 2 * r ?= d with
          | Lt => q
          | Gt => q + 1
          | Eq => if Z.even q then q else q + 1
          end in
        let f := float_of_Z q' in
        if s then (- f)%float else f
  | _ => x
  end.

(** NumPy's [round(x, decimals)] for [decimals >= 0] on float64: multiply by
    the power of ten, [rint], divide by it. [Series.round] applies it to
    every cell. *)
Definition np_round (decimals : N) (x : float) : float :=
  let f := float_of_Z (10 ^ Z.of_N decimals) in
  (rint (x * f) / f)%float.

Definition notna (x : float) : bool := negb (PrimFloat.is_nan x).

End PyNum.

(* ================================================================= *)
(** ** Exceptions *)

Inductive exn_kind :=
| ValueError | IndexError | AttributeError | TypeError | OverflowError
| RuntimeError | HTTPError | ConnectionError
| OtherError (name : string) (is_value_error : bool).

(** An exception: its class and its message ([str(e)]); [ExnFrom] is
    [raise ... from cause]. *)
Inductive exn :=
| Exn (kind : exn_kind) (msg : string)
| ExnFrom (kind : exn_kind) (msg : string) (cause : exn).

Definition exn_kind_of (e : exn) : exn_kind :=
  match e with Exn k _ | ExnFrom k _ _ => k end.

Definition exn_msg (e : exn) : string :=
  match e with Exn _ m | ExnFrom _ m _ => m end.

(** [isinstance(e, ValueError)] *)
Definition is_value_error (e : exn) : bool :=
  match exn_kind_of e with
  | ValueError => true
  | OtherError _ b => b
  | _ => false
  end.

Inductive result (A : Type) := Ok (a : A) | Raise (e : exn).
Arguments Ok {A} a.
Arguments Raise {A} e.

(* ================================================================= *)
(** ** [urllib.parse] (after CPython 3.11) *)

Module Url.
Import PyStr.

Record SplitResult := mkSplit
  { s_scheme : string; s_netloc : string; s_path : string;
    s_query : string; s_fragment : string }.

Record ParseResult := mkParse
  { scheme : string; netloc : string; path : string; params : string;
    query : string; fragment : string }.

Definition uses_netloc : list string :=
  [""; "ftp"; "http"; "gopher"; "nntp"; "telnet"; "imap"; "wais"; "file";
   "mms"; "https"; "shttp"; "snews"; "prospero"; "rtsp"; "rtspu"; "rsync";
   "svn"; "svn+ssh"; "sftp"; "nfs"; "git"; "git+ssh"; "ws"; "wss"].

Definition uses_params : list string :=
  [""; "ftp"; "hdl"; "prospero"; "http"; "imap"; "https"; "shttp"; "rtsp";
   "rtspu"; "sip"; "sips"; "mms"; "sftp"; "tel"].

Definition mem (s : string) (l : list string) : bool := existsb (String.eqb s) l.

Definition is_empty (s : string) : bool :=
  match s with EmptyString => true | _ => false end.

(** [c in scheme_chars] *)
Definition scheme_char (c : ascii) : bool :=
  is_alpha_char c || is_digit_char c
  || Ascii.eqb c "+" || Ascii.eqb c "-" || Ascii.eqb c ".".

(** [c in _WHATWG_C0_CONTROL_OR_SPACE] *)
Definition c0_or_space (c : ascii) : bool := (code c <=? 32)%N.

(** The scheme test of [urlsplit]: [i = url.find(':')], [i > 0], a letter
    first and scheme characters up to the colon. *)
Definition split_scheme (url : string) : string * string :=
  if has_char ":" url then
    let pre := before ":" url in
    match pre with
    | String c _ =>
        if is_alpha_char c && forallb_str scheme_char pre
        then (lower pre, after ":" url)
        else (EmptyString, url)
    | EmptyString => (EmptyString, url)
    end
  else (EmptyString, url).

Definition is_delim (c : ascii) : bool :=
  Ascii.eqb c "/" || Ascii.eqb c "?" || Ascii.eqb c "#".

(** [_splitnetloc(url, 0)] on the text after the two slashes: up to the
    first of [/?#], and the rest from there. *)
Fixpoint splitnetloc (s : string) : string * string :=
  match s with
  | EmptyString => (EmptyString, EmptyString)
  | String c s' =>
      if is_delim c then (EmptyString, s)
      else let (a, b) := splitnetloc s' in (String c a, b)
  end.

(** The text after the last [c] (all of [s] when there is none):
    [s.rpartition(c)[2]]. *)
Fixpoint after_last (c : ascii) (s : string) : string :=
  match s with
  | EmptyString => EmptyString
  | String d s' =>
      if has_char c s' then after_last c s'
      else if Ascii.eqb d c then s' else s
  end.

(** Two checks of a network location are taken as given, [true] when they
    return and [false] when they raise ValueError:
    [_check_bracketed_host], which validates an IPv6 or IPvFuture literal
    with the [ipaddress] module, and the part of [_checknetloc] that
    compares a location that is not ASCII with its NFKC normal form. *)
Record checks := mkChecks
  { host_ok : string -> bool;
    nfkc_ok : string -> bool }.

(** [s.isascii()] *)
Definition isascii (s : string) : bool := forallb_str (fun c => (code c <? 128)%N) s.

Section Checks.
Variable chk : checks.

(** [_check_bracketed_netloc]: [true] when it returns. *)
Definition check_bracketed_netloc (netloc : string) : bool :=
  let hostname_and_port := after_last "@" netloc in
  if has_char "[" hostname_and_port then
    if negb (is_empty (before "[" hostname_and_port)) then false
    else
      let bracketed := after "[" hostname_and_port in
      let hostname := before "]" bracketed in
      let port := after "]" bracketed in
      if negb (is_empty port) && negb (startswith ":" port) then false
      else host_ok chk hostname
  else host_ok chk (before ":" hostname_and_port).

Definition invalid_ipv6 : exn := Exn ValueError "Invalid IPv6 URL".

(** [_checknetloc]: [true] when it returns. *)
Definition checknetloc (netloc : string) : bool :=
  is_empty netloc || isascii netloc || nfkc_ok chk netloc.

Definition invalid_netloc (netloc : string) : exn :=
  Exn ValueError
    ("netloc '" +:+ netloc +:+ "' contains invalid characters under NFKC normalization").

(** [urlsplit(url)] with the default [scheme=''] and
    [allow_fragments=True]. *)
Definition urlsplit (url : string) : result SplitResult :=
  let url := lstrip_with c0_or_space url in
  let url := remove_char "010" (remove_char "013" (remove_char "009" url)) in
  let (scheme, url) := split_scheme url in
  let netloc_rest :=
    if startswith "//" url
    then
      match url with
      | String _ (String _ url') => splitnetloc url'
      | _ => (EmptyString, url)
      end
    else (EmptyString, url) in
  let (netloc, url) := netloc_rest in
  let open_br := has_char "[" netloc in
  let close_br := has_char "]" netloc in
  if (open_br && negb close_br) || (close_br && negb open_br)
  then Raise invalid_ipv6
  else if open_br && close_br && negb (check_bracketed_netloc netloc)
  then Raise invalid_ipv6
  else
    let fragment := if has_char "#" url then after "#" url else EmptyString in
    let url := if has_char "#" url then before "#" url else url in
    let query := if has_char "?" url then after "?" url else EmptyString in
    let url := if has_char "?" url then before "?" url else url in
    if negb (checknetloc netloc) then Raise (invalid_netloc netloc)
    else Ok (mkSplit scheme netloc url query fragment).

(** [_splitparams]: the first [;] of the last path segment. [None] stands
    for [i < 0]. *)
Fixpoint last_segment_semicolon (url : string) : option (string * string) :=
  match url with
  | EmptyString => None
  | String c s' =>
      if has_char "/" s' then
        match last_segment_semicolon s' with
        | Some (a, b) => Some (String c a, b)
        | None => None
        end
      else if Ascii.eqb c ";" then Some (EmptyString, s')
      else
        match last_segment_semicolon s' with
        | Some (a, b) => Some (String c a, b)
        | None => None
        end
  end.

Definition splitparams (url : string) : string * string :=
  if has_char "/" url then
    match last_segment_semicolon url with
    | Some ab => ab
    | None => (url, EmptyString)
    end
  else (before ";" url, after ";" url).

Definition urlparse (url : string) : result ParseResult :=
  match urlsplit url with
  | Raise e => Raise e
  | Ok r =>
      let (url, params) :=
        if mem (s_scheme r) uses_params && has_char ";" (s_path r)
        then splitparams (s_path r)
        else (s_path r, EmptyString) in
      Ok (mkParse (s_scheme r) (s_netloc r) url params (s_query r) (s_fragment r))
  end.

End Checks.

Definition urlunsplit (r : SplitResult) : string :=
  let url := s_path r in
  let url :=
    if negb (is_empty (s_netloc r))
       || (negb (is_empty (s_scheme r)) && mem (s_scheme r) uses_netloc
           && negb (startswith "//" url))
    then
      let url :=
        if negb (is_empty url) && negb (startswith "/" url)
        then "/" +:+ url else url in
      "//" +:+ s_netloc r +:+ url
    else url in
  let url := if negb (is_empty (s_scheme r)) then s_scheme r +:+ ":" +:+ url else url in
  let url := if negb (is_empty (s_query r)) then url +:+ "?" +:+ s_query r else url in
  let url := if negb (is_empty (s_fragment r)) then url +:+ "#" +:+ s_fragment r else url in
  url.

Definition urlunparse (p : ParseResult) : string :=
  let url :=
    if negb (is_empty (params p)) then path p +:+ ";" +:+ params p else path p in
  urlunsplit (mkSplit (scheme p) (netloc p) url (query p) (fragment p)).

(** *** Percent-encoding *)

Definition hex_val (c : ascii) : option N :=
  if is_digit_char c then Some (code c - 48)%N
  else if in_range 65 70 c then Some (code c - 55)%N
  else if in_range 97 102 c then Some (code c - 87)%N
  else None.

Definition hex_digit (n : N) : ascii :=
  if (n <? 10)%N then ascii_of_N (n + 48) else ascii_of_N (n + 55).

(** [unquote_to_bytes]: [%XY] with two hexadecimal digits becomes the byte
    of that value; any other [%] stays. *)
Fixpoint unquote_to_bytes (s : string) : string :=
  match s with
  | EmptyString => EmptyString
  | String c s1 =>
      if Ascii.eqb c "%" then
        match s1 with
        | String a (String b s3) =>
            match hex_val a, hex_val b with
            | Some x, Some y => String (ascii_of_N (16 * x + y)) (unquote_to_bytes s3)
            | _, _ => String c (unquote_to_bytes s1)
            end
        | _ => String c (unquote_to_bytes s1)
        end
      else String c (unquote_to_bytes s1)
  end.

(** U+FFFD, the replacement character, in UTF-8. *)
Definition replacement : string :=
  String (ascii_of_N 239) (String (ascii_of_N 191) (String (ascii_of_N 189) EmptyString)).

(** A continuation byte. *)
Definition is_cont (c : ascii) : bool := in_range 128 191 c.

(** The second byte that the lead byte [a] of a sequence of three or four
    bytes admits. *)
Definition second_ok (a b : ascii) : bool :=
  if (code a =? 224)%N then in_range 160 191 b
  else if (code a =? 237)%N then in_range 128 159 b
  else if (code a =? 240)%N then in_range 144 191 b
  else if (code a =? 244)%N then in_range 128 143 b
  else is_cont b.

(** [b.decode('utf-8', 'replace')], the text given in UTF-8 again: a
    well-formed sequence stays; a byte that starts none, and the longest
    start of a sequence that the next byte does not continue, become
    U+FFFD. *)
Fixpoint decode_utf8 (s : string) : string :=
  match s with
  | EmptyString => EmptyString
  | String a s1 =>
      if (code a <? 128)%N then String a (decode_utf8 s1)
      else if in_range 194 223 a then
        match s1 with
        | String b s2 =>
            if is_cont b then String a (String b (decode_utf8 s2))
            else replacement +:+ decode_utf8 s1
        | EmptyString => replacement
        end
      else if in_range 224 239 a then
        match s1 with
        | String b s2 =>
            if second_ok a b then
              match s2 with
              | String c s3 =>
                  if is_cont c then String a (String b (String c (decode_utf8 s3)))
                  else replacement +:+ decode_utf8 s2
              | EmptyString => replacement
              end
            else replacement +:+ decode_utf8 s1
        | EmptyString => replacement
        end
      else if in_range 240 244 a then
        match s1 with
        | String b s2 =>
            if second_ok a b then
              match s2 with
              | String c s3 =>
                  if is_cont c then
                    match s3 with
                    | String d s4 =>
                        if is_cont d
                        then String a (String b (String c (String d (decode_utf8 s4))))
                        else replacement +:+ decode_utf8 s3
                    | EmptyString => replacement
                    end
                  else replacement +:+ decode_utf8 s2
              | EmptyString => replacement
              end
            else replacement +:+ decode_utf8 s1
        | EmptyString => replacement
        end
      else replacement +:+ decode_utf8 s1
  end.

(** [unquote(s)] with the default [encoding='utf-8'] and
    [errors='replace']. Python decodes every run of ASCII characters apart
    and keeps the characters between the runs; as those are whole
    characters, that is the decoding of the whole text. *)
Definition unquote (s : string) : string :=
  if has_char "%" s then decode_utf8 (unquote_to_bytes s) else s.

(** [c in _ALWAYS_SAFE] *)
Definition always_safe (c : ascii) : bool :=
  is_alpha_char c || is_digit_char c
  || Ascii.eqb c "_" || Ascii.eqb c "." || Ascii.eqb c "-" || Ascii.eqb c "~".

Definition quote_char (c : ascii) : string :=
  if always_safe c then String c EmptyString
  else if Ascii.eqb c " " then "+"
  else String "%" (String (hex_digit (code c / 16)) (String (hex_digit (code c mod 16)) EmptyString)).

(** [quote_plus(s)] with [safe='']. *)
Fixpoint quote_plus (s : string) : string :=
  match s with
  | EmptyString => EmptyString
  | String c s' => quote_char c +:+ quote_plus s'
  end.

(** *** Query strings *)

(** [parse_qsl(qs, keep_blank_values=True)] *)
Definition parse_field (name_value : string) : list (string * string) :=
  if is_empty name_value then []
  else
    [(unquote (replace_char "+" " " (before "=" name_value)),
      unquote (replace_char "+" " " (after "=" name_value)))].

Definition parse_qsl (qs : string) : list (string * string) :=
  if is_empty qs then [] else flat_map parse_field (split_on "&" qs).

(** A value of the query mapping: text, or a sequence of texts (which
    [urlencode(..., doseq=True)] spreads over one field each). *)
Inductive qvalue := QStr (s : string) | QSeq (l : list string).

(** A Python [dict] with text keys, in insertion order. *)
Definition dict (V : Type) : Type := list (string * V).

(** [d[k] = v] *)
Fixpoint dict_set {V} (k : string) (v : V) (d : dict V) : dict V :=
  match d with
  | [] => [(k, v)]
  | (k', v') :: d' =>
      if String.eqb k' k then (k', v) :: d' else (k', v') :: dict_set k v d'
  end.

(** [d.update(items)], also [dict(items)] from the empty mapping. *)
Definition dict_update {V} (d : dict V) (items : list (string * V)) : dict V :=
  fold_left (fun d kv => dict_set (fst kv) (snd kv) d) items d.

(** [urlencode(d, doseq=True)] *)
Definition encode_item (kv : string * qvalue) : list string :=
  match snd kv with
  | QStr v => [quote_plus (fst kv) +:+ "=" +:+ quote_plus v]
  | QSeq l => map (fun elt => quote_plus (fst kv) +:+ "=" +:+ quote_plus elt) l
  end.

Definition urlencode (d : dict qvalue) : string :=
  join "&" (flat_map encode_item d).

End Url.

(* ================================================================= *)
(** ** pandas *)

Module Pandas.
Import PyStr.

(** A cell: text, a float64 (NaN is the missing number), an integer, or
    [pd.NA]. *)
Inductive cell :=
| CStr (s : string)
| CFloat (f : float)
| CInt (z : Z)
| CNA.

Definition Series : Type := list cell.

(** A column label: text, a number (the positional labels of a table with
    no header row), or a tuple of levels for a hierarchical header, given by
    its outer levels and its innermost one. *)
Inductive atom := AStr (s : string) | AInt (z : Z).

Inductive label :=
| LAtom (a : atom)
| LTuple (outer : list atom) (inner : atom).

(** A frame: its columns in order, each a label with its cells. *)
Definition DataFrame : Type := list (label * Series).

Definition labels (df : DataFrame) : list label := map fst df.

(** [len(df)]: the length of the index. *)
Definition nrows (df : DataFrame) : nat :=
  match df with
  | [] => 0%nat
  | (_, col) :: _ => length col
  end.

(** [df.empty]: no column or no row. *)
Definition empty (df : DataFrame) : bool :=
  match df with
  | [] => true
  | _ => Nat.eqb (nrows df) 0
  end.

Definition is_tuple (l : label) : bool :=
  match l with LTuple _ _ => true | LAtom _ => false end.

(** [isinstance(df.columns, pd.MultiIndex)]: pandas builds a MultiIndex
    exactly from a non-empty list of tuples. *)
Definition is_multiindex (df : DataFrame) : bool :=
  match df with
  | [] => false
  | _ => forallb is_tuple (labels df)
  end.

(** [df.columns = new]: the labels are replaced position by position. *)
Definition set_columns (new : list label) (df : DataFrame) : DataFrame :=
  map (fun lc => (fst lc, snd (snd lc))) (combine new df).

Definition label_eqb (name : string) (l : label) : bool :=
  match l with
  | LAtom (AStr s) => String.eqb s name
  | _ => false
  end.

(** [name in df.columns] *)
Definition has_column (name : string) (df : DataFrame) : bool :=
  existsb (fun lc => label_eqb name (fst lc)) df.

(** [df[name]]: the column of that label. *)
Fixpoint getitem (name : string) (df : DataFrame) : option Series :=
  match df with
  | [] => None
  | (l, col) :: df' => if label_eqb name l then Some col else getitem name df'
  end.

(** [df[name] = col]: the column is replaced where the label exists, and
    added as the last column where it does not. *)
Fixpoint setitem (name : string) (col : Series) (df : DataFrame) : DataFrame :=
  match df with
  | [] => [(LAtom (AStr name), col)]
  | (l, c) :: df' =>
      if label_eqb name l then (l, col) :: df' else (l, c) :: setitem name col df'
  end.

(** [df[[n1, n2, ...]]]: those columns, in that order; [None] stands for
    KeyError. *)
Fixpoint select (names : list string) (df : DataFrame) : option DataFrame :=
  match names with
  | [] => Some []
  | n :: ns =>
      match getitem n df, select ns df with
      | Some col, Some rest => Some ((LAtom (AStr n), col) :: rest)
      | _, _ => None
      end
  end.

(** [df.rename(columns={old: new})] *)
Definition rename (old new : string) (df : DataFrame) : DataFrame :=
  map (fun lc => if label_eqb old (fst lc) then (LAtom (AStr new), snd lc) else lc) df.

(** The cells of a column at the rows where the mask holds. *)
Fixpoint keep (mask : list bool) (col : Series) : Series :=
  match mask, col with
  | b :: mask', c :: col' => if b then c :: keep mask' col' else keep mask' col'
  | _, _ => []
  end.

(** [df[mask]] for a Boolean mask over the rows. *)
Definition filter_rows (mask : list bool) (df : DataFrame) : DataFrame :=
  map (fun lc => (fst lc, keep mask (snd lc))) df.

(** The first of [candidates] that is a column of [df]: the
    [for c in (...): if c in df.columns: ...; break] loops. *)
Fixpoint first_present (candidates : list string) (df : DataFrame) : option string :=
  match candidates with
  | [] => None
  | c :: cs => if has_column c df then Some c else first_present cs df
  end.

(** [str(n)] for an integer. *)
Definition str_of_Z (z : Z) : string := NilZero.string_of_int (Z.to_int z).

(** [str(a)] for a label level. *)
Definition str_of_atom (a : atom) : string :=
  match a with
  | AStr s => s
  | AInt z => str_of_Z z
  end.

(** What pandas and the interpreter do outside this repository. *)
Class Libs := {
  (** [str(x)] for a float: Python's shortest round-trip decimal. *)
  float_repr : float -> string;
  (** The float64 pandas reads from a text cell under [errors="coerce"]:
      NaN when the text is no number. *)
  float_parse : string -> float;
  (** [_check_bracketed_host] of [urllib.parse]. *)
  bracketed_host_ok : string -> bool;
  (** The NFKC test of [_checknetloc] of [urllib.parse]. *)
  netloc_nfkc_ok : string -> bool;
  (** [pandas.read_csv] on the text of a response. *)
  read_csv : string -> result DataFrame;
  (** [pandas.read_html(..., flavor="lxml")] on the text of a response. *)
  read_html : string -> result (list DataFrame)
}.

Section WithLibs.
Context `{Libs}.

(** [str(c)] for a cell, which is also what [astype(str)] makes of it in an
    object column (pandas before 3.0, where the result is an object column
    of [str] values and a missing value becomes its printed form). *)
Definition py_str (c : cell) : string :=
  match c with
  | CStr s => s
  | CFloat f => float_repr f
  | CInt z => str_of_Z z
  | CNA => "<NA>"
  end.

(** [pd.to_numeric(col, errors="coerce")], cell by cell. *)
Definition to_numeric_cell (c : cell) : float :=
  match c with
  | CStr s => float_parse s
  | CFloat f => f
  | CInt z => PyNum.float_of_Z z
  | CNA => nan
  end.

Definition to_numeric (col : Series) : Series :=
  map (fun c => CFloat (to_numeric_cell c)) col.

(** [col.astype(str).str.strip()] *)
Definition astype_str_strip (col : Series) : Series :=
  map (fun c => CStr (strip (py_str c))) col.

End WithLibs.

(** The float of a cell of a numeric column. *)
Definition float_of_cell (c : cell) : float :=
  match c with
  | CFloat f => f
  | CInt z => PyNum.float_of_Z z
  | _ => nan
  end.

(** [(col / w).round(2)] on a numeric column. *)
Definition per_game (w : float) (col : Series) : Series :=
  map (fun c => CFloat (PyNum.np_round 2 (float_of_cell c / w))) col.

(** [col != ""] *)
Definition ne_empty (c : cell) : bool :=
  match c with
  | CStr EmptyString => false
  | _ => true
  end.

(** [col.notna()] *)
Definition cell_notna (c : cell) : bool :=
  match c with
  | CFloat f => PyNum.notna f
  | CNA => false
  | _ => true
  end.

(** [col.isin(values)] for text values. *)
Definition cell_isin (values : list string) (c : cell) : bool :=
  match c with
  | CStr s => existsb (String.eqb s) values
  | _ => false
  end.

(** [pd.concat(frames, ignore_index=True)]: the labels in order of first
    appearance; under each, the cells of the frames in turn, NaN where a
    frame has no such column. *)
Definition label_eq_dec : forall a b : label, {a = b} + {a <> b}.
Proof. repeat decide equality. Defined.

Fixpoint column_of (l : label) (df : DataFrame) : option Series :=
  match df with
  | [] => None
  | (l', col) :: df' => if label_eq_dec l' l then Some col else column_of l df'
  end.

Fixpoint dedup (seen : list label) (ls : list label) : list label :=
  match ls with
  | [] => []
  | l :: ls' =>
      if existsb (fun l' => if label_eq_dec l' l then true else false) seen
      then dedup seen ls'
      else l :: dedup (l :: seen) ls'
  end.

(** Whether no label occurs twice. pandas admits frames with a repeated
    label, and [df[name]] is then a frame of the columns that carry it and
    no column: [getitem] and [setitem] follow pandas where the label occurs
    once. *)
Fixpoint distinct (ls : list label) : bool :=
  match ls with
  | [] => true
  | l :: ls' =>
      negb (existsb (fun l' => if label_eq_dec l' l then true else false) ls')
      && distinct ls'
  end.

Definition concat_column (l : label) (frames : list DataFrame) : Series :=
  flat_map
    (fun df =>
       match column_of l df with
       | Some col => col
       | None => repeat (CFloat nan) (nrows df)
       end)
    frames.

Definition concat (frames : list DataFrame) : result DataFrame :=
  match frames with
  | [] => Raise (Exn ValueError "No objects to concatenate")
  | _ =>
      Ok (map (fun l => (l, concat_column l frames))
              (dedup [] (flat_map labels frames)))
  end.

End Pandas.

(* ================================================================= *)
(** ** The world and the error monad *)

Import PyStr Pandas.

(** A [DataFrame] is a mutable object: a name holds a reference into the
    store, and two names may hold the same reference. *)
Definition ref : Type := nat.

(** A response of the site: [status_code], [reason], the final [url] and
    the body [text]. *)
Record response := mkResponse
  { status_code : Z; reason : string; resp_url : string; text : string }.

(** What a [requests.get] call meets: a response, or an exception of the
    transport (time-out, refused connection, ...). *)
Inductive reply := Reply (r : response) | Fails (e : exn).

(** [heap]: the frames allocated so far; [replies]: what the coming
    requests will meet, in order; [requested]: the URLs requested so far;
    [slept]: the [time.sleep(base ** exponent)] calls that returned so far,
    as [(base, exponent)]; [clock]: the exception that
    [time.sleep(base ** exponent)] raises, if it raises one (OverflowError
    from the power or from a length too large, ValueError for a negative
    length or NaN, OSError from the system). *)
Record world := mkWorld
  { heap : list DataFrame;
    replies : list reply;
    requested : list string;
    slept : list (float * Z);
    clock : float -> Z -> option exn }.

Definition M (A : Type) : Type := world -> result A * world.

Definition ret {A} (a : A) : M A := fun w => (Ok a, w).

Definition raise {A} (e : exn) : M A := fun w => (Raise e, w).

Definition bind {A B} (m : M A) (k : A -> M B) : M B :=
  fun w =>
    match m w with
    | (Ok a, w') => k a w'
    | (Raise e, w') => (Raise e, w')
    end.

(** [try: m except Exception as e: handler(e)] *)
Definition try_except {A} (m : M A) (handler : exn -> M A) : M A :=
  fun w =>
    match m w with
    | (Ok a, w') => (Ok a, w')
    | (Raise e, w') => handler e w'
    end.

Notation "'let*' x ':=' m 'in' k" := (bind m (fun x => k))
  (at level 10, x name, m at level 100, k at level 200).
Notation "m ';;' k" := (bind m (fun _ => k))
  (at level 100, k at level 200, right associativity).

Definition lift {A} (r : result A) : M A :=
  match r with
  | Ok a => ret a
  | Raise e => raise e
  end.

Definition with_heap (h : list DataFrame) (w : world) : world :=
  mkWorld h (replies w) (requested w) (slept w) (clock w).

(** A new object. *)
Definition alloc (df : DataFrame) : M ref :=
  fun w => (Ok (length (heap w)), with_heap (heap w ++ [df]) w).

Definition dangling : exn := Exn (OtherError "dangling reference" false) "".

(** The present value of an object. *)
Definition load (r : ref) : M DataFrame :=
  fun w =>
    match heap w !! r with
    | Some df => (Ok df, w)
    | None => (Raise dangling, w)
    end.

(** An update of an object in place. *)
Definition modify (r : ref) (f : DataFrame -> DataFrame) : M unit :=
  fun w =>
    match heap w !! r with
    | Some df => (Ok tt, with_heap (<[r := f df]> (heap w)) w)
    | None => (Raise dangling, w)
    end.

Fixpoint alloc_all (dfs : list DataFrame) : M (list ref) :=
  match dfs with
  | [] => ret []
  | df :: dfs' =>
      let* r := alloc df in
      let* rs := alloc_all dfs' in
      ret (r :: rs)
  end.

Definition key_error (name : string) : exn := Exn (OtherError "KeyError" false) name.

(** [df[name]] on the object at [r]. *)
Definition get_column (r : ref) (name : string) : M Series :=
  let* df := load r in
  match getitem name df with
  | Some col => ret col
  | None => raise (key_error name)
  end.

(** [requests.get(url, headers=HEADERS, timeout=timeout)] *)
Definition requests_get (url : string) : M response :=
  fun w =>
    let w0 :=
      mkWorld (heap w) (tail (replies w)) (requested w ++ [url]) (slept w) (clock w) in
    match replies w with
    | Reply r :: _ => (Ok r, w0)
    | Fails e :: _ => (Raise e, w0)
    | [] => (Raise (Exn ConnectionError "no reply"), w0)
    end.

(** [resp.raise_for_status()] *)
Definition raise_for_status (resp : response) : M unit :=
  let tail_msg := ": " +:+ reason resp +:+ " for url: " +:+ resp_url resp in
  if (400 <=? status_code resp) && (status_code resp <? 500)
  then raise (Exn HTTPError (str_of_Z (status_code resp) +:+ " Client Error" +:+ tail_msg))
  else if (500 <=? status_code resp) && (status_code resp <? 600)
  then raise (Exn HTTPError (str_of_Z (status_code resp) +:+ " Server Error" +:+ tail_msg))
  else ret tt.

(** [time.sleep(base ** exponent)] *)
Definition sleep_pow (base : float) (exponent : Z) : M unit :=
  fun w =>
    match clock w base exponent with
    | Some e => (Raise e, w)
    | None =>
        (Ok tt,
         mkWorld (heap w) (replies w) (requested w) (slept w ++ [(base, exponent)])
                 (clock w))
    end.

(** A clock on which every sleep returns. *)
Definition steady : float -> Z -> option exn := fun _ _ => None.

(* ================================================================= *)
(** ** The program *)

Section Program.
Context `{Libs}.

Definition URLS : list (string * string) :=
  [("https://www.fantasypros.com/nfl/projections/qb.php?week=draft", "QB");
   ("https://www.fantasypros.com/nfl/projections/rb.php?week=draft&scoring=HALF&week=draft", "RB");
   ("https://www.fantasypros.com/nfl/projections/wr.php?week=draft&scoring=HALF&week=draft", "WR");
   ("https://www.fantasypros.com/nfl/projections/te.php?week=draft&scoring=HALF&week=draft", "TE")].

Definition url_checks : Url.checks := Url.mkChecks bracketed_host_ok netloc_nfkc_ok.

(** [add_or_update_query(url, **params)] *)
Definition add_or_update_query (url : string) (params : list (string * Url.qvalue))
  : result string :=
  match Url.urlparse url_checks url with
  | Raise e => Raise e
  | Ok parts =>
      let q :=
        Url.dict_update []
          (map (fun kv => (fst kv, Url.QStr (snd kv))) (Url.parse_qsl (Url.query parts))) in
      let q := Url.dict_update q params in
      let new_query := Url.urlencode q in
      Ok (Url.urlunparse
            (Url.mkParse (Url.scheme parts) (Url.netloc parts) (Url.path parts)
                         (Url.params parts) new_query (Url.fragment parts)))
  end.

(** [try_fetch_csv(url)]; [None] is Python's [None]. *)
Definition try_fetch_csv (url : string) : M (option ref) :=
  let* csv_url := lift (add_or_update_query url [("csv", Url.QStr "1")]) in
  let* resp := requests_get csv_url in
  if negb (status_code resp =? 200) then ret None
  else
    let text := strip (text resp) in
    match splitlines text with
    | [] => raise (Exn IndexError "list index out of range")
    | first_line :: _ =>
        if negb (contains "Player" first_line) then ret None
        else
          match read_csv text with
          | Ok df => let* r := alloc df in ret (Some r)
          | Raise _ => ret None
          end
    end.

(** [str(col[-1]).strip()] *)
Definition flatten_label (l : label) : label :=
  match l with
  | LTuple _ inner => LAtom (AStr (strip (str_of_atom inner)))
  | LAtom a => LAtom (AStr (strip (str_of_atom a)))
  end.

(** [c.strip().lower()], which only text has. *)
Definition normalize_label (l : label) : result label :=
  match l with
  | LAtom (AStr s) => Ok (LAtom (AStr (lower (strip s))))
  | LAtom (AInt _) => Raise (Exn AttributeError "'int' object has no attribute 'strip'")
  | LTuple _ _ => Raise (Exn AttributeError "'tuple' object has no attribute 'strip'")
  end.

(** The list comprehension over the labels: the first failure ends it. *)
Fixpoint normalize_labels (ls : list label) : result (list label) :=
  match ls with
  | [] => Ok []
  | l :: ls' =>
      match normalize_label l with
      | Raise e => Raise e
      | Ok l' =>
          match normalize_labels ls' with
          | Raise e => Raise e
          | Ok ls'' => Ok (l' :: ls'')
          end
      end
  end.

(** [clean_columns(df)]: the object itself is changed and returned. *)
Definition clean_columns (df : ref) : M ref :=
  let* d := load df in
  (if is_multiindex d
   then modify df (set_columns (map flatten_label (labels d)))
   else ret tt);;
  let* d := load df in
  let* new := lift (normalize_labels (labels d)) in
  modify df (set_columns new);;
  ret df.

Definition fpts_aliases : list string :=
  ["fpts"; "fantasy pts"; "fantasypts"; "points"; "misc fpts"].

(** [locate_projection_table(tables)] *)
Fixpoint locate_projection_table (tables : list ref) : M (option ref) :=
  match tables with
  | [] => ret None
  | t :: tables' =>
      let* d := load t in
      let* copy := alloc d in
      let* df := clean_columns copy in
      let* cols := load df in
      if has_column "player" cols && existsb (fun a => has_column a cols) fpts_aliases
      then ret (Some df)
      else locate_projection_table tables'
  end.

(** [fetch_html_table(url)] *)
Definition fetch_html_table (url : string) : M (option ref) :=
  let* resp := requests_get url in
  raise_for_status resp;;
  match read_html (text resp) with
  | Raise e => if is_value_error e then ret None else raise e
  | Ok tables =>
      let* refs := alloc_all tables in
      locate_projection_table refs
  end.

(** The inner function [extract_player_team(player_str)]. *)
Definition extract_player_team (player_str : cell) : cell * cell :=
  let parts := split (strip (py_str player_str)) in
  if (2 <=? length parts)%nat then
    let potential_team := default EmptyString (last parts) in
    if (String.length potential_team <=? 4)%nat && isupper potential_team
    then (CStr (join " " (removelast parts)), CStr potential_team)
    else (player_str, CNA)
  else (player_str, CNA).

Definition missing_player : exn :=
  Exn ValueError "Could not find 'player' column in downloaded table.".

Definition missing_fpts : exn :=
  Exn ValueError "Could not find 'FPTS' (season total) in downloaded table.".

(** The labels tried for the season total, in the order of the source. *)
Definition fpts_candidates : list string :=
  ["fpts"; "fantasy pts"; "fantasypts"; "points"; "total fpts"].

(** [extract_player_team_fpts(df)] *)
Definition extract_player_team_fpts (df : ref) : M ref :=
  let* df := clean_columns df in
  (* Player *)
  let* d := load df in
  (if negb (has_column "player" d) then
     if has_column "name" d then
       let* name := get_column df "name" in
       modify df (setitem "player" name)
     else raise missing_player
   else ret tt);;
  (* Team *)
  let* d := load df in
  (match first_present ["team"; "tm"] d with
   | None =>
       let* player := get_column df "player" in
       let extracted := map extract_player_team player in
       modify df (setitem "player" (map fst extracted));;
       modify df (setitem "team" (map snd extracted))
   | Some team_col =>
       let* team := get_column df team_col in
       modify df (setitem "team" team)
   end);;
  (* FPTS (season total) *)
  let* d := load df in
  match first_present fpts_candidates d with
  | None => raise missing_fpts
  | Some fpts_col =>
      let* d := load df in
      let* sel :=
        match select ["player"; "team"; fpts_col] d with
        | Some sel => ret sel
        | None => raise (key_error fpts_col)
        end in
      let* out := alloc sel in
      modify out (rename fpts_col "fpts");;
      (* Coerce types *)
      let* player := get_column out "player" in
      modify out (setitem "player" (astype_str_strip player));;
      let* team := get_column out "team" in
      modify out (setitem "team" (astype_str_strip team));;
      let* fpts := get_column out "fpts" in
      modify out (setitem "fpts" (to_numeric fpts));;
      (* Drop rows without players or points *)
      let* player := get_column out "player" in
      let* fpts := get_column out "fpts" in
      let mask :=
        map (fun pf => ne_empty (fst pf) && cell_notna (snd pf)) (combine player fpts) in
      let* d := load out in
      alloc (filter_rows mask d)
  end.

Definition no_table : exn := Exn ValueError "No data table found.".

(** The fetch of the [try] block of [fetch_position]: the CSV export, else
    the HTML table. *)
Definition fetch_table (url : string) : M (option ref) :=
  (* Try CSV export first *)
  let* df := try_fetch_csv url in
  match df with
  | None => fetch_html_table url
  | Some _ => ret df
  end.

(** The rest of the [try] block, from the [df is None or df.empty] test to
    the [return]. *)
Definition position_table (df : option ref) (pos_label : string) (weeks : Z) : M ref :=
  match df with
  | None => raise no_table
  | Some df =>
      let* d := load df in
      if empty d then raise no_table
      else
        let* base := extract_player_team_fpts df in
        let* fpts := get_column base "fpts" in
        let* w :=
          match PyNum.py_float weeks with
          | Some w => ret w
          | None => raise (Exn OverflowError "int too large to convert to float")
          end in
        modify base (setitem "proj_pts" (per_game w fpts));;
        modify base (fun d => setitem "pos" (repeat (CStr pos_label) (nrows d)) d);;
        let* d := load base in
        match select ["player"; "team"; "proj_pts"; "pos"] d with
        | Some sel => alloc sel
        | None => raise (key_error "pos")
        end
  end.

(** One pass through the [try] block of [fetch_position]. *)
Definition fetch_position_attempt (url pos_label : string) (weeks : Z) : M ref :=
  let* df := fetch_table url in
  position_table df pos_label weeks.

(** [range(n)] *)
Definition range (n : Z) : list Z := map Z.of_nat (seq 0 (Z.to_nat n)).

Definition fetch_failed (pos_label url : string) (e : exn) : exn :=
  ExnFrom RuntimeError
    ("Failed to fetch " +:+ pos_label +:+ " from " +:+ url +:+ ": " +:+ exn_msg e) e.

(** The [for attempt in range(retries + 1)] loop of [fetch_position] over
    the attempts still to make, and the [raise last_err] after it. *)
Fixpoint fetch_position_loop (url pos_label : string) (weeks retries : Z)
    (backoff : float) (attempts : list Z) (last_err : option exn) : M ref :=
  match attempts with
  | [] =>
      match last_err with
      | Some e => raise e
      | None => raise (Exn TypeError "exceptions must derive from BaseException")
      end
  | attempt :: attempts' =>
      try_except (fetch_position_attempt url pos_label weeks)
        (fun e =>
           if attempt <? retries
           then sleep_pow backoff attempt;;
                fetch_position_loop url pos_label weeks retries backoff attempts' (Some e)
           else raise (fetch_failed pos_label url e))
  end.

(** [fetch_position(url, pos_label, weeks, retries, backoff)] *)
Definition fetch_position (url pos_label : string) (weeks retries : Z) (backoff : float)
  : M ref :=
  fetch_position_loop url pos_label weeks retries backoff (range (retries + 1)) None.

(** The [for url, pos in URLS] loop of [main]. *)
Fixpoint fetch_all (specs : list (string * string)) (weeks : Z) : M (list ref) :=
  match specs with
  | [] => ret []
  | (url, pos) :: specs' =>
      let* df_pos := fetch_position url pos weeks 2 1.5 in
      let* frames := fetch_all specs' weeks in
      ret (df_pos :: frames)
  end.

Fixpoint load_all (rs : list ref) : M (list DataFrame) :=
  match rs with
  | [] => ret []
  | r :: rs' =>
      let* d := load r in
      let* ds := load_all rs' in
      ret (d :: ds)
  end.

(** The rest of [main], from [pd.concat] to the frame that is written. *)
Definition aggregate (frames : list ref) : M ref :=
  let* ds := load_all frames in
  let* all := lift (concat ds) in
  let* df_all := alloc all in
  (* Basic sanity filter: keep only expected positions *)
  let* pos := get_column df_all "pos" in
  let* d := load df_all in
  let* df_all := alloc (filter_rows (map (cell_isin ["QB"; "RB"; "WR"; "TE"]) pos) d) in
  (* Final ordering and dtypes *)
  let* d := load df_all in
  let* df_all :=
    match select ["player"; "team"; "proj_pts"; "pos"] d with
    | Some sel => alloc sel
    | None => raise (key_error "pos")
    end in
  let* proj := get_column df_all "proj_pts" in
  modify df_all (setitem "proj_pts" (to_numeric proj));;
  ret df_all.

(** [main()] up to the frame handed to [to_csv]; [weeks] is [args.weeks]. *)
Definition main (weeks : Z) : M ref :=
  let* frames := fetch_all URLS weeks in
  aggregate frames.

End Program.


(* ================================================================= *)
(** ** Result tables *)

(** The labels of a table that [fetch_position] returns, and such a table. *)
Definition result_labels : list label :=
  [LAtom (AStr "player"); LAtom (AStr "team"); LAtom (AStr "proj_pts"); LAtom (AStr "pos")].

Definition result_frame (player team proj_pts pos : Series) : DataFrame :=
  [(LAtom (AStr "player"), player); (LAtom (AStr "team"), team);
   (LAtom (AStr "proj_pts"), proj_pts); (LAtom (AStr "pos"), pos)].

Definition positions : list string := ["QB"; "RB"; "WR"; "TE"].

Definition is_float (c : cell) : bool :=
  match c with CFloat _ => true | _ => false end.

(** A table as [fetch_position] returns it for one of the four positions:
    four columns of one length, float rates, and the position label in every
    row. *)
Definition tagged_table (d : DataFrame) : Prop :=
  exists pos P T Q,
    d = result_frame P T Q (repeat (CStr pos) (length P))
    /\ In pos positions
    /\ length T = length P /\ length Q = length P
    /\ Forall (fun c => is_float c = true) Q.

(* ================================================================= *)
(** ** The extractor read as a function of its input frame

    What [clean_columns] and [extract_player_team_fpts] make of the frame
    they are given, stage by stage. The lemmas [clean_columns_run] and
    [extract_run] below prove that the stateful functions compute exactly
    these frames. *)

Section Readings.
Context `{Libs}.

(** After the MultiIndex branch of [clean_columns]. *)
Definition flattened (d : DataFrame) : DataFrame :=
  if is_multiindex d then set_columns (map flatten_label (labels d)) d else d.

(** After [clean_columns]. *)
Definition cleaned (d : DataFrame) : result DataFrame :=
  match normalize_labels (labels (flattened d)) with
  | Ok new => Ok (set_columns new (flattened d))
  | Raise e => Raise e
  end.

(** The frames of which no two labels are the same once normalised, so that
    every [df[name]] of the extractor is one column. *)
Definition unambiguous (d : DataFrame) : bool :=
  match cleaned d with
  | Ok d1 => distinct (labels d1)
  | Raise _ => true
  end.

(** [df[name]] where the column exists. *)
Definition column (name : string) (d : DataFrame) : Series :=
  default [] (getitem name d).

(** After the player block. *)
Definition with_player (d : DataFrame) : result DataFrame :=
  if has_column "player" d then Ok d
  else if has_column "name" d then Ok (setitem "player" (column "name" d) d)
  else Raise missing_player.


(** After the team block. *)
Definition with_team (d : DataFrame) : DataFrame :=
  match first_present ["team"; "tm"] d with
  | None =>
      let extracted := map extract_player_team (column "player" d) in
      setitem "team" (map snd extracted) (setitem "player" (map fst extracted) d)
  | Some team_col => setitem "team" (column team_col d) d
  end.

(** The frame [out] after the three coercions. *)
Definition coerced (fpts_col : string) (d : DataFrame) : DataFrame :=
  [(LAtom (AStr "player"), astype_str_strip (column "player" d));
   (LAtom (AStr "team"), astype_str_strip (column "team" d));
   (LAtom (AStr "fpts"), to_numeric (column fpts_col d))].

(** [(out["player"] != "") & out["fpts"].notna()] *)
Definition row_mask (player fpts : Series) : list bool :=
  map (fun pf => ne_empty (fst pf) && cell_notna (snd pf)) (combine player fpts).

(** The frame [base] that [extract_player_team_fpts] returns, and the frame
    [fetch_position] returns, from the resolved input frame [d3], the label
    [fc] of its season points and the float [wf] of [weeks]. *)
Definition extracted (fc : string) (d3 : DataFrame) : DataFrame :=
  let o := coerced fc d3 in
  filter_rows (row_mask (column "player" o) (column "fpts" o)) o.

Definition position_frame (fc : string) (d3 : DataFrame) (pos_label : string) (wf : float)
  : DataFrame :=
  let base := extracted fc d3 in
  [(LAtom (AStr "player"), column "player" base);
   (LAtom (AStr "team"), column "team" base);
   (LAtom (AStr "proj_pts"), per_game wf (column "fpts" base));
   (LAtom (AStr "pos"), repeat (CStr pos_label) (length (column "player" base)))].

(** The frame [main] hands to [to_csv], from the tables of the positions. *)
Definition aggregated (ds : list DataFrame) : DataFrame :=
  let mask := map (cell_isin positions) (flat_map (column "pos") ds) in
  result_frame (keep mask (flat_map (column "player") ds))
               (keep mask (flat_map (column "team") ds))
               (to_numeric (keep mask (flat_map (column "proj_pts") ds)))
               (keep mask (flat_map (column "pos") ds)).

End Readings.

(* ================================================================= *)
(** ** Attempts and sleeps *)

(** [failed_attempts attempt backoff i w j w']: from the world [w], the
    attempts numbered [i], ..., [j - 1] each raise, each is followed by a
    [time.sleep(backoff ** index)] that returns, and the world is [w'] when
    attempt [j] is about to start. *)
Inductive failed_attempts {A} (attempt : M A) (backoff : float)
  : Z -> world -> Z -> world -> Prop :=
| failed_none i w : failed_attempts attempt backoff i w i w
| failed_next i w e w1 w2 j w' :
    attempt w = (Raise e, w1) ->
    sleep_pow backoff i w1 = (Ok tt, w2) ->
    failed_attempts attempt backoff (i + 1) w2 j w' ->
    failed_attempts attempt backoff i w j w'.

(** A computation that never sleeps. *)
Definition quiet {A} (m : M A) : Prop := forall w, slept (snd (m w)) = slept w.

(* ================================================================= *)
(** ** Tables of the examples *)

Definition lamar_table : DataFrame :=
  [(LAtom (AStr "Player"), [CStr "Lamar Jackson BAL"]);
   (LAtom (AStr "FPTS"), [CFloat 340])].


Definition odd_points_table : DataFrame :=
  [(LAtom (AStr "Player"), [CStr "Joe X"; CStr "Sam Y"]);
   (LAtom (AStr "Team"), [CStr "NE"; CStr "NYJ"]);
   (LAtom (AStr "FPTS"), [CFloat (-5); CFloat infinity])].

Definition world_of (d : DataFrame) : world := mkWorld [d] [] [] [] steady.

Definition qb_table : DataFrame :=
  result_frame [CStr "A"; CStr "B"] [CStr "BUF"; CStr "KC"]
               [CFloat 20; CFloat 15] [CStr "QB"; CStr "K"].

Definition rb_table : DataFrame :=
  result_frame [CStr "C"] [CStr "SF"] [CFloat 12] [CStr "RB"].

(* ================================================================= *)
(** ** URLs and query mappings, read apart

    What [urlsplit], [urlunsplit] and [urlencode] do, named part by part,
    and the mapping a query string stands for. *)

Module UrlShape.
Import Url.

(** The characters [quote_plus] writes. *)
Definition encoded_char (c : ascii) : bool :=
  always_safe c || Ascii.eqb c "+" || Ascii.eqb c "%".

(** The fields [urlencode] writes, one per pair. *)
Definition spread (kv : string * qvalue) : list (string * string) :=
  match snd kv with
  | QStr v => [(fst kv, v)]
  | QSeq l => map (fun elt => (fst kv, elt)) l
  end.

Definition encode_pair (kv : string * string) : string :=
  quote_plus (fst kv) +:+ "=" +:+ quote_plus (snd kv).

(** The text [urlencode] writes has only encoded characters, [=] and [&]. *)
Definition query_char (c : ascii) : bool :=
  encoded_char c || Ascii.eqb c "=" || Ascii.eqb c "&".

(** What [urlsplit] does first: strip and drop TAB, CR and LF. *)
Definition drop_breaks (s : string) : string :=
  remove_char "010" (remove_char "013" (remove_char "009" s)).

Definition pre (url : string) : string :=
  drop_breaks (lstrip_with c0_or_space url).

Definition netloc_rest (url : string) : string * string :=
  if startswith "//" url
  then
    match url with
    | String _ (String _ url') => splitnetloc url'
    | _ => (EmptyString, url)
    end
  else (EmptyString, url).

Definition brackets_ok (chk : checks) (netloc : string) : bool :=
  let open_br := has_char "[" netloc in
  let close_br := has_char "]" netloc in
  negb ((open_br && negb close_br) || (close_br && negb open_br))
  && negb (open_br && close_br && negb (check_bracketed_netloc chk netloc)).

(** [urlsplit] raises for no other reason than the network location. *)
Definition netloc_ok (chk : checks) (netloc : string) : bool :=
  brackets_ok chk netloc && checknetloc chk netloc.

Definition netloc_error (chk : checks) (netloc : string) : exn :=
  if brackets_ok chk netloc then invalid_netloc netloc else invalid_ipv6.

Definition query_of (s : string) : string := after "?" (before "#" s).

Definition plain (s : string) : bool :=
  negb (has_char "?" s) && negb (has_char "#" s).

(** Every character of [x] is one of [s]. *)
Definition sub (x s : string) : Prop :=
  forall c, has_char c s = false -> has_char c x = false.

(** The parts of [urlunparse]'s result. *)
Definition join_params (a b : string) : string :=
  if negb (is_empty b) then a +:+ ";" +:+ b else a.

Definition with_params (p : ParseResult) : string :=
  join_params (path p) (params p).

Definition hier (scheme netloc url : string) : string :=
  let url :=
    if negb (is_empty netloc)
       || (negb (is_empty scheme) && mem scheme uses_netloc
           && negb (startswith "//" url))
    then
      let url :=
        if negb (is_empty url) && negb (startswith "/" url)
        then "/" +:+ url else url in
      "//" +:+ netloc +:+ url
    else url in
  if negb (is_empty scheme) then scheme +:+ ":" +:+ url else url.

Definition qpart (q : string) : string :=
  if negb (is_empty q) then "?" +:+ q else EmptyString.

Definition fpart (f : string) : string :=
  if negb (is_empty f) then "#" +:+ f else EmptyString.

Definition set_query (p : ParseResult) (q : string) : ParseResult :=
  mkParse (scheme p) (netloc p) (path p) (params p) q (fragment p).

Definition clean (s : string) : bool :=
  negb (has_char "009" s) && negb (has_char "013" s) && negb (has_char "010" s).

(** The split of the path that [urlparse] makes. *)
Definition param_split (scheme path0 : string) : string * string :=
  if mem scheme uses_params && has_char ";" path0
  then splitparams path0
  else (path0, EmptyString).

Definition is_scheme (s : string) : bool :=
  match s with
  | String c _ =>
      is_alpha_char c
      && forallb_str (fun c => scheme_char c && negb (is_upper_char c)) s
  | EmptyString => false
  end.

Definition has_scheme (u : string) : bool :=
  has_char ":" u &&
  match before ":" u with
  | String c _ as pre => is_alpha_char c && forallb_str scheme_char pre
  | EmptyString => false
  end.

Definition head_is (p : ascii -> bool) (s : string) : bool :=
  match s with
  | String c _ => p c
  | EmptyString => true
  end.

Definition printable (c : ascii) : bool := negb (c0_or_space c).

Definition last_segment (s : string) : string := after_last "/" s.

(** A parse result that [urlunparse] and [urlparse] give back unchanged,
    but for a slash put before a relative path. *)
Definition stable (chk : checks) (p : ParseResult) : bool :=
  let s := scheme p in
  let n := netloc p in
  let u := with_params p in
  (is_empty s || is_scheme s)
  && forallb_str (fun c => negb (is_delim c)) n
  && netloc_ok chk n
  && plain (path p) && plain (params p)
  && (is_empty n || is_empty u || startswith "/" u)
  && (negb (is_empty n) || negb (startswith "//" u))
  && (negb (is_empty s) || negb (is_empty n) || (negb (has_scheme u) && head_is printable u))
  && (if mem s uses_params
      then negb (has_char "/" (params p)) && negb (has_char ";" (last_segment (path p)))
      else is_empty (params p))
  && clean n && clean (path p) && clean (params p) && clean (query p)
  && clean (fragment p)
  && negb (has_char "#" (query p)).

(** The condition under which the builder's URL is its own fixed point. *)
Definition rooted (p : ParseResult) : bool :=
  negb (is_empty (netloc p) && startswith "//" (path p)).

Definition tail_char (c : ascii) : bool := Ascii.eqb c "?" || Ascii.eqb c "#".

(** The path [urlunsplit] writes after an empty network location. *)
Definition norm_path (s n u : string) : string :=
  if is_empty n && negb (is_empty s) && mem s uses_netloc
     && negb (is_empty u) && negb (startswith "/" u)
  then "/" +:+ u else u.

(** One character of two, three or four bytes. *)
Definition scalar (u : string) : bool :=
  match u with
  | String a (String b EmptyString) => in_range 194 223 a && is_cont b
  | String a (String b (String c EmptyString)) =>
      in_range 224 239 a && second_ok a b && is_cont c
  | String a (String b (String c (String d EmptyString))) =>
      in_range 240 244 a && second_ok a b && is_cont c && is_cont d
  | _ => false
  end.

(** Text: a sequence of bytes that is the UTF-8 form of a Python [str]. *)
Inductive text : string -> Prop :=
| text_nil : text EmptyString
| text_low c s : (code c <? 128)%N = true -> text s -> text (String c s)
| text_high u s : scalar u = true -> text s -> text (u +:+ s).

(** The same, decided. *)
Fixpoint well_formed (s : string) : bool :=
  match s with
  | EmptyString => true
  | String a s1 =>
      if (code a <? 128)%N then well_formed s1
      else
        match s1 with
        | String b s2 =>
            if scalar (String a (String b EmptyString)) then well_formed s2
            else
              match s2 with
              | String c s3 =>
                  if scalar (String a (String b (String c EmptyString)))
                  then well_formed s3
                  else
                    match s3 with
                    | String d s4 =>
                        scalar (String a (String b (String c (String d EmptyString))))
                        && well_formed s4
                    | EmptyString => false
                    end
              | EmptyString => false
              end
        | EmptyString => false
        end
  end.

Definition text_pair (kv : string * string) : Prop := text (fst kv) /\ text (snd kv).

Definition text_value (v : qvalue) : Prop :=
  match v with
  | QStr s => text s
  | QSeq l => Forall text l
  end.

Definition text_item (kv : string * qvalue) : Prop := text (fst kv) /\ text_value (snd kv).

Definition well_formed_value (v : qvalue) : bool :=
  match v with
  | QStr s => well_formed s
  | QSeq l => forallb well_formed l
  end.

Definition well_formed_item (kv : string * qvalue) : bool :=
  well_formed (fst kv) && well_formed_value (snd kv).

Definition keys {V} (d : dict V) : list string := map fst d.

(** [d.get(k)] *)
Fixpoint get {V} (k : string) (d : dict V) : option V :=
  match d with
  | [] => None
  | (k', v) :: d' => if String.eqb k' k then Some v else get k d'
  end.

(** The value the items give a key last. *)
Fixpoint final {V} (k : string) (items : list (string * V)) : option V :=
  match items with
  | [] => None
  | (k', v) :: items' =>
      match final k items' with
      | Some x => Some x
      | None => if String.eqb k' k then Some v else None
      end
  end.

Definition qstr (kv : string * string) : string * qvalue := (fst kv, QStr (snd kv)).

(** [dict(parse_qsl(qs, keep_blank_values=True))] *)
Definition query_mapping (qs : string) : dict qvalue :=
  dict_update [] (map qstr (parse_qsl qs)).

Definition is_text (v : qvalue) : bool :=
  match v with QStr _ => true | QSeq _ => false end.

(** What is read back of a value once written to a query string: a text
    as it is, of a sequence its last element, of an empty one nothing. *)
Definition collapse_item (kv : string * qvalue) : list (string * qvalue) :=
  match snd kv with
  | QStr _ => [kv]
  | QSeq l =>
      match last l with
      | Some x => [(fst kv, QStr x)]
      | None => []
      end
  end.

Definition collapse (d : dict qvalue) : dict qvalue := flat_map collapse_item d.

(** The entry of a mapping after an update. *)
Definition updated {V} (items : list (string * V)) (kv : string * V) : string * V :=
  (fst kv, from_option id (snd kv) (final (fst kv) items)).

(** An entry agrees with the items: it holds the value they give its key
    last, or a text when they give none. *)
Definition saturated (items : list (string * qvalue)) (kv : string * qvalue) : Prop :=
  match final (fst kv) items with
  | Some v => v = snd kv
  | None => is_text (snd kv) = true
  end.

End UrlShape.

(* ================================================================= *)
(** ** Shapes of frames, for the properties of the pipeline *)

(** A frame as pandas has it: every column has the length of the index. *)
Definition rectangular (d : DataFrame) : Prop :=
  Forall (fun lc => length (snd lc) = nrows d) d.

(** A label that is text. *)
Definition is_text_label (l : label) : bool :=
  match l with
  | LAtom (AStr _) => true
  | _ => false
  end.

(** A label as [clean_columns] leaves it: text with no white space around
    it and no upper-case letter. *)
Definition tidy_label (l : label) : Prop :=
  exists s, l = LAtom (AStr s) /\ strip s = s /\ lower s = s.

(** The test of [locate_projection_table] on a normalised frame. *)
Definition accepted (d : DataFrame) : bool :=
  has_column "player" d && existsb (fun a => has_column a d) fpts_aliases.

(** The text starts with no white space. *)
Definition trimmed_head (s : string) : bool :=
  match s with
  | EmptyString => true
  | String c _ => negb (is_space c)
  end.

(* ================================================================= *)
(** ** What a run asks of the site and of the clock *)

(** A computation that leaves the network alone. *)
Definition offline {A} (m : M A) : Prop :=
  forall w, requested (snd (m w)) = requested w /\ replies (snd (m w)) = replies w.

(** From [w] to [w'], at most [n] requests were made, each for a URL in
    [P]. *)
Definition asked (w w' : world) (n : nat) (P : string -> Prop) : Prop :=
  exists l, requested w' = requested w ++ l /\ (length l <= n)%nat /\ Forall P l.

(** From [w] to [w'], at most [n] sleeps returned, each as [P] says. *)
Definition napped (w w' : world) (n : nat) (P : float * Z -> Prop) : Prop :=
  exists l, slept w' = slept w ++ l /\ (length l <= n)%nat /\ Forall P l.

(** The URLs [fetch_position] may request for [url]: the CSV export and the
    page itself. *)
Definition targets `{Libs} (url : string) : list string :=
  match add_or_update_query url [("csv", Url.QStr "1")] with
  | Ok csv_url => [csv_url; url]
  | Raise _ => []
  end.

(** Library behaviours for the examples: every CSV text reads as
    [lamar_table], every page holds [qb_table], which has no points
    column, and then [lamar_table]. *)
Definition example_libs : Libs :=
  {| float_repr := fun _ => "0.0";
     float_parse := fun _ => nan;
     bracketed_host_ok := fun _ => true;
     netloc_nfkc_ok := fun _ => true;
     read_csv := fun _ => Ok lamar_table;
     read_html := fun _ => Ok [qb_table; lamar_table] |}.

(** Every column of [d] has [n] cells. *)
Definition uniform (n : nat) (d : DataFrame) : Prop :=
  Forall (fun c => length c = n) (map snd d).

(** A computation that leaves the clock as it is. *)
Definition keeps_clock {A} (m : M A) : Prop := forall w, clock (snd (m w)) = clock w.

(* ================================================================= *)
(** ** Further tables and worlds of the examples *)

(** A table read without a header row: its labels are positions. *)
Definition headerless_table : DataFrame :=
  [(LAtom (AInt 0), [CStr "1"]); (LAtom (AInt 1), [CStr "Lamar Jackson"])].

(** A site that answers the next request with [status] and [body]. *)
Definition site_answering (status : Z) (body : string) : world :=
  mkWorld [] [Reply (mkResponse status "OK" "http://site/qb.php" body)] [] [] steady.

(** A site that answers no request. *)
Definition silent_site : world := mkWorld [] [] [] [] steady.

(** The clock of a negative [backoff]: [backoff ** 0] is 1, and the sleeps
    after it are refused. *)
Definition negative_backoff_clock : float -> Z -> option exn :=
  fun _ i =>
    if i =? 0 then None
    else Some (Exn ValueError "sleep length must be non-negative").

(* ================================================================= *)
(** ** Running the monad *)

Lemma heap_with_heap h w : heap (with_heap h w) = h.
Proof. reflexivity. Qed.

Lemma with_heap_twice h h' w : with_heap h (with_heap h' w) = with_heap h w.
Proof. reflexivity. Qed.

Lemma with_heap_same w : with_heap (heap w) w = w.
Proof. by destruct w. Qed.

Lemma bind_ok {A B} (m : M A) (k : A -> M B) w a w' :
  m w = (Ok a, w') -> bind m k w = k a w'.
Proof. unfold bind. by intros ->. Qed.

Lemma bind_raise {A B} (m : M A) (k : A -> M B) w e w' :
  m w = (Raise e, w') -> bind m k w = (Raise e, w').
Proof. unfold bind. by intros ->. Qed.

Lemma bind_inv_ok {A B} (m : M A) (k : A -> M B) w b w' :
  bind m k w = (Ok b, w') ->
  exists a w1, m w = (Ok a, w1) /\ k a w1 = (Ok b, w').
Proof.
  unfold bind. destruct (m w) as [[a|e] w1]; intros Hk.
  - by exists a, w1.
  - discriminate.
Qed.

Lemma load_ok r w d : heap w !! r = Some d -> load r w = (Ok d, w).
Proof. unfold load. by intros ->. Qed.

Lemma modify_ok r f w d :
  heap w !! r = Some d ->
  modify r f w = (Ok tt, with_heap (<[r := f d]> (heap w)) w).
Proof. unfold modify. by intros ->. Qed.

Lemma get_column_ok r name w d col :
  heap w !! r = Some d -> getitem name d = Some col ->
  get_column r name w = (Ok col, w).
Proof.
  intros Hr Hc. unfold get_column. rewrite (bind_ok _ _ _ _ _ (load_ok _ _ _ Hr)).
  by rewrite Hc.
Qed.

Lemma lookup_updated (h : list DataFrame) r d d' :
  h !! r = Some d -> <[r := d']> h !! r = Some d'.
Proof. intros Hr. apply list_lookup_insert_eq. by eapply lookup_lt_Some. Qed.

Lemma lookup_fresh (h : list DataFrame) d : (h ++ [d]) !! length h = Some d.
Proof. by rewrite lookup_app_r, Nat.sub_diag. Qed.

Lemma lookup_old (h : list DataFrame) r d d' :
  h !! r = Some d -> (h ++ [d']) !! r = Some d.
Proof. intros Hr. by rewrite lookup_app_l; [|by eapply lookup_lt_Some]. Qed.

(* ================================================================= *)
(** ** Text *)







Lemma last_elem {A} (l : list A) x : last l = Some x -> In x l.
Proof.
  intros [l' ->]%last_Some. apply in_or_app. right. by left.
Qed.

(* ================================================================= *)
(** ** Frames *)

Lemma getitem_has_column name d :
  has_column name d = true -> getitem name d = Some (column name d).
Proof.
  unfold column. induction d as [|[l c] d IH]; simpl; [done|].
  destruct (label_eqb name l); simpl; [done|]. exact IH.
Qed.

Lemma has_column_getitem name d col :
  getitem name d = Some col -> has_column name d = true.
Proof.
  induction d as [|[l c] d IH]; simpl; [done|].
  destruct (label_eqb name l); simpl; [done|]. exact IH.
Qed.

Lemma label_eqb_eq a b :
  label_eqb a (LAtom (AStr b)) = String.eqb b a.
Proof. reflexivity. Qed.

Lemma label_eqb_trans_false a b l :
  a <> b -> label_eqb a l = true -> label_eqb b l = false.
Proof.
  destruct l as [[s|z]|]; simpl; try done.
  intros Hab Ha%String.eqb_eq. subst s.
  by apply String.eqb_neq.
Qed.

Lemma getitem_setitem_eq name col d :
  getitem name (setitem name col d) = Some col.
Proof.
  induction d as [|[l c] d IH]; simpl.
  - by rewrite String.eqb_refl.
  - destruct (label_eqb name l) eqn:E; simpl; rewrite E; [done|exact IH].
Qed.


Lemma has_column_setitem_eq name col d : has_column name (setitem name col d) = true.
Proof. eapply has_column_getitem, getitem_setitem_eq. Qed.

Lemma has_column_setitem_ne a b col d :
  a <> b -> has_column a (setitem b col d) = has_column a d.
Proof.
  intros Hab. induction d as [|[l c] d IH]; simpl.
  - assert ((b =? a)%string = false) as -> by (apply String.eqb_neq; congruence).
    done.
  - destruct (label_eqb b l) eqn:E; simpl.
    + by rewrite (label_eqb_trans_false b a l).
    + by rewrite IH.
Qed.



Lemma first_present_has names d c :
  first_present names d = Some c -> has_column c d = true /\ In c names.
Proof.
  induction names as [|n names IH]; simpl; [done|].
  destruct (has_column n d) eqn:E.
  - intros [= <-]. auto.
  - intros Hc. destruct (IH Hc). auto.
Qed.

(* ================================================================= *)
(** ** [clean_columns] and the extractor, run *)

Section Runs.
Context `{Libs}.

Lemma clean_columns_run r w d :
  heap w !! r = Some d ->
  clean_columns r w =
    match cleaned d with
    | Ok d1 => (Ok r, with_heap (<[r := d1]> (heap w)) w)
    | Raise e => (Raise e, with_heap (<[r := flattened d]> (heap w)) w)
    end.
Proof.
  intros Hr. unfold clean_columns, cleaned, flattened.
  rewrite (bind_ok _ _ _ _ _ (load_ok _ _ _ Hr)).
  destruct (is_multiindex d).
  - rewrite (bind_ok _ _ _ _ _ (modify_ok _ _ _ _ Hr)).
    erewrite bind_ok; [|apply load_ok; simpl; by eapply lookup_updated].
    destruct (normalize_labels _) as [new|e]; simpl.
    + erewrite bind_ok; [|reflexivity].
      erewrite bind_ok; [|eapply modify_ok; simpl; by eapply lookup_updated].
      simpl. unfold ret. by rewrite list_insert_insert_eq.
    + by erewrite bind_raise; [|reflexivity].
  - erewrite bind_ok; [|reflexivity].
    rewrite (bind_ok _ _ _ _ _ (load_ok _ _ _ Hr)).
    destruct (normalize_labels _) as [new|e]; simpl.
    + erewrite bind_ok; [|reflexivity].
      by rewrite (bind_ok _ _ _ _ _ (modify_ok _ _ _ _ Hr)).
    + erewrite bind_raise; [|reflexivity].
      by rewrite list_insert_id, with_heap_same.
Qed.

Lemma fpts_candidate_cases fc :
  In fc fpts_candidates -> fc <> "player" /\ fc <> "team".
Proof.
  unfold fpts_candidates. simpl. intros Hin.
  repeat (destruct Hin as [<-|Hin]; [split; discriminate|]). done.
Qed.

Lemma insert_fresh (h : list DataFrame) d d' :
  <[length h := d']> (h ++ [d]) = h ++ [d'].
Proof. rewrite insert_app_r_alt by lia. by rewrite Nat.sub_diag. Qed.

Lemma with_player_has d d' : with_player d = Ok d' -> has_column "player" d' = true.
Proof.
  unfold with_player. destruct (has_column "player" d) eqn:Ep.
  - by intros [= <-].
  - destruct (has_column "name" d); [|done].
    intros [= <-]. apply has_column_setitem_eq.
Qed.

Lemma with_team_has d :
  has_column "player" d = true ->
  has_column "player" (with_team d) = true /\ has_column "team" (with_team d) = true.
Proof.
  intros Hp. unfold with_team. destruct (first_present _ d).
  - split; [|apply has_column_setitem_eq].
    by rewrite has_column_setitem_ne.
  - split; [|apply has_column_setitem_eq].
    rewrite has_column_setitem_ne by done. apply has_column_setitem_eq.
Qed.

Lemma select3 fc d :
  has_column "player" d = true -> has_column "team" d = true -> has_column fc d = true ->
  select ["player"; "team"; fc] d =
    Some [(LAtom (AStr "player"), column "player" d);
          (LAtom (AStr "team"), column "team" d);
          (LAtom (AStr fc), column fc d)].
Proof.
  intros Hp Ht Hf. simpl.
  by rewrite !getitem_has_column.
Qed.

Lemma extract_run r w d :
  heap w !! r = Some d ->
  extract_player_team_fpts r w =
    match cleaned d with
    | Raise e => (Raise e, with_heap (<[r := flattened d]> (heap w)) w)
    | Ok d1 =>
        match with_player d1 with
        | Raise e => (Raise e, with_heap (<[r := d1]> (heap w)) w)
        | Ok d2 =>
            let d3 := with_team d2 in
            match first_present fpts_candidates d3 with
            | None => (Raise missing_fpts, with_heap (<[r := d3]> (heap w)) w)
            | Some fpts_col =>
                let o := coerced fpts_col d3 in
                (Ok (S (length (heap w))),
                 with_heap
                   (<[r := d3]> (heap w)
                    ++ [o; filter_rows (row_mask (column "player" o) (column "fpts" o)) o])
                   w)
            end
        end
    end.
Proof.
  intros Hr. unfold extract_player_team_fpts.
  assert (Hlen : (r < length (heap w))%nat) by (by eapply lookup_lt_Some).
  pose proof (clean_columns_run r w d Hr) as Hc.
  destruct (cleaned d) as [d1|e].
  2: { by rewrite (bind_raise _ _ _ _ _ Hc). }
  rewrite (bind_ok _ _ _ _ _ Hc). clear Hc.
  set (w1 := with_heap (<[r:=d1]> (heap w)) w).
  assert (H1 : heap w1 !! r = Some d1) by (by eapply lookup_updated).
  rewrite (bind_ok _ _ _ _ _ (load_ok _ _ _ H1)).
  (* the player block *)
  assert (Hplayer :
    (if negb (has_column "player" d1)
     then if has_column "name" d1
          then let* name := get_column r "name" in modify r (setitem "player" name)
          else raise missing_player
     else ret tt) w1 =
    match with_player d1 with
    | Ok d2 => (Ok tt, with_heap (<[r := d2]> (heap w)) w)
    | Raise e => (Raise e, w1)
    end).
  { unfold with_player. destruct (has_column "player" d1) eqn:Ep; simpl.
    - unfold ret, w1. done.
    - destruct (has_column "name" d1) eqn:En.
      + erewrite bind_ok; [|eapply get_column_ok; [exact H1|by apply getitem_has_column]].
        rewrite (modify_ok _ _ _ _ H1). unfold w1. simpl.
        by rewrite list_insert_insert_eq.
      + done. }
  destruct (with_player d1) as [d2|e] eqn:Ewp.
  2: { by rewrite (bind_raise _ _ _ _ _ Hplayer). }
  apply with_player_has in Ewp.
  rewrite (bind_ok _ _ _ _ _ Hplayer). clear Hplayer H1 w1.
  set (w2 := with_heap (<[r:=d2]> (heap w)) w).
  assert (H2 : heap w2 !! r = Some d2) by (by eapply lookup_updated).
  rewrite (bind_ok _ _ _ _ _ (load_ok _ _ _ H2)).
  (* the team block *)
  assert (Hteam :
    (match first_present ["team"; "tm"] d2 with
     | Some team_col =>
         let* team := get_column r team_col in modify r (setitem "team" team)
     | None =>
         let* player := get_column r "player" in
         modify r (setitem "player" (map fst (map extract_player_team player)));;
         modify r (setitem "team" (map snd (map extract_player_team player)))
     end) w2 = (Ok tt, with_heap (<[r := with_team d2]> (heap w)) w)).
  { unfold with_team. destruct (first_present _ d2) as [team_col|] eqn:Et.
    - apply first_present_has in Et as [Et _].
      erewrite bind_ok; [|eapply get_column_ok; [exact H2|by apply getitem_has_column]].
      rewrite (modify_ok _ _ _ _ H2). unfold w2. simpl.
      by rewrite list_insert_insert_eq.
    - erewrite bind_ok; [|eapply get_column_ok; [exact H2|by apply getitem_has_column]].
      rewrite (bind_ok _ _ _ _ _ (modify_ok _ _ _ _ H2)).
      erewrite modify_ok; [|simpl; by eapply lookup_updated].
      unfold w2. simpl. by rewrite !list_insert_insert_eq. }
  rewrite (bind_ok _ _ _ _ _ Hteam). clear Hteam H2 w2.
  destruct (with_team_has d2 Ewp) as [Hp3 Ht3].
  set (d3 := with_team d2) in *.
  set (w3 := with_heap (<[r:=d3]> (heap w)) w).
  assert (H3 : heap w3 !! r = Some d3) by (by eapply lookup_updated).
  rewrite (bind_ok _ _ _ _ _ (load_ok _ _ _ H3)).
  destruct (first_present fpts_candidates d3) as [fc|] eqn:Ef; [|done].
  apply first_present_has in Ef as [Ef Hin].
  apply fpts_candidate_cases in Hin as [Hfp Hft].
  rewrite (bind_ok _ _ _ _ _ (load_ok _ _ _ H3)).
  rewrite (select3 fc d3 Hp3 Ht3 Ef).
  erewrite bind_ok; [|reflexivity].
  erewrite bind_ok; [|reflexivity].
  assert (Hn : length (heap w3) = length (heap w)) by (unfold w3; simpl; apply length_insert).
  set (h3 := heap w3) in *.
  replace (<[r:=d3]> (heap w)) with h3 by done.
  rewrite <- Hn. clearbody h3. clear Hn H3.
  assert (Efp : (fc =? "player")%string = false) by (by apply String.eqb_neq).
  assert (Eft : (fc =? "team")%string = false) by (by apply String.eqb_neq).
  assert (Epf : ("player" =? fc)%string = false) by (apply String.eqb_neq; congruence).
  assert (Etf : ("team" =? fc)%string = false) by (apply String.eqb_neq; congruence).
  (* out.rename(columns={fpts_col: "fpts"}, inplace=True) *)
  erewrite bind_ok; [|eapply modify_ok; simpl; apply lookup_fresh].
  simpl heap. rewrite insert_fresh.
  unfold rename. cbn [map fst snd label_eqb]. rewrite Epf, Etf, String.eqb_refl.
  cbv iota.
  (* out["player"] = ... *)
  erewrite bind_ok; [|eapply get_column_ok; [simpl; apply lookup_fresh|reflexivity]].
  erewrite bind_ok; [|eapply modify_ok; simpl; apply lookup_fresh].
  simpl heap. rewrite insert_fresh. simpl setitem.
  (* out["team"] = ... *)
  erewrite bind_ok; [|eapply get_column_ok; [simpl; apply lookup_fresh|reflexivity]].
  erewrite bind_ok; [|eapply modify_ok; simpl; apply lookup_fresh].
  simpl heap. rewrite insert_fresh. simpl setitem.
  (* out["fpts"] = ... *)
  erewrite bind_ok; [|eapply get_column_ok; [simpl; apply lookup_fresh|reflexivity]].
  erewrite bind_ok; [|eapply modify_ok; simpl; apply lookup_fresh].
  simpl heap. rewrite insert_fresh. simpl setitem.
  (* the mask and the filtered copy *)
  erewrite bind_ok; [|eapply get_column_ok; [simpl; apply lookup_fresh|reflexivity]].
  erewrite bind_ok; [|eapply get_column_ok; [simpl; apply lookup_fresh|reflexivity]].
  erewrite bind_ok; [|eapply load_ok; simpl; apply lookup_fresh].
  unfold alloc. simpl heap. rewrite length_app. simpl length.
  rewrite Nat.add_1_r, <- app_assoc. reflexivity.
Qed.

Lemma lookup_fresh2 (h : list DataFrame) a b : (h ++ [a; b]) !! S (length h) = Some b.
Proof. rewrite lookup_app_r by lia. by replace (S (length h) - length h)%nat with 1%nat by lia. Qed.

Lemma insert_fresh2 (h : list DataFrame) a b c :
  <[S (length h) := c]> (h ++ [a; b]) = h ++ [a; c].
Proof.
  rewrite insert_app_r_alt by lia.
  by replace (S (length h) - length h)%nat with 1%nat by lia.
Qed.

Lemma position_table_ok r pos_label weeks w d out w' :
  heap w !! r = Some d ->
  position_table (Some r) pos_label weeks w = (Ok out, w') ->
  exists d1 d2 fc wf,
    empty d = false /\ cleaned d = Ok d1 /\ with_player d1 = Ok d2
    /\ first_present fpts_candidates (with_team d2) = Some fc
    /\ PyNum.py_float weeks = Some wf
    /\ out = S (S (length (heap w)))
    /\ w' = with_heap
              (<[r := with_team d2]> (heap w)
               ++ [coerced fc (with_team d2);
                   setitem "pos" (repeat (CStr pos_label) (length (column "player" (extracted fc (with_team d2)))))
                     (setitem "proj_pts" (per_game wf (column "fpts" (extracted fc (with_team d2))))
                        (extracted fc (with_team d2)));
                   position_frame fc (with_team d2) pos_label wf])
              w.
Proof.
  intros Hr. unfold position_table.
  rewrite (bind_ok _ _ _ _ _ (load_ok _ _ _ Hr)).
  destruct (empty d) eqn:Ee; [done|].
  pose proof (extract_run r w d Hr) as Hx.
  destruct (cleaned d) as [d1|e] eqn:Ec.
  2: { by rewrite (bind_raise _ _ _ _ _ Hx). }
  destruct (with_player d1) as [d2|e] eqn:Ep.
  2: { by rewrite (bind_raise _ _ _ _ _ Hx). }
  cbv zeta in Hx.
  destruct (first_present fpts_candidates (with_team d2)) as [fc|] eqn:Ef.
  2: { by rewrite (bind_raise _ _ _ _ _ Hx). }
  rewrite (bind_ok _ _ _ _ _ Hx). clear Hx.
  set (d3 := with_team d2) in *.
  assert (Hn : length (<[r:=d3]> (heap w)) = length (heap w)) by apply length_insert.
  set (h3 := <[r:=d3]> (heap w)) in *. rewrite <- Hn.
  fold (extracted fc d3).
  unfold position_frame.
  set (base := extracted fc d3).
  assert (Hb : base =
    [(LAtom (AStr "player"), column "player" base);
     (LAtom (AStr "team"), column "team" base);
     (LAtom (AStr "fpts"), column "fpts" base)]) by reflexivity.
  set (P := column "player" base) in *.
  set (T := column "team" base) in *.
  set (F := column "fpts" base) in *.
  rewrite Hb. clear Hb.
  erewrite bind_ok; [|eapply get_column_ok; [cbn [heap with_heap]; apply lookup_fresh2|reflexivity]].
  destruct (PyNum.py_float weeks) as [wf|] eqn:Ew.
  2: { by erewrite bind_raise; [|reflexivity]. }
  erewrite bind_ok; [|reflexivity].
  erewrite bind_ok; [|eapply modify_ok; cbn [heap with_heap]; apply lookup_fresh2].
  cbn [heap with_heap]. rewrite insert_fresh2.
  erewrite bind_ok; [|eapply modify_ok; cbn [heap with_heap]; apply lookup_fresh2].
  cbn [heap with_heap]. rewrite insert_fresh2.
  erewrite bind_ok; [|eapply load_ok; cbn [heap with_heap]; apply lookup_fresh2].
  simpl. unfold alloc. cbn [heap with_heap].
  rewrite length_app. cbn [length]. rewrite Nat.add_comm. cbn [Nat.add].
  intros [= <- <-].
  exists d1, d2, fc, wf. repeat split; try done.
  unfold with_heap. cbn [replies requested slept clock]. f_equal.
  unfold h3. by rewrite <- app_assoc.
Qed.





End Runs.

(* ================================================================= *)
(** ** The claims *)

Section Claims.
Context `{Libs}.

Lemma keep_Forall {P : cell -> Prop} m col : Forall P col -> Forall P (keep m col).
Proof.
  intros Hc. revert m. induction Hc as [|c col Hc _ IH]; intros [|[] m]; simpl; auto.
Qed.








Lemma lookup_fresh3 (h : list DataFrame) a b c :
  (h ++ [a; b; c]) !! S (S (length h)) = Some c.
Proof.
  rewrite lookup_app_r by lia.
  by replace (S (S (length h)) - length h)%nat with 2%nat by lia.
Qed.




(** C9. Selector acceptance does not guarantee extraction success. A table
    with a player column whose only points column is labelled "MISC FPTS"
    is accepted by [locate_projection_table], which returns a normalised
    copy of it; [extract_player_team_fpts] applied to that copy raises the
    missing-column error for the season points, since "misc fpts" is an
    alias of the selector only. *)
Theorem selector_accepts_what_extractor_rejects :
  exists (table : DataFrame) (df : ref) (w' : world),
    locate_projection_table [0%nat] (mkWorld [table] [] [] [] steady) = (Ok (Some df), w')
    /\ heap w' !! df =
         Some [(LAtom (AStr "player"), [CStr "Josh Allen"]);
               (LAtom (AStr "misc fpts"), [CFloat 410.5])]
    /\ existsb (String.eqb "misc fpts") fpts_aliases = true
    /\ existsb (String.eqb "misc fpts") fpts_candidates = false
    /\ fst (extract_player_team_fpts df w') = Raise missing_fpts.
Proof.
  exists [(LAtom (AStr "Player"), [CStr "Josh Allen"]);
          (LAtom (AStr "MISC FPTS"), [CFloat 410.5])].
  exists 1%nat. eexists.
  split; [vm_compute; reflexivity|].
  split; [reflexivity|].
  split; [reflexivity|].
  split; [reflexivity|].
  vm_compute. reflexivity.
Qed.

(** C3, at the failing input. A 200 response with an empty body makes
    [try_fetch_csv] raise IndexError at [text.splitlines()[0]] instead of
    returning [None]; the exception leaves [fetch_table] before the HTML
    page is requested. *)
Theorem try_fetch_csv_empty_body_raises
    (h : list DataFrame) (rest : list reply) (sent : list string)
    (naps : list (float * Z)) (clk : float -> Z -> option exn)
    (reason final_url : string) :
  let url := "https://www.fantasypros.com/nfl/projections/qb.php?week=draft" in
  let w := mkWorld h (Reply (mkResponse 200 reason final_url "") :: rest) sent naps clk in
  let w' := mkWorld h rest (sent ++ [url +:+ "&csv=1"]) naps clk in
  try_fetch_csv url w = (Raise (Exn IndexError "list index out of range"), w')
  /\ fetch_table url w = (Raise (Exn IndexError "list index out of range"), w').
Proof.
  intros url w w'.
  assert (Hcsv : try_fetch_csv url w = (Raise (Exn IndexError "list index out of range"), w')).
  { vm_compute. reflexivity. }
  split; [exact Hcsv|].
  unfold fetch_table. by rewrite (bind_raise _ _ _ _ _ Hcsv).
Qed.


End Claims.

(** *** Witnesses and counterexamples of the extractor claims *)








(* ================================================================= *)
(** ** The retry loop *)

Create HintDb quiet discriminated.

Lemma quiet_ret {A} (a : A) : quiet (ret a).
Proof. by intros w. Qed.

Lemma quiet_raise {A} e : quiet (@raise A e).
Proof. by intros w. Qed.

Lemma quiet_lift {A} (r : result A) : quiet (lift r).
Proof. by destruct r. Qed.

Lemma quiet_bind {A B} (m : M A) (k : A -> M B) :
  quiet m -> (forall a, quiet (k a)) -> quiet (bind m k).
Proof.
  intros Hm Hk w. unfold bind. specialize (Hm w).
  destruct (m w) as [[a|e] w1]; simpl in *; [|done].
  by rewrite (Hk a w1).
Qed.

Lemma quiet_alloc d : quiet (alloc d).
Proof. by intros w. Qed.

Lemma quiet_load r : quiet (load r).
Proof. intros w. unfold load. by destruct (heap w !! r). Qed.

Lemma quiet_modify r f : quiet (modify r f).
Proof. intros w. unfold modify. by destruct (heap w !! r). Qed.

Lemma quiet_requests_get url : quiet (requests_get url).
Proof. intros w. unfold requests_get. by destruct (replies w) as [|[]]. Qed.

#[export] Hint Resolve quiet_ret quiet_raise quiet_lift quiet_alloc quiet_load
  quiet_modify quiet_requests_get : quiet.

(** One step through the syntax of a computation; the functions already
    shown quiet are taken from the hint database. *)
Ltac quiet_step :=
  lazymatch goal with
  | |- quiet (bind _ _) => apply quiet_bind; [|intros ?]
  | |- quiet (match ?x with _ => _ end) => destruct x
  | |- quiet (let _ := _ in _) => cbv zeta
  | |- quiet _ => solve [auto with quiet nocore]
  end.

Ltac quiet_auto := repeat quiet_step.

Lemma quiet_get_column r name : quiet (get_column r name).
Proof. unfold get_column. quiet_auto. Qed.

Lemma quiet_raise_for_status resp : quiet (raise_for_status resp).
Proof. unfold raise_for_status. quiet_auto. Qed.

Lemma quiet_alloc_all dfs : quiet (alloc_all dfs).
Proof. induction dfs; simpl; quiet_auto. Qed.

#[export] Hint Resolve quiet_get_column quiet_raise_for_status quiet_alloc_all : quiet.

Section Quiet.
Context `{Libs}.

Lemma quiet_clean_columns r : quiet (clean_columns r).
Proof. unfold clean_columns. quiet_auto. Qed.

Lemma quiet_try_fetch_csv url : quiet (try_fetch_csv url).
Proof. unfold try_fetch_csv. quiet_auto. Qed.

Lemma quiet_locate tables : quiet (locate_projection_table tables).
Proof.
  pose proof quiet_clean_columns.
  induction tables as [|t tables IH]; simpl; quiet_auto.
Qed.

Lemma quiet_fetch_html_table url : quiet (fetch_html_table url).
Proof. pose proof quiet_locate. unfold fetch_html_table. quiet_auto. Qed.

Lemma quiet_extract r : quiet (extract_player_team_fpts r).
Proof. pose proof quiet_clean_columns. unfold extract_player_team_fpts. quiet_auto. Qed.

Lemma quiet_attempt url pos_label weeks :
  quiet (fetch_position_attempt url pos_label weeks).
Proof.
  pose proof quiet_try_fetch_csv. pose proof quiet_fetch_html_table.
  pose proof quiet_extract.
  unfold fetch_position_attempt, fetch_table, position_table. quiet_auto.
Qed.

End Quiet.

Section Retry.
Context `{Libs}.
Variables (url pos_label : string) (weeks retries : Z) (backoff : float).

Abbreviation attempt := (fetch_position_attempt url pos_label weeks).
Abbreviation loop := (fetch_position_loop url pos_label weeks retries backoff).

Lemma failed_attempts_le {A} (m : M A) i w j w' :
  failed_attempts m backoff i w j w' -> i <= j.
Proof. induction 1; lia. Qed.

Lemma range_from (i : nat) (n : nat) :
  map Z.of_nat (seq i (S n)) = Z.of_nat i :: map Z.of_nat (seq (S i) n).
Proof. reflexivity. Qed.

(** The loop from attempt [i] on, when attempts [i .. j-1] fail. *)
Lemma loop_after_failures (i : nat) w j w' last_err :
  failed_attempts attempt backoff (Z.of_nat i) w j w' ->
  j <= retries ->
  forall n, Z.of_nat i + Z.of_nat n = retries + 1 ->
  exists k m last_err',
    j = Z.of_nat k /\ Z.of_nat k + Z.of_nat (S m) = retries + 1
    /\ loop (map Z.of_nat (seq i n)) last_err w
       = loop (map Z.of_nat (seq k (S m))) last_err' w'.
Proof.
  intros Hf. remember (Z.of_nat i) as zi eqn:Ei. revert i Ei last_err.
  induction Hf as [zi w|zi w e w1 w2 j w' Hbody Hnap Hf IH]; intros i -> last_err Hj n Hn.
  - destruct n as [|m]; [lia|]. by exists i, m, last_err.
  - pose proof (failed_attempts_le _ _ _ _ _ Hf) as Hle.
    destruct n as [|m]; [lia|].
    destruct (IH (S i) ltac:(lia) (Some e) Hj m ltac:(lia))
      as (k & m' & le' & -> & Hk & Hloop).
    exists k, m', le'. split; [done|]. split; [done|].
    rewrite <- Hloop, range_from. cbn [fetch_position_loop].
    unfold try_except at 1. rewrite Hbody.
    assert ((Z.of_nat i <? retries) = true) as -> by (apply Z.ltb_lt; lia).
    unfold bind. rewrite Hnap.
    by replace (Z.of_nat i + 1) with (Z.of_nat (S i)) by lia.
Qed.

Lemma slept_sleep_pow i w w' :
  sleep_pow backoff i w = (Ok tt, w') -> slept w' = slept w ++ [(backoff, i)].
Proof.
  unfold sleep_pow. destruct (clock w backoff i); [done|]. by intros [= <-].
Qed.

Lemma sleeps_of_failures (i : Z) w j w' :
  failed_attempts attempt backoff i w j w' ->
  0 <= i ->
  slept w' = slept w
             ++ map (fun x => (backoff, x))
                    (map Z.of_nat (seq (Z.to_nat i) (Z.to_nat (j - i)))).
Proof.
  induction 1 as [i w|i w e w1 w2 j w' Hbody Hnap Hf IH]; intros Hi.
  - rewrite Z.sub_diag. simpl. by rewrite app_nil_r.
  - pose proof (failed_attempts_le _ _ _ _ _ Hf) as Hle.
    rewrite IH by lia. apply slept_sleep_pow in Hnap. rewrite Hnap.
    pose proof (quiet_attempt url pos_label weeks w) as Hq.
    rewrite Hbody in Hq. cbn [snd] in Hq. rewrite Hq, <- app_assoc. f_equal.
    replace (Z.to_nat (j - i)) with (S (Z.to_nat (j - (i + 1)))) by lia.
    replace (Z.to_nat (i + 1)) with (S (Z.to_nat i)) by lia.
    cbn [seq map app]. by rewrite Z2Nat.id by lia.
Qed.

(** C4. With [retries >= 0]: when the attempts [0 .. k-1] raise, the sleep
    after each returns and attempt [k <= retries] returns, [fetch_position]
    returns what that attempt returned; when all [retries + 1] attempts
    raise, it raises one RuntimeError that names the position and the URL
    and has the last exception as its cause; and before attempt [k] it has
    slept [backoff ** 0], ..., [backoff ** (k - 1)], one sleep after each
    failed attempt. The last part is the scenario of the specification: two
    failures, then a success at the third attempt. *)
Theorem fetch_position_retries :
  0 <= retries ->
  (forall w k wk v w',
      failed_attempts attempt backoff 0 w k wk -> k <= retries ->
      attempt wk = (Ok v, w') ->
      fetch_position url pos_label weeks retries backoff w = (Ok v, w'))
  /\ (forall w wk e w',
        failed_attempts attempt backoff 0 w retries wk ->
        attempt wk = (Raise e, w') ->
        fetch_position url pos_label weeks retries backoff w
        = (Raise (ExnFrom RuntimeError
                    ("Failed to fetch " +:+ pos_label +:+ " from " +:+ url +:+ ": "
                     +:+ exn_msg e) e), w'))
  /\ (forall w k wk,
        failed_attempts attempt backoff 0 w k wk ->
        slept wk = slept w ++ map (fun i => (backoff, i)) (range k))
  /\ (retries = 2 ->
      forall w e1 w1 w1' e2 w2 w2' v w3,
        attempt w = (Raise e1, w1) -> sleep_pow backoff 0 w1 = (Ok tt, w1') ->
        attempt w1' = (Raise e2, w2) -> sleep_pow backoff 1 w2 = (Ok tt, w2') ->
        attempt w2' = (Ok v, w3) ->
        fetch_position url pos_label weeks retries backoff w = (Ok v, w3)
        /\ slept w3 = slept w ++ [(backoff, 0); (backoff, 1)]).
Proof.
  intros Hretries.
  assert (Hok : forall w k wk v w',
             failed_attempts attempt backoff 0 w k wk -> k <= retries ->
             attempt wk = (Ok v, w') ->
             fetch_position url pos_label weeks retries backoff w = (Ok v, w')).
  { intros w k wk v w' Hf Hk Hv. unfold fetch_position, range.
    destruct (loop_after_failures 0 w k wk None Hf Hk (Z.to_nat (retries + 1)) ltac:(lia))
      as (k' & m & le' & -> & Hm & ->).
    rewrite range_from. cbn [fetch_position_loop]. unfold try_except. by rewrite Hv. }
  assert (Hsleep : forall w k wk,
             failed_attempts attempt backoff 0 w k wk ->
             slept wk = slept w ++ map (fun i => (backoff, i)) (range k)).
  { intros w k wk Hf. rewrite (sleeps_of_failures 0 w k wk Hf) by lia.
    unfold range. by rewrite Z.sub_0_r. }
  split; [exact Hok|]. split; [|split; [exact Hsleep|]].
  - intros w wk e w' Hf He. unfold fetch_position, range.
    destruct (loop_after_failures 0 w retries wk None Hf ltac:(lia)
                (Z.to_nat (retries + 1)) ltac:(lia))
      as (k' & m & le' & Hk & Hm & ->).
    rewrite range_from. cbn [fetch_position_loop]. unfold try_except. rewrite He.
    by assert ((Z.of_nat k' <? retries) = false) as -> by (apply Z.ltb_ge; lia).
  - intros -> w e1 w1 w1' e2 w2 w2' v w3 H1 N1 H2 N2 H3.
    assert (Hf : failed_attempts attempt backoff 0 w 2 w2').
    { eapply failed_next; [exact H1|exact N1|].
      eapply failed_next; [exact H2|exact N2|]. constructor. }
    split; [by eapply Hok|].
    pose proof (quiet_attempt url pos_label weeks w2') as Hq.
    rewrite H3 in Hq. cbn [snd] in Hq. rewrite Hq.
    rewrite (Hsleep _ _ _ Hf). reflexivity.
Qed.

(** X24. A sleep that raises ends the call: its exception leaves the handler and
    [fetch_position], with no further attempt and no RuntimeError. *)
Lemma fetch_position_sleep_raises w k wk e w1 e' w2 :
  failed_attempts attempt backoff 0 w k wk -> k < retries ->
  attempt wk = (Raise e, w1) ->
  sleep_pow backoff k w1 = (Raise e', w2) ->
  fetch_position url pos_label weeks retries backoff w = (Raise e', w2).
Proof.
  intros Hf Hk He Hnap. unfold fetch_position, range.
  pose proof (failed_attempts_le _ _ _ _ _ Hf) as Hle.
  destruct (loop_after_failures 0 w k wk None Hf ltac:(lia)
              (Z.to_nat (retries + 1)) ltac:(lia))
    as (k' & m & le' & -> & Hm & ->).
  rewrite range_from. cbn [fetch_position_loop]. unfold try_except. rewrite He.
  assert ((Z.of_nat k' <? retries) = true) as -> by (apply Z.ltb_lt; lia).
  unfold bind. by rewrite Hnap.
Qed.

(** X23. With a negative [retries] the loop body never runs and the final
    [raise last_err] raises TypeError, [last_err] being [None]. *)
Lemma fetch_position_negative_retries w :
  retries < 0 ->
  fetch_position url pos_label weeks retries backoff w
  = (Raise (Exn TypeError "exceptions must derive from BaseException"), w).
Proof.
  intros Hneg. unfold fetch_position, range.
  by replace (Z.to_nat (retries + 1)) with 0%nat by lia.
Qed.

End Retry.

(** C4, witness: the site never answers, so all three attempts of the
    default budget raise, and the RuntimeError names QB and the URL. *)
Lemma fetch_position_retries_witness :
  0 <= 2
  /\ forall L : Libs,
       fetch_position "http://site/qb.php" "QB" 17 2 1.5 (mkWorld [] [] [] [] steady)
       = (Raise (ExnFrom RuntimeError "Failed to fetch QB from http://site/qb.php: no reply"
                   (Exn ConnectionError "no reply")),
          mkWorld [] []
            ["http://site/qb.php?csv=1"; "http://site/qb.php?csv=1"; "http://site/qb.php?csv=1"]
            [(1.5%float, 0); (1.5%float, 1)] steady).
Proof.
  split; [lia|]. intros L.
  refine (proj1 (proj2 (fetch_position_retries "http://site/qb.php" "QB" 17 2 1.5 _))
            (mkWorld [] [] [] [] steady)
            (mkWorld [] [] ["http://site/qb.php?csv=1"; "http://site/qb.php?csv=1"]
               [(1.5%float, 0); (1.5%float, 1)] steady)
            (Exn ConnectionError "no reply") _ _ _).
  - lia.
  - eapply failed_next; [vm_compute; reflexivity|vm_compute; reflexivity|].
    eapply failed_next; [vm_compute; reflexivity|vm_compute; reflexivity|].
    apply failed_none.
  - vm_compute. reflexivity.
Defined.

(* ================================================================= *)
(** ** The aggregate *)

Lemma result_frame_of_labels d :
  labels d = result_labels ->
  d = result_frame (column "player" d) (column "team" d)
                   (column "proj_pts" d) (column "pos" d).
Proof.
  unfold labels, result_labels.
  destruct d as [|[l1 c1] [|[l2 c2] [|[l3 c3] [|[l4 c4] [|? ?]]]]]; try done.
  simpl. by intros [= -> -> -> ->].
Qed.

Lemma label_eqb_true name l : label_eqb name l = true <-> l = LAtom (AStr name).
Proof.
  destruct l as [[s|z]|]; simpl; try (split; [done|by intros [=]]).
  rewrite String.eqb_eq. split; [by intros ->|by intros [= ->]].
Qed.

Lemma column_of_getitem name d : column_of (LAtom (AStr name)) d = getitem name d.
Proof.
  induction d as [|[l c] d IH]; simpl; [done|].
  destruct (label_eq_dec l (LAtom (AStr name))) as [->|Hne].
  - by rewrite label_eqb_eq, String.eqb_refl.
  - destruct (label_eqb name l) eqn:E; [|exact IH].
    by apply label_eqb_true in E.
Qed.

Lemma dedup_seen seen ls :
  Forall (fun l => In l seen) ls -> dedup seen ls = [].
Proof.
  induction 1 as [|l ls Hl _ IH]; simpl; [done|].
  assert (existsb (fun l' => if label_eq_dec l' l then true else false) seen = true) as ->; [|done].
  apply existsb_exists. exists l. split; [done|]. by destruct (label_eq_dec l l).
Qed.

Lemma concat_column_result name ds :
  In (LAtom (AStr name)) result_labels ->
  Forall (fun d => labels d = result_labels) ds ->
  concat_column (LAtom (AStr name)) ds = flat_map (column name) ds.
Proof.
  intros Hin Hall. unfold concat_column.
  induction Hall as [|d ds Hd _ IH]; [done|].
  cbn [flat_map]. rewrite IH. f_equal. rewrite column_of_getitem.
  rewrite (result_frame_of_labels d Hd).
  unfold result_labels in Hin. simpl in Hin.
  repeat (destruct Hin as [[= <-]|Hin]; [reflexivity|]). done.
Qed.

Lemma concat_result_tables ds :
  ds <> [] ->
  Forall (fun d => labels d = result_labels) ds ->
  concat ds =
    Ok (result_frame (flat_map (column "player") ds) (flat_map (column "team") ds)
                     (flat_map (column "proj_pts") ds) (flat_map (column "pos") ds)).
Proof.
  intros Hne Hall. unfold concat. destruct ds as [|d ds]; [done|]. f_equal.
  assert (Hlab : dedup [] (flat_map labels (d :: ds)) = result_labels).
  { cbn [flat_map]. inversion Hall as [|? ? Hd Hds]; subst. rewrite Hd.
    unfold result_labels at 1. cbn [app dedup existsb].
    repeat match goal with
           | |- context [label_eq_dec ?a ?b] => destruct (label_eq_dec a b); [done|]
           end.
    cbn [orb]. rewrite dedup_seen; [done|].
    clear -Hds. induction Hds as [|d' ds' Hd' _ IH]; [constructor|].
    cbn [flat_map]. apply Forall_app. split; [|exact IH].
    rewrite Hd'. unfold result_labels.
    repeat (apply List.Forall_cons; [simpl; auto 10|]). apply List.Forall_nil. }
  rewrite Hlab. unfold result_labels, result_frame. cbn [map].
  rewrite !concat_column_result by (try done; unfold result_labels; simpl; auto).
  done.
Qed.

Lemma load_all_ok frames ds w :
  Forall2 (fun r d => heap w !! r = Some d) frames ds ->
  load_all frames w = (Ok ds, w).
Proof.
  induction 1 as [|r d frames ds Hr _ IH]; simpl; [done|].
  rewrite (bind_ok _ _ _ _ _ (load_ok _ _ _ Hr)).
  by rewrite (bind_ok _ _ _ _ _ IH).
Qed.

Section Aggregate.
Context `{Libs}.

Lemma aggregate_run frames ds w :
  Forall2 (fun r d => heap w !! r = Some d) frames ds ->
  ds <> [] ->
  Forall (fun d => labels d = result_labels) ds ->
  exists all kept,
    aggregate frames w
    = (Ok (S (S (length (heap w)))),
       with_heap (heap w ++ [all; kept; aggregated ds]) w).
Proof.
  intros Hload Hne Hall. unfold aggregate.
  rewrite (bind_ok _ _ _ _ _ (load_all_ok _ _ _ Hload)).
  rewrite (concat_result_tables ds Hne Hall).
  erewrite bind_ok; [|reflexivity].
  erewrite bind_ok; [|reflexivity].
  set (P := flat_map (column "player") ds).
  set (T := flat_map (column "team") ds).
  set (Q := flat_map (column "proj_pts") ds).
  set (Sp := flat_map (column "pos") ds).
  erewrite bind_ok; [|eapply get_column_ok; [cbn [heap with_heap]; apply lookup_fresh|reflexivity]].
  erewrite bind_ok; [|eapply load_ok; cbn [heap with_heap]; apply lookup_fresh].
  erewrite bind_ok; [|reflexivity].
  cbn [heap with_heap]. rewrite length_app. cbn [length]. rewrite Nat.add_1_r.
  rewrite <- app_assoc. cbn [app].
  erewrite bind_ok; [|eapply load_ok; cbn [heap with_heap]; apply lookup_fresh2].
  unfold filter_rows, result_frame. cbn [map fst snd].
  erewrite bind_ok; [|reflexivity].
  cbn [heap with_heap]. rewrite length_app. cbn [length].
  replace (length (heap w) + 2)%nat with (S (S (length (heap w)))) by lia.
  rewrite <- app_assoc. cbn [app].
  erewrite bind_ok;
    [|eapply get_column_ok; [cbn [heap with_heap]; apply lookup_fresh3|reflexivity]].
  erewrite bind_ok; [|eapply modify_ok; cbn [heap with_heap]; apply lookup_fresh3].
  cbn [heap with_heap]. unfold ret.
  exists (result_frame P T Q Sp),
         (result_frame (keep (map (cell_isin positions) Sp) P)
                       (keep (map (cell_isin positions) Sp) T)
                       (keep (map (cell_isin positions) Sp) Q)
                       (keep (map (cell_isin positions) Sp) Sp)).
  unfold with_heap. cbn [replies requested slept clock]. do 2 f_equal.
  rewrite insert_app_r_alt by lia.
  by replace (S (S (length (heap w))) - length (heap w))%nat with 2%nat by lia.
Qed.

Lemma keep_all_true (m : list bool) (col : Series) :
  Forall (fun b => b = true) m -> (length col <= length m)%nat -> keep m col = col.
Proof.
  intros Hm. revert col. induction Hm as [|b m -> _ IH]; intros [|c col]; simpl; try done.
  - lia.
  - intros Hlen. rewrite IH; [done|lia].
Qed.

Lemma to_numeric_floats (col : Series) :
  Forall (fun c => is_float c = true) col -> to_numeric col = col.
Proof.
  unfold to_numeric. induction 1 as [|c col Hc _ IH]; simpl; [done|].
  rewrite IH. by destruct c.
Qed.

Lemma tagged_table_columns d :
  tagged_table d ->
  labels d = result_labels
  /\ length (column "player" d) = length (column "pos" d)
  /\ length (column "team" d) = length (column "pos" d)
  /\ length (column "proj_pts" d) = length (column "pos" d)
  /\ Forall (fun c => cell_isin positions c = true) (column "pos" d)
  /\ Forall (fun c => is_float c = true) (column "proj_pts" d).
Proof.
  intros (pos & P & T & Q & -> & Hpos & HT & HQ & HF).
  change (column "pos" (result_frame P T Q (repeat (CStr pos) (length P))))
    with (repeat (CStr pos) (length P)).
  change (column "player" (result_frame P T Q (repeat (CStr pos) (length P)))) with P.
  change (column "team" (result_frame P T Q (repeat (CStr pos) (length P)))) with T.
  change (column "proj_pts" (result_frame P T Q (repeat (CStr pos) (length P)))) with Q.
  rewrite repeat_length. repeat split; try done.
  apply Forall_forall. intros c Hc%list_elem_of_In%repeat_spec. subst c.
  unfold cell_isin. apply existsb_exists. exists pos. split; [done|apply String.eqb_refl].
Qed.

Lemma flat_map_length_eq (f g : DataFrame -> Series) ds :
  Forall (fun d => length (f d) = length (g d)) ds ->
  length (flat_map f ds) = length (flat_map g ds).
Proof.
  induction 1 as [|d ds Hd _ IH]; simpl; [done|].
  by rewrite !length_app, Hd, IH.
Qed.

Lemma flat_map_Forall (P : cell -> Prop) (f : DataFrame -> Series) ds :
  Forall (fun d => Forall P (f d)) ds -> Forall P (flat_map f ds).
Proof.
  induction 1 as [|d ds Hd _ IH]; simpl; [constructor|].
  apply Forall_app. by split.
Qed.

(** The aggregate of tagged tables is their plain concatenation. *)
Lemma aggregated_tagged ds :
  Forall tagged_table ds ->
  aggregated ds
  = result_frame (flat_map (column "player") ds) (flat_map (column "team") ds)
                 (flat_map (column "proj_pts") ds) (flat_map (column "pos") ds).
Proof.
  intros Hall. unfold aggregated.
  assert (Hcols : Forall (fun d =>
            length (column "player" d) = length (column "pos" d)
            /\ length (column "team" d) = length (column "pos" d)
            /\ length (column "proj_pts" d) = length (column "pos" d)
            /\ Forall (fun c => cell_isin positions c = true) (column "pos" d)
            /\ Forall (fun c => is_float c = true) (column "proj_pts" d)) ds).
  { eapply Forall_impl; [exact Hall|]. intros d Hd.
    by apply tagged_table_columns in Hd as (_ & ? & ? & ? & ? & ?). }
  assert (Hmask : Forall (fun b => b = true)
                    (map (cell_isin positions) (flat_map (column "pos") ds))).
  { apply Forall_fmap. apply flat_map_Forall.
    eapply Forall_impl; [exact Hcols|]. by intros d (_ & _ & _ & ? & _). }
  assert (Hfloat : Forall (fun c => is_float c = true) (flat_map (column "proj_pts") ds)).
  { apply flat_map_Forall.
    eapply Forall_impl; [exact Hcols|]. by intros d (_ & _ & _ & _ & ?). }
  cbv zeta.
  rewrite !keep_all_true; try done; try (rewrite length_map; try done).
  - by rewrite to_numeric_floats.
  - rewrite (flat_map_length_eq (column "proj_pts") (column "pos")); [done|].
    eapply Forall_impl; [exact Hcols|]. by intros d (_ & _ & ? & _).
  - rewrite (flat_map_length_eq (column "team") (column "pos")); [done|].
    eapply Forall_impl; [exact Hcols|]. by intros d (_ & ? & _).
  - rewrite (flat_map_length_eq (column "player") (column "pos")); [done|].
    eapply Forall_impl; [exact Hcols|]. by intros d (? & _).
Qed.

Lemma fetch_all_cons url pos specs weeks w frames w' :
  fetch_all ((url, pos) :: specs) weeks w = (Ok frames, w') ->
  exists r w1 rs,
    fetch_position url pos weeks 2 1.5 w = (Ok r, w1)
    /\ fetch_all specs weeks w1 = (Ok rs, w')
    /\ frames = r :: rs.
Proof.
  cbn [fetch_all]. intros (r & w1 & Hr & Hk)%bind_inv_ok.
  apply bind_inv_ok in Hk as (rs & w2 & Hrs & Hret).
  injection Hret as <- <-. by exists r, w1, rs.
Qed.

(** C7. The frame [main] writes is made by [aggregate] from the tables of
    the positions: column by column their concatenation in the order of the
    list, restricted to the rows whose [pos] is QB, RB, WR or TE, with the
    columns player, team, proj_pts, pos in that order ([aggregated]). For
    tables tagged with one of the four labels the restriction drops nothing
    and the result is the plain concatenation. The list holds the tables
    that [fetch_position] returned for QB, RB, WR and TE, in that order. *)
Theorem aggregate_concatenates_in_order :
  (forall w frames ds,
      Forall2 (fun r d => heap w !! r = Some d) frames ds ->
      ds <> [] ->
      Forall (fun d => labels d = result_labels) ds ->
      exists out w',
        aggregate frames w = (Ok out, w')
        /\ heap w' !! out = Some (aggregated ds)
        /\ labels (aggregated ds) = result_labels)
  /\ (forall ds,
        Forall tagged_table ds ->
        aggregated ds
        = result_frame (flat_map (column "player") ds) (flat_map (column "team") ds)
                       (flat_map (column "proj_pts") ds) (flat_map (column "pos") ds))
  /\ (forall weeks w frames w',
        fetch_all URLS weeks w = (Ok frames, w') ->
        exists qb w1 rb w2 wr w3 te,
          frames = [qb; rb; wr; te]
          /\ fetch_position "https://www.fantasypros.com/nfl/projections/qb.php?week=draft"
               "QB" weeks 2 1.5 w = (Ok qb, w1)
          /\ fetch_position
               "https://www.fantasypros.com/nfl/projections/rb.php?week=draft&scoring=HALF&week=draft"
               "RB" weeks 2 1.5 w1 = (Ok rb, w2)
          /\ fetch_position
               "https://www.fantasypros.com/nfl/projections/wr.php?week=draft&scoring=HALF&week=draft"
               "WR" weeks 2 1.5 w2 = (Ok wr, w3)
          /\ fetch_position
               "https://www.fantasypros.com/nfl/projections/te.php?week=draft&scoring=HALF&week=draft"
               "TE" weeks 2 1.5 w3 = (Ok te, w')
          /\ main weeks w = aggregate frames w').
Proof.
  split; [|split; [exact aggregated_tagged|]].
  - intros w frames ds Hload Hne Hall.
    destruct (aggregate_run frames ds w Hload Hne Hall) as (all & kept & ->).
    eexists _, _. split; [reflexivity|]. split; [|reflexivity].
    cbn [heap with_heap]. apply lookup_fresh3.
  - intros weeks w frames w' Hall. unfold main. rewrite (bind_ok _ _ _ _ _ Hall).
    unfold URLS in Hall.
    apply fetch_all_cons in Hall as (qb & w1 & rs1 & Hqb & Hall & ->).
    apply fetch_all_cons in Hall as (rb & w2 & rs2 & Hrb & Hall & ->).
    apply fetch_all_cons in Hall as (wr & w3 & rs3 & Hwr & Hall & ->).
    apply fetch_all_cons in Hall as (te & w4 & rs4 & Hte & Hall & ->).
    injection Hall as <- <-.
    by exists qb, w1, rb, w2, wr, w3, te.
Qed.

End Aggregate.

(** C7, witness: two tables, of two rows and of one row, one row with a
    label that is no position. *)
Lemma aggregate_witness :
  labels qb_table = result_labels
  /\ forall L : Libs,
       exists out w',
         aggregate [0%nat; 1%nat] (mkWorld [qb_table; rb_table] [] [] [] steady) = (Ok out, w')
         /\ heap w' !! out
            = Some (result_frame [CStr "A"; CStr "C"] [CStr "BUF"; CStr "SF"]
                                 [CFloat 20; CFloat 12] [CStr "QB"; CStr "RB"]).
Proof.
  split; [reflexivity|]. intros L.
  destruct (proj1 aggregate_concatenates_in_order (mkWorld [qb_table; rb_table] [] [] [] steady)
              [0%nat; 1%nat] [qb_table; rb_table])
    as (out & w' & Hrun & Hout & _).
  - repeat constructor.
  - done.
  - repeat constructor.
  - exists out, w'. split; [exact Hrun|]. rewrite Hout. reflexivity.
Defined.

(* ================================================================= *)
(** ** Further properties of the pipeline *)

(** *** Text *)

Lemma is_space_lower_char c : is_space (lower_char c) = is_space c.
Proof. by destruct c as [[] [] [] [] [] [] [] []]. Qed.

Lemma lower_char_twice c : lower_char (lower_char c) = lower_char c.
Proof. by destruct c as [[] [] [] [] [] [] [] []]. Qed.

Lemma lower_twice s : lower (lower s) = lower s.
Proof. induction s as [|c s IH]; [done|]. simpl. by rewrite lower_char_twice, IH. Qed.

Lemma lstrip_lower s : lstrip (lower s) = lower (lstrip s).
Proof.
  induction s as [|c s IH]; [done|]. unfold lstrip in *. simpl.
  rewrite is_space_lower_char. by destruct (is_space c).
Qed.

Lemma rstrip_lower s : rstrip (lower s) = lower (rstrip s).
Proof.
  induction s as [|c s IH]; [done|]. unfold rstrip in *. simpl. rewrite IH.
  destruct (rstrip_with is_space s) as [|a r]; simpl; [|done].
  rewrite is_space_lower_char. by destruct (is_space c).
Qed.

Lemma strip_lower s : strip (lower s) = lower (strip s).
Proof. unfold strip. by rewrite lstrip_lower, rstrip_lower. Qed.

Lemma rstrip_twice s : rstrip (rstrip s) = rstrip s.
Proof.
  induction s as [|c s IH]; [done|]. unfold rstrip in *. simpl.
  destruct (rstrip_with is_space s) as [|a r] eqn:E.
  - destruct (is_space c) eqn:Ec; [done|]. simpl. by rewrite Ec.
  - simpl in *. by rewrite IH.
Qed.

Lemma trimmed_head_lstrip s : trimmed_head (lstrip s) = true.
Proof.
  induction s as [|c s IH]; [done|]. unfold lstrip in *. simpl.
  destruct (is_space c) eqn:E; [done|]. simpl. by rewrite E.
Qed.

Lemma trimmed_head_rstrip s : trimmed_head s = true -> trimmed_head (rstrip s) = true.
Proof.
  destruct s as [|c s]; [done|]. unfold rstrip.
  cbn [trimmed_head rstrip_with]. intros Hc.
  destruct (rstrip_with is_space s); [|done].
  destruct (is_space c) eqn:E; [done|]. cbn [trimmed_head]. by rewrite E.
Qed.

Lemma lstrip_trimmed_head s : trimmed_head s = true -> lstrip s = s.
Proof. destruct s as [|c s]; [done|]. unfold lstrip. simpl. by destruct (is_space c). Qed.

Lemma strip_twice s : strip (strip s) = strip s.
Proof.
  unfold strip.
  rewrite (lstrip_trimmed_head (rstrip (lstrip s)))
    by apply trimmed_head_rstrip, trimmed_head_lstrip.
  apply rstrip_twice.
Qed.

Lemma tidy_lower_strip s : tidy_label (LAtom (AStr (lower (strip s)))).
Proof.
  exists (lower (strip s)). split; [done|]. split.
  - by rewrite strip_lower, strip_twice.
  - apply lower_twice.
Qed.

(** *** [clean_columns] *)

Section Cleaning.
Context `{Libs}.

Lemma normalize_labels_inv ls new :
  normalize_labels ls = Ok new ->
  length new = length ls /\ Forall tidy_label new /\ forallb is_text_label ls = true.
Proof.
  revert new. induction ls as [|l ls IH]; intros new; simpl.
  - intros [= <-]. by repeat split.
  - destruct l as [[s|z]|outer inner]; simpl; try done.
    destruct (normalize_labels ls) as [new'|e]; [|done].
    intros [= <-]. destruct (IH new' eq_refl) as (Hlen & Ht & Hx).
    repeat split; simpl; [by rewrite Hlen| |done].
    constructor; [apply tidy_lower_strip|done].
Qed.

Lemma normalize_labels_text ls :
  forallb is_text_label ls = true -> exists new, normalize_labels ls = Ok new.
Proof.
  induction ls as [|l ls IH]; simpl; [by eexists|].
  destruct l as [[s|z]|outer inner]; simpl; try done.
  intros (new & ->)%IH. by eexists.
Qed.

Lemma normalize_labels_other ls :
  forallb is_text_label ls = false ->
  exists e, normalize_labels ls = Raise e /\ exn_kind_of e = AttributeError.
Proof.
  induction ls as [|l ls IH]; simpl; [done|].
  destruct l as [[s|z]|outer inner]; simpl; try by eexists.
  intros (e & -> & He)%IH. by eexists.
Qed.

Lemma normalize_labels_tidy ls :
  Forall tidy_label ls -> normalize_labels ls = Ok ls.
Proof.
  induction 1 as [|l ls (s & -> & Hs & Hl) _ IH]; [done|].
  simpl. by rewrite IH, Hs, Hl.
Qed.

Lemma set_columns_labels new d :
  length new = length d -> labels (set_columns new d) = new.
Proof.
  unfold labels, set_columns. rewrite map_map. simpl.
  revert d. induction new as [|l new IH]; intros [|lc d]; simpl; try done.
  intros [= Hlen]. by rewrite IH.
Qed.

Lemma set_columns_cells new d :
  length new = length d -> map snd (set_columns new d) = map snd d.
Proof.
  unfold set_columns. rewrite map_map. simpl.
  revert d. induction new as [|l new IH]; intros [|lc d]; simpl; try done.
  intros [= Hlen]. by rewrite IH.
Qed.

Lemma set_columns_same d : set_columns (labels d) d = d.
Proof.
  unfold set_columns, labels. induction d as [|[l c] d IH]; [done|].
  simpl. by rewrite IH.
Qed.

Lemma flattened_cells d : map snd (flattened d) = map snd d.
Proof.
  unfold flattened. destruct (is_multiindex d); [|done].
  apply set_columns_cells. unfold labels. by rewrite !length_map.
Qed.

Lemma flattened_length d : length (flattened d) = length d.
Proof. by rewrite <- (length_map snd), flattened_cells, length_map. Qed.

Lemma flatten_label_text ls : forallb is_text_label (map flatten_label ls) = true.
Proof. induction ls as [|[a|o i] ls IH]; simpl; done. Qed.

Lemma flattened_text d :
  is_multiindex d = true \/ forallb is_text_label (labels d) = true ->
  forallb is_text_label (labels (flattened d)) = true.
Proof.
  unfold flattened. destruct (is_multiindex d) eqn:Em.
  - intros _. rewrite set_columns_labels; [apply flatten_label_text|].
    unfold labels. by rewrite !length_map.
  - by intros [|].
Qed.

Lemma tidy_not_multiindex d : Forall tidy_label (labels d) -> is_multiindex d = false.
Proof.
  destruct d as [|[l c] d]; [done|]. simpl.
  intros [(s & -> & _) _]%Forall_cons. done.
Qed.

Lemma cleaned_inv d d1 :
  cleaned d = Ok d1 ->
  map snd d1 = map snd d /\ Forall tidy_label (labels d1)
  /\ (is_multiindex d = true \/ forallb is_text_label (labels d) = true).
Proof.
  unfold cleaned.
  destruct (normalize_labels (labels (flattened d))) as [new|e] eqn:En; [|done].
  intros [= <-]. apply normalize_labels_inv in En as (Hlen & Ht & Hx).
  assert (length new = length (flattened d)) as Hl
    by (rewrite Hlen; unfold labels; apply length_map).
  split; [by rewrite set_columns_cells, flattened_cells|].
  split; [by rewrite set_columns_labels|].
  unfold flattened in Hx. destruct (is_multiindex d); auto.
Qed.

Lemma cleaned_tidy d : Forall tidy_label (labels d) -> cleaned d = Ok d.
Proof.
  intros Ht. unfold cleaned, flattened. rewrite (tidy_not_multiindex d Ht).
  by rewrite (normalize_labels_tidy _ Ht), set_columns_same.
Qed.

(** X6. [clean_columns] returns the object it was given, relabelled in place:
    where the labels are text, or all of them tuples, it succeeds; the
    cells are untouched, and every label is left as text with no white
    space around it and no upper-case letter. *)
Theorem clean_columns_relabels_in_place r w d :
  heap w !! r = Some d ->
  is_multiindex d = true \/ forallb is_text_label (labels d) = true ->
  exists d1,
    clean_columns r w = (Ok r, with_heap (<[r := d1]> (heap w)) w)
    /\ map snd d1 = map snd d
    /\ Forall tidy_label (labels d1).
Proof.
  intros Hr Hl. rewrite (clean_columns_run r w d Hr).
  destruct (normalize_labels_text _ (flattened_text d Hl)) as (new & Hn).
  destruct (cleaned d) as [d1|e] eqn:Ec.
  - exists d1. split; [done|]. by destruct (cleaned_inv d d1 Ec) as (? & ? & _).
  - unfold cleaned in Ec. by rewrite Hn in Ec.
Qed.

(** X7. A frame with a label that is no text (the integer labels of a table
    read without a header row, or a tuple among other labels) makes
    [clean_columns] raise AttributeError, and is left as it was. *)
Theorem clean_columns_rejects_other_labels r w d :
  heap w !! r = Some d ->
  is_multiindex d = false ->
  forallb is_text_label (labels d) = false ->
  exists e, clean_columns r w = (Raise e, w) /\ exn_kind_of e = AttributeError.
Proof.
  intros Hr Hm Hl. rewrite (clean_columns_run r w d Hr).
  unfold cleaned, flattened. rewrite Hm.
  destruct (normalize_labels_other _ Hl) as (e & -> & He).
  exists e. split; [|done]. by rewrite list_insert_id, with_heap_same.
Qed.

(** X8. [clean_columns] is idempotent: on the object it returned, a second call
    changes nothing. *)
Theorem clean_columns_twice r w r' w' :
  clean_columns r w = (Ok r', w') -> clean_columns r' w' = (Ok r', w').
Proof.
  intros Hrun. destruct (heap w !! r) as [d|] eqn:Hr.
  2: { unfold clean_columns, bind, load in Hrun. by rewrite Hr in Hrun. }
  rewrite (clean_columns_run r w d Hr) in Hrun.
  destruct (cleaned d) as [d1|e] eqn:Ec; [|done]. injection Hrun as <- <-.
  destruct (cleaned_inv d d1 Ec) as (_ & Ht & _).
  assert (heap (with_heap (<[r:=d1]> (heap w)) w) !! r = Some d1) as Hr1.
  { cbn [heap with_heap]. by eapply lookup_updated. }
  rewrite (clean_columns_run _ _ _ Hr1), (cleaned_tidy d1 Ht).
  cbn [heap with_heap]. by rewrite list_insert_insert_eq, with_heap_twice.
Qed.

End Cleaning.

(** *** [locate_projection_table] *)

Section Locating.
Context `{Libs}.

Lemma locate_step t tables w d :
  heap w !! t = Some d ->
  locate_projection_table (t :: tables) w =
    match cleaned d with
    | Raise e => (Raise e, with_heap (heap w ++ [flattened d]) w)
    | Ok d1 =>
        if accepted d1
        then (Ok (Some (length (heap w))), with_heap (heap w ++ [d1]) w)
        else locate_projection_table tables (with_heap (heap w ++ [d1]) w)
    end.
Proof.
  intros Ht. cbn [locate_projection_table].
  rewrite (bind_ok _ _ _ _ _ (load_ok _ _ _ Ht)).
  erewrite bind_ok; [|reflexivity].
  assert (heap (with_heap (heap w ++ [d]) w) !! length (heap w) = Some d) as Hc
    by apply lookup_fresh.
  pose proof (clean_columns_run _ _ _ Hc) as Hrun.
  cbn [heap with_heap] in Hrun.
  destruct (cleaned d) as [d1|e]; rewrite insert_fresh, with_heap_twice in Hrun.
  - rewrite (bind_ok _ _ _ _ _ Hrun).
    erewrite bind_ok; [|apply load_ok; apply lookup_fresh].
    fold (accepted d1). by destruct (accepted d1).
  - by rewrite (bind_raise _ _ _ _ _ Hrun).
Qed.

Lemma locate_dangling t tables w :
  heap w !! t = None -> locate_projection_table (t :: tables) w = (Raise dangling, w).
Proof. intros Ht. cbn [locate_projection_table]. unfold bind, load. by rewrite Ht. Qed.

(** X9. [locate_projection_table] works on copies: whatever it returns or
    raises, the objects that existed before the call are unchanged (the
    store only grows), nothing is requested and nothing slept, and a table
    it returns is a new object. *)
Theorem locate_keeps_its_tables tables w res w' :
  locate_projection_table tables w = (res, w') ->
  (exists new, heap w' = heap w ++ new)
  /\ replies w' = replies w /\ requested w' = requested w /\ slept w' = slept w
  /\ forall df, res = Ok (Some df) ->
       (length (heap w) <= df)%nat /\ (df < length (heap w'))%nat.
Proof.
  revert w. induction tables as [|t tables IH]; intros w.
  - intros [= <- <-]. split; [exists []; by rewrite app_nil_r|]. by repeat split.
  - destruct (heap w !! t) as [d|] eqn:Ht.
    2: { rewrite (locate_dangling _ _ _ Ht). intros [= <- <-].
         split; [exists []; by rewrite app_nil_r|]. by repeat split. }
    rewrite (locate_step _ _ _ _ Ht). destruct (cleaned d) as [d1|e].
    + destruct (accepted d1).
      * intros [= <- <-]. split; [by eexists|]. do 3 (split; [done|]).
        intros df [= <-]. cbn [heap with_heap]. rewrite length_app. simpl. lia.
      * intros Hrun. apply IH in Hrun as ((new & Hh) & Hq & Hreq & Hs & Hdf).
        cbn [heap with_heap replies requested slept] in *.
        split; [exists (d1 :: new); by rewrite Hh, <- app_assoc|].
        do 3 (split; [done|]).
        intros df Hres. apply Hdf in Hres. rewrite length_app in Hres.
        simpl in Hres. lia.
    + intros [= <- <-]. split; [by eexists|]. by repeat split.
Qed.

Lemma locate_some tables w df w' :
  Forall (fun t => (t < length (heap w))%nat) tables ->
  locate_projection_table tables w = (Ok (Some df), w') ->
  exists i t d d1,
    tables !! i = Some t /\ heap w !! t = Some d
    /\ cleaned d = Ok d1 /\ accepted d1 = true
    /\ heap w' !! df = Some d1
    /\ forall j t', (j < i)%nat -> tables !! j = Some t' ->
         exists d' d1', heap w !! t' = Some d' /\ cleaned d' = Ok d1'
                        /\ accepted d1' = false.
Proof.
  revert w. induction tables as [|t tables IH]; intros w Hvalid; [done|].
  apply Forall_cons in Hvalid as [Hlt Hvalid].
  destruct (lookup_lt_is_Some_2 _ _ Hlt) as [d Ht].
  rewrite (locate_step _ _ _ _ Ht). destruct (cleaned d) as [d1|e] eqn:Ec; [|done].
  destruct (accepted d1) eqn:Ea.
  - intros [= <- <-]. exists 0%nat, t, d, d1. repeat split; try done.
    + apply lookup_fresh.
    + intros j t' Hj. lia.
  - intros Hrun.
    assert (forall t', In t' tables ->
              heap (with_heap (heap w ++ [d1]) w) !! t' = heap w !! t') as Hold.
    { intros t' Hin. cbn [heap with_heap]. apply lookup_app_l.
      by eapply List.Forall_forall in Hvalid. }
    apply IH in Hrun.
    2: { eapply Forall_impl; [exact Hvalid|]. intros t' Ht'. cbn [heap with_heap].
         rewrite length_app. simpl in *. lia. }
    destruct Hrun as (i & t0 & d0 & d01 & Hi & Ht0 & Hc0 & Ha0 & Hdf & Hbefore).
    exists (S i), t0, d0, d01. split; [done|].
    split.
    { rewrite <- (Hold t0); [exact Ht0|].
      apply list_elem_of_In. eapply list_elem_of_lookup_2. exact Hi. }
    repeat split; try done.
    intros [|j] t' Hj; simpl.
    + intros [= <-]. by exists d, d1.
    + intros Hj'. destruct (Hbefore j t' ltac:(lia) Hj') as (d' & d1' & Hd' & Hrest).
      exists d', d1'. split; [|done].
      rewrite <- (Hold t'); [exact Hd'|].
      apply list_elem_of_In. eapply list_elem_of_lookup_2. exact Hj'.
Qed.

Lemma locate_none tables w w' :
  Forall (fun t => (t < length (heap w))%nat) tables ->
  locate_projection_table tables w = (Ok None, w') ->
  forall t, In t tables ->
    exists d d1, heap w !! t = Some d /\ cleaned d = Ok d1 /\ accepted d1 = false.
Proof.
  revert w. induction tables as [|t tables IH]; intros w Hvalid; [by intros _ t []|].
  apply Forall_cons in Hvalid as [Hlt Hvalid].
  destruct (lookup_lt_is_Some_2 _ _ Hlt) as [d Ht].
  rewrite (locate_step _ _ _ _ Ht). destruct (cleaned d) as [d1|e] eqn:Ec; [|done].
  destruct (accepted d1) eqn:Ea; [done|].
  intros Hrun t' [<-|Hin]; [by exists d, d1|].
  assert (Forall (fun t => (t < length (heap (with_heap (heap w ++ [d1]) w)))%nat) tables)
    as Hvalid'.
  { eapply Forall_impl; [exact Hvalid|]. intros t0 Ht0. cbn [heap with_heap].
    rewrite length_app. simpl in *. lia. }
  destruct (IH _ Hvalid' Hrun t' Hin) as (d' & d1' & Hd' & Hrest).
  exists d', d1'. split; [|done]. cbn [heap with_heap] in Hd'.
  rewrite lookup_app_l in Hd'; [done|]. by eapply List.Forall_forall in Hvalid.
Qed.

(** X10. The table [locate_projection_table] returns is the normalised copy of
    the first table that, once normalised, has a player column and one of
    the points aliases; every table before it was normalised and refused.
    It returns [None] when every table is refused. The tables given are
    objects of the store. *)
Theorem locate_returns_first_accepted tables w res w' :
  Forall (fun t => (t < length (heap w))%nat) tables ->
  locate_projection_table tables w = (Ok res, w') ->
  match res with
  | Some df =>
      exists i t d d1,
        tables !! i = Some t /\ heap w !! t = Some d
        /\ cleaned d = Ok d1 /\ accepted d1 = true
        /\ heap w' !! df = Some d1
        /\ forall j t', (j < i)%nat -> tables !! j = Some t' ->
             exists d' d1', heap w !! t' = Some d' /\ cleaned d' = Ok d1'
                            /\ accepted d1' = false
  | None =>
      forall t, In t tables ->
        exists d d1, heap w !! t = Some d /\ cleaned d = Ok d1 /\ accepted d1 = false
  end.
Proof.
  intros Hvalid Hrun. destruct res as [df|].
  - by eapply locate_some.
  - by eapply locate_none.
Qed.

(** X11. A table whose labels are not text, standing before the projection
    table, is not skipped: [locate_projection_table] raises the
    AttributeError of [clean_columns], whatever tables follow. *)
Theorem locate_raises_at_unlabelled_table t tables w d :
  heap w !! t = Some d ->
  is_multiindex d = false ->
  forallb is_text_label (labels d) = false ->
  exists e w',
    locate_projection_table (t :: tables) w = (Raise e, w')
    /\ exn_kind_of e = AttributeError.
Proof.
  intros Ht Hm Hl. rewrite (locate_step _ _ _ _ Ht).
  unfold cleaned, flattened. rewrite Hm.
  destruct (normalize_labels_other _ Hl) as (e & -> & He). by eexists _, _.
Qed.

End Locating.

(** *** Requests *)

Lemma offline_ret {A} (a : A) : offline (ret a).
Proof. by intros w. Qed.

Lemma offline_raise {A} e : offline (@raise A e).
Proof. by intros w. Qed.

Lemma offline_lift {A} (r : result A) : offline (lift r).
Proof. by destruct r. Qed.

Lemma offline_bind {A B} (m : M A) (k : A -> M B) :
  offline m -> (forall a, offline (k a)) -> offline (bind m k).
Proof.
  intros Hm Hk w. unfold bind. specialize (Hm w).
  destruct (m w) as [[a|e] w1]; simpl in *; [|done].
  destruct (Hk a w1) as [-> ->]. done.
Qed.

Lemma offline_alloc d : offline (alloc d).
Proof. by intros w. Qed.

Lemma offline_load r : offline (load r).
Proof. intros w. unfold load. by destruct (heap w !! r). Qed.

Lemma offline_modify r f : offline (modify r f).
Proof. intros w. unfold modify. by destruct (heap w !! r). Qed.

Lemma offline_sleep_pow b i : offline (sleep_pow b i).
Proof. intros w. unfold sleep_pow. by destruct (clock w b i). Qed.

Create HintDb offline discriminated.

#[export] Hint Resolve offline_ret offline_raise offline_lift offline_alloc offline_load
  offline_modify offline_sleep_pow : offline.

Ltac offline_step :=
  lazymatch goal with
  | |- offline (bind _ _) => apply offline_bind; [|intros ?]
  | |- offline (match ?x with _ => _ end) => destruct x
  | |- offline (let _ := _ in _) => cbv zeta
  | |- offline _ => solve [auto with offline nocore]
  end.

Ltac offline_auto := repeat offline_step.

Lemma offline_get_column r name : offline (get_column r name).
Proof. unfold get_column. offline_auto. Qed.

Lemma offline_raise_for_status resp : offline (raise_for_status resp).
Proof. unfold raise_for_status. offline_auto. Qed.

Lemma offline_alloc_all dfs : offline (alloc_all dfs).
Proof. induction dfs; simpl; offline_auto. Qed.

Lemma offline_load_all rs : offline (load_all rs).
Proof. induction rs; simpl; offline_auto. Qed.

#[export] Hint Resolve offline_get_column offline_raise_for_status offline_alloc_all
  offline_load_all : offline.

Lemma asked_refl w n P : asked w w n P.
Proof. exists []. rewrite app_nil_r. repeat split; [simpl; lia|constructor]. Qed.

Lemma asked_trans w w1 w2 n m P :
  asked w w1 n P -> asked w1 w2 m P -> asked w w2 (n + m) P.
Proof.
  intros (l1 & H1 & Hn & Hp) (l2 & H2 & Hm & Hq). exists (l1 ++ l2).
  rewrite H2, H1, <- app_assoc. split; [done|]. split.
  - rewrite length_app. lia.
  - by apply Forall_app.
Qed.

Lemma asked_weaken w w' n m P : asked w w' n P -> (n <= m)%nat -> asked w w' m P.
Proof. intros (l & H1 & Hn & Hp) Hle. exists l. repeat split; [done|lia|done]. Qed.

Lemma offline_asked {A} (m : M A) w n P : offline m -> asked w (snd (m w)) n P.
Proof.
  intros Ho. exists []. rewrite app_nil_r. destruct (Ho w) as [-> _].
  repeat split; [simpl; lia|constructor].
Qed.

Lemma napped_refl w n P : napped w w n P.
Proof. exists []. rewrite app_nil_r. repeat split; [simpl; lia|constructor]. Qed.

Lemma napped_trans w w1 w2 n m P :
  napped w w1 n P -> napped w1 w2 m P -> napped w w2 (n + m) P.
Proof.
  intros (l1 & H1 & Hn & Hp) (l2 & H2 & Hm & Hq). exists (l1 ++ l2).
  rewrite H2, H1, <- app_assoc. split; [done|]. split.
  - rewrite length_app. lia.
  - by apply Forall_app.
Qed.

Lemma napped_weaken w w' n m P : napped w w' n P -> (n <= m)%nat -> napped w w' m P.
Proof. intros (l & H1 & Hn & Hp) Hle. exists l. repeat split; [done|lia|done]. Qed.

Lemma quiet_napped {A} (m : M A) w n P : quiet m -> napped w (snd (m w)) n P.
Proof.
  intros Ho. exists []. rewrite app_nil_r, (Ho w).
  repeat split; [simpl; lia|constructor].
Qed.


Section Fetching.
Context `{Libs}.

Lemma offline_clean_columns r : offline (clean_columns r).
Proof. unfold clean_columns. offline_auto. Qed.

Lemma offline_locate tables : offline (locate_projection_table tables).
Proof.
  pose proof offline_clean_columns.
  induction tables as [|t tables IH]; simpl; offline_auto.
Qed.

Lemma offline_extract r : offline (extract_player_team_fpts r).
Proof. pose proof offline_clean_columns. unfold extract_player_team_fpts. offline_auto. Qed.

Lemma offline_position_table df pos_label weeks :
  offline (position_table df pos_label weeks).
Proof. pose proof offline_extract. unfold position_table. offline_auto. Qed.

Lemma offline_aggregate frames : offline (aggregate frames).
Proof. unfold aggregate. offline_auto. Qed.

Lemma quiet_load_all rs : quiet (load_all rs).
Proof. induction rs; simpl; quiet_auto. Qed.

Lemma quiet_aggregate frames : quiet (aggregate frames).
Proof. pose proof quiet_load_all. unfold aggregate. quiet_auto. Qed.

(** The world after the request that [w] answers with [rest] left. *)
Lemma requests_get_reply url w resp rest :
  replies w = Reply resp :: rest ->
  requests_get url w
  = (Ok resp, mkWorld (heap w) rest (requested w ++ [url]) (slept w) (clock w)).
Proof. intros Hr. unfold requests_get. by rewrite Hr. Qed.



Lemma alloc_all_run tables w :
  alloc_all tables w
  = (Ok (seq (length (heap w)) (length tables)), with_heap (heap w ++ tables) w).
Proof.
  revert w. induction tables as [|d tables IH]; intros w.
  - simpl. unfold ret. by rewrite app_nil_r, with_heap_same.
  - cbn [alloc_all]. erewrite bind_ok; [|reflexivity].
    erewrite bind_ok; [|apply IH]. unfold ret. cbn [heap with_heap length seq].
    rewrite length_app, Nat.add_1_r, with_heap_twice, <- app_assoc. done.
Qed.

(** X12. [fetch_html_table] requests the page itself, once. An error status
    (400 to 599) raises HTTPError before the body is read; a ValueError of
    [read_html] (no table in the page) gives [None]; any other exception
    of [read_html] is raised. In these cases the store is untouched. *)
Theorem fetch_html_table_errors url w resp rest :
  replies w = Reply resp :: rest ->
  let w1 := mkWorld (heap w) rest (requested w ++ [url]) (slept w) (clock w) in
  (400 <= status_code resp < 600 ->
   exists e, fetch_html_table url w = (Raise e, w1) /\ exn_kind_of e = HTTPError)
  /\ (forall e,
        ~ 400 <= status_code resp < 600 ->
        read_html (text resp) = Raise e ->
        fetch_html_table url w = (if is_value_error e then Ok None else Raise e, w1)).
Proof.
  intros Hreply w1. unfold fetch_html_table.
  rewrite (bind_ok _ _ _ _ _ (requests_get_reply url w resp rest Hreply)). fold w1.
  unfold raise_for_status. split.
  - intros Hs. destruct (Z.lt_ge_cases (status_code resp) 500) as [Hlt|Hge].
    + assert ((400 <=? status_code resp) && (status_code resp <? 500) = true) as ->
        by (apply andb_true_intro; split; [apply Z.leb_le|apply Z.ltb_lt]; lia).
      eexists. split; [reflexivity|done].
    + assert ((400 <=? status_code resp) && (status_code resp <? 500) = false) as ->
        by (apply andb_false_iff; right; apply Z.ltb_ge; lia).
      assert ((500 <=? status_code resp) && (status_code resp <? 600) = true) as ->
        by (apply andb_true_intro; split; [apply Z.leb_le|apply Z.ltb_lt]; lia).
      eexists. split; [reflexivity|done].
  - intros e Hs He.
    assert ((400 <=? status_code resp) && (status_code resp <? 500) = false) as ->.
    { apply andb_false_iff. destruct (Z.lt_ge_cases (status_code resp) 400).
      - left. apply Z.leb_gt. lia.
      - right. apply Z.ltb_ge. lia. }
    assert ((500 <=? status_code resp) && (status_code resp <? 600) = false) as ->.
    { apply andb_false_iff. destruct (Z.lt_ge_cases (status_code resp) 500).
      - left. apply Z.leb_gt. lia.
      - right. apply Z.ltb_ge. lia. }
    erewrite bind_ok; [|reflexivity]. rewrite He. by destruct (is_value_error e).
Qed.

(** X13. The table [fetch_html_table] returns is the normalised copy of the
    first table of the page, in the order of [read_html], that has a player
    column and one of the points aliases once normalised; the tables before
    it were normalised and refused. *)
Theorem fetch_html_table_returns_first_accepted url w resp rest df w' :
  replies w = Reply resp :: rest ->
  fetch_html_table url w = (Ok (Some df), w') ->
  exists tables i d d1,
    read_html (text resp) = Ok tables
    /\ tables !! i = Some d /\ cleaned d = Ok d1 /\ accepted d1 = true
    /\ heap w' !! df = Some d1
    /\ forall j d', (j < i)%nat -> tables !! j = Some d' ->
         exists d1', cleaned d' = Ok d1' /\ accepted d1' = false.
Proof.
  intros Hreply. unfold fetch_html_table.
  rewrite (bind_ok _ _ _ _ _ (requests_get_reply url w resp rest Hreply)).
  set (w1 := mkWorld _ _ _ _ _).
  unfold bind at 1. destruct (raise_for_status resp w1) as [[[]|e] w2] eqn:Hs; [|done].
  assert (w2 = w1) as ->.
  { revert Hs. unfold raise_for_status.
    repeat (destruct (_ && _); [done|]). by intros [= <-]. }
  destruct (read_html (text resp)) as [tables|e] eqn:Hr.
  2: { by destruct (is_value_error e). }
  rewrite (bind_ok _ _ _ _ _ (alloc_all_run tables w1)).
  intros Hrun. apply locate_some in Hrun.
  2: { apply List.Forall_forall. intros t Ht%in_seq. cbn [heap with_heap w1].
       rewrite length_app. cbn [heap w1] in Ht. lia. }
  destruct Hrun as (i & t & d & d1 & Hi & Ht & Hc & Ha & Hdf & Hbefore).
  assert (forall j t0, seq (length (heap w)) (length tables) !! j = Some t0 ->
            t0 = (length (heap w) + j)%nat /\ (j < length tables)%nat) as Hseq.
  { intros j t0 Hj. apply lookup_seq in Hj. lia. }
  assert (forall j, (heap w ++ tables) !! (length (heap w) + j)%nat = tables !! j) as Hlook.
  { intros j. rewrite lookup_app_r by lia. f_equal. lia. }
  exists tables, i, d, d1. split; [done|].
  destruct (Hseq _ _ Hi) as [-> Hlt]. cbn [heap with_heap w1] in Ht. rewrite Hlook in Ht.
  repeat split; try done.
  intros j d' Hj Hd'.
  destruct (Hbefore j (length (heap w) + j)%nat Hj) as (d0 & d1' & Hd0 & Hrest).
  { apply lookup_seq. split; [done|]. by eapply lookup_lt_Some. }
  cbn [heap with_heap w1] in Hd0. rewrite Hlook, Hd' in Hd0. injection Hd0 as <-.
  by exists d1'.
Qed.

(** X18. The CSV export is preferred: when it yields a table, that table is what
    [fetch_table] returns, and the page itself is not requested. *)
Theorem csv_export_is_preferred url w r w1 :
  try_fetch_csv url w = (Ok (Some r), w1) ->
  fetch_table url w = (Ok (Some r), w1)
  /\ exists csv_url,
       add_or_update_query url [("csv", Url.QStr "1")] = Ok csv_url
       /\ requested w1 = requested w ++ [csv_url].
Proof.
  intros Hcsv. split.
  { unfold fetch_table. by rewrite (bind_ok _ _ _ _ _ Hcsv). }
  revert Hcsv. unfold try_fetch_csv.
  destruct (add_or_update_query url [("csv", Url.QStr "1")]) as [csv_url|e0]; [|done].
  erewrite bind_ok; [|reflexivity]. intros Hrun. exists csv_url. split; [done|].
  assert (requested (snd (requests_get csv_url w)) = requested w ++ [csv_url]) as Hreq.
  { unfold requests_get. by destruct (replies w) as [|[]]. }
  unfold bind in Hrun.
  destruct (requests_get csv_url w) as [[resp|e1] w2]; cbn [snd] in *; [|done].
  destruct (negb _); [done|].
  destruct (splitlines _) as [|first_line tl]; [done|].
  destruct (negb _); [done|].
  destruct (read_csv _) as [df|]; [|done].
  by injection Hrun as <- <-.
Qed.

End Fetching.

(** *** The cost of a run *)

Section Cost.
Context `{Libs}.

Lemma asked_requests_get url w (P : string -> Prop) :
  P url -> asked w (snd (requests_get url w)) 1 P.
Proof.
  intros Hp. exists [url]. split; [|split; [done|by constructor]].
  unfold requests_get. by destruct (replies w) as [|[]].
Qed.

Lemma asked_bind {A B} (m : M A) (k : A -> M B) w n1 n2 P :
  asked w (snd (m w)) n1 P ->
  (forall a w1, m w = (Ok a, w1) -> asked w1 (snd (k a w1)) n2 P) ->
  asked w (snd (bind m k w)) (n1 + n2) P.
Proof.
  intros Hm Hk. unfold bind. destruct (m w) as [[a|e] w1] eqn:E; cbn [snd] in *.
  - eapply asked_trans; [exact Hm|]. by apply Hk.
  - eapply asked_weaken; [exact Hm|lia].
Qed.

Lemma asked_try_fetch_csv url w :
  asked w (snd (try_fetch_csv url w)) 1 (fun u => In u (targets url)).
Proof.
  unfold try_fetch_csv, targets.
  destruct (add_or_update_query url [("csv", Url.QStr "1")]) as [csv_url|e].
  2: { apply asked_refl. }
  erewrite bind_ok; [|reflexivity].
  apply (asked_bind _ _ _ 1 0).
  { apply asked_requests_get. by left. }
  intros resp w1 _. apply offline_asked. offline_auto.
Qed.

Lemma try_fetch_csv_parsed url w res w' :
  try_fetch_csv url w = (Ok res, w') -> In url (targets url).
Proof.
  unfold try_fetch_csv, targets.
  destruct (add_or_update_query url [("csv", Url.QStr "1")]) as [csv_url|e]; [|done].
  intros _. right. by left.
Qed.

Lemma asked_fetch_table url w :
  asked w (snd (fetch_table url w)) 2 (fun u => In u (targets url)).
Proof.
  unfold fetch_table. apply (asked_bind _ _ _ 1 1); [apply asked_try_fetch_csv|].
  intros [r|] w1 Hcsv.
  - apply asked_refl.
  - unfold fetch_html_table. apply (asked_bind _ _ _ 1 0).
    + apply asked_requests_get. by eapply try_fetch_csv_parsed.
    + intros resp w2 _. apply offline_asked.
      pose proof offline_locate. offline_auto.
Qed.

Lemma asked_attempt url pos_label weeks w :
  asked w (snd (fetch_position_attempt url pos_label weeks w)) 2
        (fun u => In u (targets url)).
Proof.
  unfold fetch_position_attempt.
  apply (asked_bind _ _ _ 2 0); [apply asked_fetch_table|].
  intros df w1 _. apply offline_asked, offline_position_table.
Qed.

Lemma asked_loop url pos_label weeks retries backoff attempts last_err w :
  asked w (snd (fetch_position_loop url pos_label weeks retries backoff attempts last_err w))
        (2 * length attempts) (fun u => In u (targets url)).
Proof.
  revert last_err w. induction attempts as [|a attempts IH]; intros last_err w.
  - simpl. destruct last_err; apply asked_refl.
  - cbn [fetch_position_loop]. unfold try_except.
    pose proof (asked_attempt url pos_label weeks w) as Ha.
    destruct (fetch_position_attempt url pos_label weeks w) as [[v|e] w1]; cbn [snd] in *.
    + eapply asked_weaken; [exact Ha|simpl; lia].
    + destruct (a <? retries).
      * replace (2 * length (a :: attempts))%nat with (2 + (0 + 2 * length attempts))%nat
          by (simpl; lia).
        eapply asked_trans; [exact Ha|].
        apply asked_bind; [apply offline_asked, offline_sleep_pow|].
        intros _ w2 _. apply IH.
      * eapply asked_weaken; [exact Ha|simpl; lia].
Qed.

Lemma napped_bind {A B} (m : M A) (k : A -> M B) w n1 n2 P :
  napped w (snd (m w)) n1 P ->
  (forall a w1, m w = (Ok a, w1) -> napped w1 (snd (k a w1)) n2 P) ->
  napped w (snd (bind m k w)) (n1 + n2) P.
Proof.
  intros Hm Hk. unfold bind. destruct (m w) as [[a|e] w1] eqn:E; cbn [snd] in *.
  - eapply napped_trans; [exact Hm|]. by apply Hk.
  - eapply napped_weaken; [exact Hm|lia].
Qed.

Lemma napped_sleep_pow b i w (P : float * Z -> Prop) :
  P (b, i) -> napped w (snd (sleep_pow b i w)) 1 P.
Proof.
  intros Hp. unfold sleep_pow. destruct (clock w b i); cbn [snd slept].
  - apply napped_refl.
  - exists [(b, i)]. split; [done|]. split; [done|by constructor].
Qed.

Lemma napped_loop url pos_label weeks retries backoff (i n : nat) last_err w :
  Z.of_nat i + Z.of_nat n = retries + 1 ->
  napped w
    (snd (fetch_position_loop url pos_label weeks retries backoff
            (map Z.of_nat (seq i n)) last_err w))
    (n - 1) (fun bi => fst bi = backoff /\ 0 <= snd bi < retries).
Proof.
  revert i last_err w. induction n as [|m IH]; intros i last_err w Hn.
  - simpl. destruct last_err; apply napped_refl.
  - rewrite range_from. cbn [fetch_position_loop]. unfold try_except.
    pose proof (quiet_attempt url pos_label weeks w) as Hq.
    destruct (fetch_position_attempt url pos_label weeks w) as [[v|e] w1]; cbn [snd] in *.
    + exists []. rewrite app_nil_r. repeat split; [done|simpl; lia|constructor].
    + destruct (Z.of_nat i <? retries) eqn:Ei.
      * apply Z.ltb_lt in Ei. destruct m as [|m']; [lia|].
        replace (S (S m') - 1)%nat with (0 + (1 + (S m' - 1)))%nat by lia.
        apply (napped_trans w w1).
        { exists []. rewrite app_nil_r. repeat split; [done|simpl; lia|constructor]. }
        apply napped_bind.
        -- apply napped_sleep_pow. split; [done|simpl; lia].
        -- intros _ w2 _. apply IH. lia.
      * exists []. rewrite app_nil_r. repeat split; [done|simpl; lia|constructor].
Qed.

Lemma asked_fetch_position url pos_label weeks retries backoff w :
  asked w (snd (fetch_position url pos_label weeks retries backoff w))
        (2 * Z.to_nat (retries + 1)) (fun u => In u (targets url)).
Proof.
  unfold fetch_position, range.
  eapply asked_weaken; [apply asked_loop|]. by rewrite length_map, length_seq.
Qed.

Lemma napped_fetch_position url pos_label weeks retries backoff w :
  napped w (snd (fetch_position url pos_label weeks retries backoff w))
         (Z.to_nat retries) (fun bi => fst bi = backoff /\ 0 <= snd bi < retries).
Proof.
  unfold fetch_position, range.
  destruct (Z.lt_ge_cases retries 0) as [Hneg|Hpos].
  - replace (Z.to_nat (retries + 1)) with 0%nat by lia. apply napped_refl.
  - eapply napped_weaken; [apply napped_loop; lia|]. lia.
Qed.

(** X21. Whatever the site answers and however the call ends, [fetch_position]
    makes at most two requests for each of its [retries + 1] attempts, only
    for the CSV export of [url] and for [url] itself, and sleeps at most
    [retries] times, each time [backoff ** i] for an attempt number [i]
    below [retries]. *)
Theorem fetch_position_is_bounded url pos_label weeks retries backoff w :
  let w' := snd (fetch_position url pos_label weeks retries backoff w) in
  asked w w' (2 * Z.to_nat (retries + 1)) (fun u => In u (targets url))
  /\ napped w w' (Z.to_nat retries)
            (fun bi => fst bi = backoff /\ 0 <= snd bi < retries).
Proof.
  cbv zeta. split; [apply asked_fetch_position|apply napped_fetch_position].
Qed.

Lemma cost_fetch_all specs weeks w :
  asked w (snd (fetch_all specs weeks w)) (6 * length specs)
        (fun u => exists up, In up specs /\ In u (targets (fst up)))
  /\ napped w (snd (fetch_all specs weeks w)) (2 * length specs)
            (fun bi => fst bi = 1.5%float /\ 0 <= snd bi < 2).
Proof.
  revert w. induction specs as [|[url pos] specs IH]; intros w.
  - split; [apply asked_refl|apply napped_refl].
  - cbn [fetch_all].
    pose proof (asked_fetch_position url pos weeks 2 1.5 w) as Ha.
    pose proof (napped_fetch_position url pos weeks 2 1.5 w) as Hn. split.
    + replace (6 * length ((url, pos) :: specs))%nat
        with (6 + (6 * length specs + 0))%nat by (simpl; lia).
      apply asked_bind.
      * destruct Ha as (l & Hl & Hlen & Hp). exists l. split; [done|]. split; [exact Hlen|].
        eapply Forall_impl; [exact Hp|]. intros u Hu. exists (url, pos). split; [by left|done].
      * intros df w1 _. apply asked_bind.
        -- destruct (proj1 (IH w1)) as (l & Hl & Hlen & Hp). exists l.
           split; [done|]. split; [done|].
           eapply Forall_impl; [exact Hp|]. intros u (up & Hin & Hu).
           exists up. split; [by right|done].
        -- intros frames w2 _. apply asked_refl.
    + replace (2 * length ((url, pos) :: specs))%nat
        with (2 + (2 * length specs + 0))%nat by (simpl; lia).
      apply napped_bind; [exact Hn|].
      intros df w1 _. apply napped_bind; [apply IH|].
      intros frames w2 _. apply napped_refl.
Qed.

(** X25. However it ends, a run of [main] makes at most 24 requests, each for
    one of the four configured pages or its CSV export, and sleeps at most
    8 times, for [1.5 ** 0] or [1.5 ** 1] seconds. *)
Theorem main_is_bounded weeks w :
  let w' := snd (main weeks w) in
  asked w w' 24 (fun u => exists up, In up URLS /\ In u (targets (fst up)))
  /\ napped w w' 8 (fun bi => fst bi = 1.5%float /\ 0 <= snd bi < 2).
Proof.
  cbv zeta. unfold main. destruct (cost_fetch_all URLS weeks w) as [Ha Hn]. split.
  - change 24%nat with (6 * length URLS + 0)%nat.
    apply asked_bind; [exact Ha|].
    intros frames w1 _. apply offline_asked, offline_aggregate.
  - change 8%nat with (2 * length URLS + 0)%nat.
    apply napped_bind; [exact Hn|].
    intros frames w1 _. apply quiet_napped, quiet_aggregate.
Qed.

Lemma fetch_all_app pre specs weeks w frames w1 :
  fetch_all pre weeks w = (Ok frames, w1) ->
  fetch_all (pre ++ specs) weeks w
  = match fetch_all specs weeks w1 with
    | (Ok rest, w2) => (Ok (frames ++ rest), w2)
    | (Raise e, w2) => (Raise e, w2)
    end.
Proof.
  revert w frames. induction pre as [|[url pos] pre IH]; intros w frames.
  - intros [= <- <-]. simpl. by destruct (fetch_all specs weeks w) as [[]].
  - cbn [fetch_all app]. unfold bind.
    destruct (fetch_position url pos weeks 2 1.5 w) as [[df|e] w0]; [|done].
    destruct (fetch_all pre weeks w0) as [[fs|e] w0'] eqn:Hpre; [|done].
    intros [= <- <-]. rewrite (IH _ _ Hpre).
    by destruct (fetch_all specs weeks w0') as [[]].
Qed.

(** X26. [main] stops at the first position that fails: the exception of
    [fetch_position] for it is the outcome of the run, the positions after
    it are not fetched, and the tables fetched before it are not
    aggregated. *)
Theorem main_stops_at_first_failure weeks w pre url pos post frames w1 e w2 :
  URLS = pre ++ (url, pos) :: post ->
  fetch_all pre weeks w = (Ok frames, w1) ->
  fetch_position url pos weeks 2 1.5 w1 = (Raise e, w2) ->
  main weeks w = (Raise e, w2).
Proof.
  intros Hurls Hpre Hfail. unfold main. rewrite Hurls.
  unfold bind. rewrite (fetch_all_app _ _ _ _ _ _ Hpre).
  cbn [fetch_all]. unfold bind. by rewrite Hfail.
Qed.

End Cost.

(** *** The extractor *)


Lemma keep_nil_r m : keep m [] = [].
Proof. by destruct m. Qed.


Lemma length_keep_all m col :
  (length m <= length col)%nat ->
  length (keep m col) = length (filter (fun b => b = true) m).
Proof.
  revert col. induction m as [|b m IH]; intros [|c col]; simpl; try lia; intros Hlen.
  destruct b.
  - rewrite filter_cons_True by done. simpl. rewrite IH; lia.
  - rewrite filter_cons_False by done. apply IH. lia.
Qed.


Lemma length_row_mask P F : length (row_mask P F) = min (length P) (length F).
Proof. unfold row_mask. by rewrite length_map, length_combine. Qed.



Lemma uniform_setitem n name col d :
  uniform n d -> length col = n -> uniform n (setitem name col d).
Proof.
  unfold uniform. intros Hd Hlen. induction d as [|[l c] d IH]; simpl.
  - by repeat constructor.
  - apply Forall_cons in Hd as [Hc Hd]. destruct (label_eqb name l); simpl.
    + by constructor.
    + constructor; [done|]. by apply IH.
Qed.

Lemma uniform_column n name d :
  uniform n d -> has_column name d = true -> length (column name d) = n.
Proof.
  unfold uniform, column. induction d as [|[l c] d IH]; simpl; [done|].
  intros [Hc Hd]%Forall_cons. destruct (label_eqb name l); simpl; [done|]. by apply IH.
Qed.

Lemma uniform_nrows n d : uniform n d -> d <> [] -> nrows d = n.
Proof. destruct d as [|[l c] d]; [done|]. by intros [Hc _]%Forall_cons. Qed.

Lemma rectangular_uniform d : rectangular d <-> uniform (nrows d) d.
Proof. unfold rectangular, uniform. by rewrite Forall_map. Qed.

Lemma first_present_setitem names b col d :
  ~ In b names -> first_present names (setitem b col d) = first_present names d.
Proof.
  induction names as [|n names IH]; simpl; [done|]. intros Hb.
  rewrite has_column_setitem_ne by (intros ->; apply Hb; by left).
  rewrite IH; [done|]. intros Hin. apply Hb. by right.
Qed.

Section Extracting.
Context `{Libs}.

Lemma astype_str_strip_twice col :
  astype_str_strip (astype_str_strip col) = astype_str_strip col.
Proof.
  unfold astype_str_strip. rewrite map_map. apply map_ext. intros c.
  simpl. by rewrite strip_twice.
Qed.

Lemma to_numeric_twice col : to_numeric (to_numeric col) = to_numeric col.
Proof. unfold to_numeric. rewrite map_map. by apply map_ext. Qed.



Lemma extract_dangling r w :
  heap w !! r = None -> extract_player_team_fpts r w = (Raise dangling, w).
Proof.
  intros Hr. unfold extract_player_team_fpts, clean_columns, bind, load. by rewrite Hr.
Qed.

(** X14. On an object that exists, the extractor raises three errors only: the
    AttributeError of [clean_columns] for a label that is no text, with
    the frame untouched; the ValueError for a missing player column, when
    the normalised frame has neither "player" nor "name"; the ValueError
    for missing season points, when it has none of the five points
    labels. In the last two cases the input frame has been relabelled, and
    in the last its player and team columns have been resolved. The input
    is a frame whose labels are distinct once normalised. *)
Theorem extractor_raises_only r w d e w' :
  heap w !! r = Some d ->
  unambiguous d = true ->
  extract_player_team_fpts r w = (Raise e, w') ->
  (exn_kind_of e = AttributeError /\ w' = w
   /\ is_multiindex d = false /\ forallb is_text_label (labels d) = false)
  \/ (e = missing_player
      /\ exists d1, cleaned d = Ok d1 /\ heap w' !! r = Some d1
                    /\ has_column "player" d1 = false /\ has_column "name" d1 = false)
  \/ (e = missing_fpts
      /\ exists d1 d2, cleaned d = Ok d1 /\ with_player d1 = Ok d2
                       /\ heap w' !! r = Some (with_team d2)
                       /\ Forall (fun c => has_column c (with_team d2) = false)
                                 fpts_candidates).
Proof.
  intros Hr _. rewrite (extract_run r w d Hr).
  destruct (cleaned d) as [d1|e1] eqn:Ec.
  - destruct (with_player d1) as [d2|e2] eqn:Ep.
    + cbv zeta. destruct (first_present fpts_candidates (with_team d2)) as [fc|] eqn:Ef; [done|].
      intros [= <- <-]. right. right. split; [done|]. exists d1, d2.
      split; [done|]. split; [done|].
      split; [cbn [heap with_heap]; by eapply lookup_updated|].
      revert Ef. unfold fpts_candidates. cbn [first_present].
      repeat match goal with
             | |- context [if ?b then _ else _] => destruct b eqn:?; [done|]
             end.
      intros _. repeat (constructor; [done|]). constructor.
    + intros [= <- <-]. right. left. revert Ep. unfold with_player.
      destruct (has_column "player" d1) eqn:E1; [done|].
      destruct (has_column "name" d1) eqn:E2; [done|]. intros [= <-].
      split; [done|]. exists d1. split; [done|].
      split; [cbn [heap with_heap]; by eapply lookup_updated|done].
  - intros [= <- <-]. left. revert Ec. unfold cleaned, flattened.
    destruct (is_multiindex d) eqn:Em.
    + destruct (normalize_labels_text (labels (set_columns (map flatten_label (labels d)) d)))
        as (new & ->); [|done].
      rewrite set_columns_labels; [apply flatten_label_text|].
      unfold labels. by rewrite !length_map.
    + destruct (forallb is_text_label (labels d)) eqn:Et.
      { by destruct (normalize_labels_text _ Et) as (new & ->). }
      destruct (normalize_labels_other _ Et) as (e0 & -> & He). intros [= <-].
      by rewrite list_insert_id, with_heap_same.
Qed.



Lemma kept_cells (A B : Series) :
  let P := astype_str_strip A in
  let F := to_numeric B in
  Forall (fun c => exists s, c = CStr s /\ s <> EmptyString /\ strip s = s)
         (keep (row_mask P F) P)
  /\ Forall (fun c => exists f, c = CFloat f /\ PrimFloat.is_nan f = false)
            (keep (row_mask P F) F).
Proof.
  cbv zeta. revert B. induction A as [|a A IH]; intros [|b B]; simpl; try by split.
  destruct (IH B) as [IHp IHf].
  destruct (strip (py_str a)) as [|c s] eqn:Es; simpl; [done|].
  unfold PyNum.notna. destruct (PrimFloat.is_nan (to_numeric_cell b)) eqn:En; simpl; [done|].
  split; constructor; try done.
  - exists (String c s). split; [done|]. split; [done|]. by rewrite <- Es, strip_twice.
  - by eexists.
Qed.

Lemma astype_str_strip_text col :
  Forall (fun c => exists s, c = CStr s /\ strip s = s) (astype_str_strip col).
Proof.
  apply List.Forall_forall. intros c (x & <- & _)%in_map_iff.
  eexists. split; [done|]. apply strip_twice.
Qed.

Lemma resolved_uniform n d d1 d2 :
  uniform n d -> cleaned d = Ok d1 -> with_player d1 = Ok d2 ->
  uniform n (with_team d2).
Proof.
  intros Hd Hc Hp.
  destruct (cleaned_inv d d1 Hc) as (Hcells & _ & _).
  assert (uniform n d1) as H1 by (unfold uniform; by rewrite Hcells).
  assert (uniform n d2) as H2.
  { revert Hp. unfold with_player. destruct (has_column "player" d1); [by intros [= <-]|].
    destruct (has_column "name" d1) eqn:En; [|done]. intros [= <-].
    apply uniform_setitem; [done|]. by apply uniform_column. }
  pose proof (with_player_has d1 d2 Hp) as Hp2.
  unfold with_team. destruct (first_present ["team"; "tm"] d2) as [tc|] eqn:Et.
  - apply uniform_setitem; [done|]. apply uniform_column; [done|].
    by destruct (first_present_has _ _ _ Et).
  - apply uniform_setitem.
    + apply uniform_setitem; [done|]. rewrite !length_map. by apply uniform_column.
    + rewrite !length_map. by apply uniform_column.
Qed.

Lemma extracted_shape n fc d3 :
  uniform n d3 ->
  has_column "player" d3 = true -> has_column "team" d3 = true ->
  has_column fc d3 = true ->
  let o := extracted fc d3 in
  labels o = [LAtom (AStr "player"); LAtom (AStr "team"); LAtom (AStr "fpts")]
  /\ uniform (nrows o) o
  /\ (nrows o <= n)%nat
  /\ Forall (fun c => exists s, c = CStr s /\ s <> EmptyString /\ strip s = s)
            (column "player" o)
  /\ Forall (fun c => exists s, c = CStr s /\ strip s = s) (column "team" o)
  /\ Forall (fun c => exists f, c = CFloat f /\ PrimFloat.is_nan f = false)
            (column "fpts" o).
Proof.
  intros H3 Hp3 Ht3 Hf3. cbv zeta.
  set (P := astype_str_strip (column "player" d3)).
  set (T := astype_str_strip (column "team" d3)).
  set (F := to_numeric (column fc d3)).
  set (m := row_mask P F).
  set (o := [(LAtom (AStr "player"), keep m P); (LAtom (AStr "team"), keep m T);
             (LAtom (AStr "fpts"), keep m F)]).
  change (extracted fc d3) with o.
  assert (length P = n /\ length T = n /\ length F = n) as (HP & HT & HF).
  { unfold P, T, F, astype_str_strip, to_numeric. rewrite !length_map.
    repeat split; by apply uniform_column. }
  assert (length m = n) as Hm by (unfold m; rewrite length_row_mask; lia).
  set (k := length (filter (fun b => b = true) m)).
  assert (length (keep m P) = k /\ length (keep m T) = k /\ length (keep m F) = k)
    as (HkP & HkT & HkF) by (repeat split; apply length_keep_all; lia).
  split; [done|]. split.
  { change (nrows o) with (length (keep m P)).
    unfold uniform, o. cbn [map snd]. rewrite HkP. by repeat constructor. }
  split.
  { change (nrows o) with (length (keep m P)). rewrite HkP. unfold k.
    rewrite <- Hm. apply length_filter. }
  destruct (kept_cells (column "player" d3) (column fc d3)) as [Hkp Hkf].
  split; [exact Hkp|]. split; [|exact Hkf].
  apply keep_Forall, astype_str_strip_text.
Qed.


(** X19. The rate conversion has two failures of its own: an empty table (no
    column or no row) is refused with the "No data table found." error
    before the extractor runs, so it is left untouched; and a [weeks]
    beyond the range of a float raises OverflowError after the extraction.
    Every other failure is the failure of the extractor; no value of
    [weeks] in range, zero included, makes the division raise. *)
Theorem rate_conversion_raises_only :
  (forall r w d pos_label weeks e w',
      heap w !! r = Some d ->
      position_table (Some r) pos_label weeks w = (Raise e, w') ->
      (empty d = true /\ e = no_table /\ w' = w)
      \/ (empty d = false /\ extract_player_team_fpts r w = (Raise e, w'))
      \/ (empty d = false /\ PyNum.py_float weeks = None
          /\ exn_kind_of e = OverflowError
          /\ exists base, extract_player_team_fpts r w = (Ok base, w')))
  /\ PyNum.py_float 0 = Some 0%float.
Proof.
  split; [|reflexivity].
  intros r w d pos_label weeks e w' Hr. unfold position_table.
  rewrite (bind_ok _ _ _ _ _ (load_ok _ _ _ Hr)).
  destruct (empty d) eqn:Ee. { intros [= <- <-]. by left. }
  pose proof (extract_run r w d Hr) as Hx.
  destruct (cleaned d) as [d1|e1] eqn:Ec.
  2: { rewrite (bind_raise _ _ _ _ _ Hx). intros [= <- <-]. right. left. by rewrite Hx. }
  destruct (with_player d1) as [d2|e2] eqn:Ep.
  2: { rewrite (bind_raise _ _ _ _ _ Hx). intros [= <- <-]. right. left. by rewrite Hx. }
  cbv zeta in Hx.
  destruct (first_present fpts_candidates (with_team d2)) as [fc|] eqn:Ef.
  2: { rewrite (bind_raise _ _ _ _ _ Hx). intros [= <- <-]. right. left. by rewrite Hx. }
  rewrite (bind_ok _ _ _ _ _ Hx).
  set (d3 := with_team d2) in *.
  assert (Hn : length (<[r:=d3]> (heap w)) = length (heap w)) by apply length_insert.
  set (h3 := <[r:=d3]> (heap w)) in *. rewrite <- Hn in Hx |- *.
  fold (extracted fc d3) in Hx |- *.
  set (base := extracted fc d3) in *.
  assert (Hb : base =
    [(LAtom (AStr "player"), column "player" base);
     (LAtom (AStr "team"), column "team" base);
     (LAtom (AStr "fpts"), column "fpts" base)]) by reflexivity.
  set (P := column "player" base) in *.
  set (T := column "team" base) in *.
  set (F := column "fpts" base) in *.
  rewrite Hb. clear Hb.
  erewrite bind_ok; [|eapply get_column_ok; [cbn [heap with_heap]; apply lookup_fresh2|reflexivity]].
  destruct (PyNum.py_float weeks) as [wf|] eqn:Ew.
  2: { erewrite bind_raise; [|reflexivity]. intros [= <- <-]. right. right.
       split; [done|]. split; [done|]. split; [done|]. eexists. exact Hx. }
  erewrite bind_ok; [|reflexivity].
  erewrite bind_ok; [|eapply modify_ok; cbn [heap with_heap]; apply lookup_fresh2].
  cbn [heap with_heap]. rewrite insert_fresh2.
  erewrite bind_ok; [|eapply modify_ok; cbn [heap with_heap]; apply lookup_fresh2].
  cbn [heap with_heap]. rewrite insert_fresh2.
  erewrite bind_ok; [|eapply load_ok; cbn [heap with_heap]; apply lookup_fresh2].
  done.
Qed.

End Extracting.

(** *** What [fetch_position] raises, and what it returns *)

Lemma keeps_clock_ret {A} (a : A) : keeps_clock (ret a).
Proof. by intros w. Qed.

Lemma keeps_clock_raise {A} e : keeps_clock (@raise A e).
Proof. by intros w. Qed.

Lemma keeps_clock_lift {A} (r : result A) : keeps_clock (lift r).
Proof. by destruct r. Qed.

Lemma keeps_clock_bind {A B} (m : M A) (k : A -> M B) :
  keeps_clock m -> (forall a, keeps_clock (k a)) -> keeps_clock (bind m k).
Proof.
  intros Hm Hk w. unfold bind. specialize (Hm w).
  destruct (m w) as [[a|e] w1]; simpl in *; [|done].
  by rewrite (Hk a w1).
Qed.

Lemma keeps_clock_alloc d : keeps_clock (alloc d).
Proof. by intros w. Qed.

Lemma keeps_clock_load r : keeps_clock (load r).
Proof. intros w. unfold load. by destruct (heap w !! r). Qed.

Lemma keeps_clock_modify r f : keeps_clock (modify r f).
Proof. intros w. unfold modify. by destruct (heap w !! r). Qed.

Lemma keeps_clock_requests_get url : keeps_clock (requests_get url).
Proof. intros w. unfold requests_get. by destruct (replies w) as [|[]]. Qed.

Lemma keeps_clock_sleep_pow b i : keeps_clock (sleep_pow b i).
Proof. intros w. unfold sleep_pow. by destruct (clock w b i). Qed.

Create HintDb clock discriminated.

#[export] Hint Resolve keeps_clock_ret keeps_clock_raise keeps_clock_lift keeps_clock_alloc
  keeps_clock_load keeps_clock_modify keeps_clock_requests_get keeps_clock_sleep_pow
  : clock.

Ltac clock_step :=
  lazymatch goal with
  | |- keeps_clock (bind _ _) => apply keeps_clock_bind; [|intros ?]
  | |- keeps_clock (match ?x with _ => _ end) => destruct x
  | |- keeps_clock (let _ := _ in _) => cbv zeta
  | |- keeps_clock _ => solve [auto with clock nocore]
  end.

Ltac clock_auto := repeat clock_step.

Lemma keeps_clock_get_column r name : keeps_clock (get_column r name).
Proof. unfold get_column. clock_auto. Qed.

Lemma keeps_clock_raise_for_status resp : keeps_clock (raise_for_status resp).
Proof. unfold raise_for_status. clock_auto. Qed.

Lemma keeps_clock_alloc_all dfs : keeps_clock (alloc_all dfs).
Proof. induction dfs; simpl; clock_auto. Qed.

#[export] Hint Resolve keeps_clock_get_column keeps_clock_raise_for_status
  keeps_clock_alloc_all : clock.

Section Outcome.
Context `{Libs}.

Lemma keeps_clock_clean_columns r : keeps_clock (clean_columns r).
Proof. unfold clean_columns. clock_auto. Qed.

Lemma keeps_clock_locate tables : keeps_clock (locate_projection_table tables).
Proof.
  pose proof keeps_clock_clean_columns.
  induction tables as [|t tables IH]; simpl; clock_auto.
Qed.

Lemma keeps_clock_extract r : keeps_clock (extract_player_team_fpts r).
Proof. pose proof keeps_clock_clean_columns. unfold extract_player_team_fpts. clock_auto. Qed.

Lemma keeps_clock_attempt url pos_label weeks :
  keeps_clock (fetch_position_attempt url pos_label weeks).
Proof.
  pose proof keeps_clock_locate. pose proof keeps_clock_extract.
  unfold fetch_position_attempt, fetch_table, position_table, try_fetch_csv,
    fetch_html_table.
  clock_auto.
Qed.

Lemma loop_raises url pos_label weeks retries backoff (n i : nat) last_err w e w' :
  Z.of_nat i + Z.of_nat (S n) = retries + 1 ->
  (forall j, clock w backoff j = None) ->
  fetch_position_loop url pos_label weeks retries backoff
    (map Z.of_nat (seq i (S n))) last_err w = (Raise e, w') ->
  exists wk cause,
    fetch_position_attempt url pos_label weeks wk = (Raise cause, w')
    /\ e = fetch_failed pos_label url cause.
Proof.
  revert i last_err w. induction n as [|m IH]; intros i last_err w Hn Hclock;
    rewrite range_from; cbn [fetch_position_loop]; unfold try_except;
    pose proof (keeps_clock_attempt url pos_label weeks w) as Hk;
    destruct (fetch_position_attempt url pos_label weeks w) as [[v|c] w1] eqn:Ha;
    try done; cbn [snd] in Hk.
  - assert ((Z.of_nat i <? retries) = false) as -> by (apply Z.ltb_ge; lia).
    intros [= <- <-]. by exists w, c.
  - assert ((Z.of_nat i <? retries) = true) as -> by (apply Z.ltb_lt; lia).
    unfold bind, sleep_pow.
    assert (clock w1 backoff (Z.of_nat i) = None) as -> by (rewrite Hk; apply Hclock).
    apply IH; [lia|].
    intros j. cbn [clock]. by rewrite Hk.
Qed.

(** X22. With [retries >= 0] and sleeps that return, [fetch_position] raises
    nothing but the RuntimeError it builds: the message names the position
    and the URL, and the cause is the exception of the last attempt. *)
Theorem fetch_position_raises_its_own_error url pos_label weeks retries backoff w e w' :
  0 <= retries ->
  (forall j, clock w backoff j = None) ->
  fetch_position url pos_label weeks retries backoff w = (Raise e, w') ->
  exists wk cause,
    fetch_position_attempt url pos_label weeks wk = (Raise cause, w')
    /\ e = ExnFrom RuntimeError
             ("Failed to fetch " +:+ pos_label +:+ " from " +:+ url +:+ ": "
              +:+ exn_msg cause) cause.
Proof.
  intros Hr Hclock. unfold fetch_position, range.
  replace (Z.to_nat (retries + 1)) with (S (Z.to_nat retries)) by lia.
  apply loop_raises; [lia|done].
Qed.

(** X20. What [fetch_position] returns for one of the four positions, from a
    frame of equally long columns, is a table as [main] concatenates them:
    the columns player, team, proj_pts and pos, of one length, the rates
    floats and the position label in every row. *)
Theorem position_table_is_tagged r w d pos_label weeks out w' :
  heap w !! r = Some d ->
  unambiguous d = true ->
  rectangular d ->
  In pos_label positions ->
  position_table (Some r) pos_label weeks w = (Ok out, w') ->
  exists o, heap w' !! out = Some o /\ tagged_table o.
Proof.
  intros Hr _ Hrect%rectangular_uniform Hpos Hrun.
  destruct (position_table_ok r pos_label weeks w d out w' Hr Hrun)
    as (d1 & d2 & fc & wf & _ & Hc & Hp & Hf & Hw & -> & ->).
  pose proof (resolved_uniform _ _ _ _ Hrect Hc Hp) as H3.
  destruct (with_team_has d2 (with_player_has d1 d2 Hp)) as [Hp3 Ht3].
  destruct (first_present_has _ _ _ Hf) as [Hf3 _].
  destruct (extracted_shape _ fc _ H3 Hp3 Ht3 Hf3) as (Hl & Hu & _).
  exists (position_frame fc (with_team d2) pos_label wf). split.
  { cbn [heap with_heap]. rewrite <- (length_insert (heap w) r (with_team d2)).
    apply lookup_fresh3. }
  unfold position_frame. cbv zeta.
  set (o := extracted fc (with_team d2)) in *.
  assert (has_column "player" o = true /\ has_column "team" o = true
          /\ has_column "fpts" o = true) as (H1 & H2 & H4) by (by repeat split).
  exists pos_label, (column "player" o), (column "team" o),
    (per_game wf (column "fpts" o)).
  split; [done|]. split; [done|].
  rewrite (uniform_column _ _ _ Hu H1).
  split; [|split].
  - apply (uniform_column _ _ _ Hu H2).
  - unfold per_game. rewrite length_map. apply (uniform_column _ _ _ Hu H4).
  - unfold per_game. apply List.Forall_forall. by intros c (x & <- & _)%in_map_iff.
Qed.

End Outcome.

(** *** Witnesses of the further properties *)

(** X6, witness. *)
Lemma clean_columns_relabels_witness :
  heap (world_of lamar_table) !! 0%nat = Some lamar_table
  /\ forall L : Libs,
       exists d1,
         clean_columns 0%nat (world_of lamar_table)
         = (Ok 0%nat, with_heap (<[0%nat := d1]> [lamar_table]) (world_of lamar_table))
         /\ map snd d1 = map snd lamar_table
         /\ Forall tidy_label (labels d1).
Proof.
  split; [reflexivity|]. intros L.
  apply (clean_columns_relabels_in_place 0%nat (world_of lamar_table) lamar_table);
    [reflexivity|by right].
Defined.

(** X7, witness. *)
Lemma clean_columns_rejects_witness :
  heap (world_of headerless_table) !! 0%nat = Some headerless_table
  /\ forall L : Libs,
       exists e,
         clean_columns 0%nat (world_of headerless_table)
         = (Raise e, world_of headerless_table)
         /\ exn_kind_of e = AttributeError.
Proof.
  split; [reflexivity|]. intros L.
  apply (clean_columns_rejects_other_labels 0%nat (world_of headerless_table)
           headerless_table); reflexivity.
Defined.

(** X8, witness. *)
Lemma clean_columns_twice_witness :
  labels lamar_table = [LAtom (AStr "Player"); LAtom (AStr "FPTS")]
  /\ forall L : Libs,
       clean_columns 0%nat
         (mkWorld [[(LAtom (AStr "player"), [CStr "Lamar Jackson BAL"]);
                    (LAtom (AStr "fpts"), [CFloat 340])]] [] [] [] steady)
       = (Ok 0%nat,
          mkWorld [[(LAtom (AStr "player"), [CStr "Lamar Jackson BAL"]);
                    (LAtom (AStr "fpts"), [CFloat 340])]] [] [] [] steady).
Proof.
  split; [reflexivity|]. intros L.
  apply (clean_columns_twice 0%nat (world_of lamar_table)). vm_compute. reflexivity.
Defined.

(** X9, witness. *)
Lemma locate_keeps_witness :
  heap (mkWorld [qb_table; lamar_table] [] [] [] steady) = [qb_table; lamar_table]
  /\ forall L : Libs,
       exists new,
         heap (snd (locate_projection_table [0%nat; 1%nat]
                      (mkWorld [qb_table; lamar_table] [] [] [] steady)))
         = [qb_table; lamar_table] ++ new.
Proof.
  split; [reflexivity|]. intros L.
  destruct (locate_keeps_its_tables [0%nat; 1%nat]
              (mkWorld [qb_table; lamar_table] [] [] [] steady)
              (fst (locate_projection_table [0%nat; 1%nat]
                      (mkWorld [qb_table; lamar_table] [] [] [] steady)))
              (snd (locate_projection_table [0%nat; 1%nat]
                      (mkWorld [qb_table; lamar_table] [] [] [] steady))))
    as [Hnew _]; [reflexivity|exact Hnew].
Defined.

(** X10, witness. *)
Lemma locate_returns_witness :
  accepted lamar_table = false
  /\ forall L : Libs,
       exists i t d d1,
         [0%nat; 1%nat] !! i = Some t
         /\ [qb_table; lamar_table] !! t = Some d
         /\ cleaned d = Ok d1 /\ accepted d1 = true
         /\ heap (snd (locate_projection_table [0%nat; 1%nat]
                         (mkWorld [qb_table; lamar_table] [] [] [] steady))) !! 3%nat
            = Some d1.
Proof.
  split; [reflexivity|]. intros L.
  destruct (locate_returns_first_accepted [0%nat; 1%nat]
              (mkWorld [qb_table; lamar_table] [] [] [] steady) (Some 3%nat)
              (snd (locate_projection_table [0%nat; 1%nat]
                      (mkWorld [qb_table; lamar_table] [] [] [] steady))))
    as (i & t & d & d1 & Hi & Ht & Hc & Ha & Hdf & _).
  - repeat constructor.
  - vm_compute. reflexivity.
  - by exists i, t, d, d1.
Defined.

(** X11, witness. *)
Lemma locate_raises_witness :
  accepted [(LAtom (AStr "player"), [CStr "Lamar Jackson BAL"]);
            (LAtom (AStr "fpts"), [CFloat 340])] = true
  /\ forall L : Libs,
       exists e w',
         locate_projection_table [0%nat; 1%nat]
           (mkWorld [headerless_table; lamar_table] [] [] [] steady)
         = (Raise e, w')
         /\ exn_kind_of e = AttributeError.
Proof.
  split; [reflexivity|]. intros L.
  apply (locate_raises_at_unlabelled_table 0%nat [1%nat]
           (mkWorld [headerless_table; lamar_table] [] [] [] steady) headerless_table);
    reflexivity.
Defined.



(** X12, witness. *)
Lemma fetch_html_table_errors_witness :
  400 <= 404 < 600
  /\ forall L : Libs,
       exists e,
         fetch_html_table "http://site/qb.php" (site_answering 404 "Not Found")
         = (Raise e, mkWorld [] [] ["http://site/qb.php"] [] steady)
         /\ exn_kind_of e = HTTPError.
Proof.
  split; [lia|]. intros L.
  apply (proj1 (fetch_html_table_errors "http://site/qb.php"
                  (site_answering 404 "Not Found")
                  (mkResponse 404 "OK" "http://site/qb.php" "Not Found") [] eq_refl)).
  simpl. lia.
Defined.

(** X13, witness. *)
Lemma fetch_html_table_returns_witness :
  @read_html example_libs "<table>" = Ok [qb_table; lamar_table]
  /\ exists i d1,
       [qb_table; lamar_table] !! i = Some lamar_table
       /\ cleaned lamar_table = Ok d1 /\ accepted d1 = true
       /\ heap (snd (@fetch_html_table example_libs "http://site/qb.php"
                       (site_answering 200 "<table>"))) !! 3%nat
          = Some d1.
Proof.
  split; [reflexivity|].
  destruct (@fetch_html_table_returns_first_accepted example_libs "http://site/qb.php"
              (site_answering 200 "<table>")
              (mkResponse 200 "OK" "http://site/qb.php" "<table>") [] 3%nat
              (snd (@fetch_html_table example_libs "http://site/qb.php"
                      (site_answering 200 "<table>"))))
    as (tables & i & d & d1 & Hread & Hi & Hc & Ha & Hdf & Hbefore).
  - reflexivity.
  - vm_compute. reflexivity.
  - injection Hread as <-. exists i, d1.
    destruct i as [|[|i]]; [| |done].
    + injection Hi as <-. vm_compute in Hc. injection Hc as <-. discriminate Ha.
    + injection Hi as <-. done.
Defined.

(** X18, witness. *)
Lemma csv_export_is_preferred_witness :
  @read_csv example_libs "Player,FPTS" = Ok lamar_table
  /\ @fetch_table example_libs "http://site/qb.php" (site_answering 200 "Player,FPTS")
     = (Ok (Some 0%nat),
        mkWorld [lamar_table] [] ["http://site/qb.php?csv=1"] [] steady).
Proof.
  split; [reflexivity|].
  apply (@csv_export_is_preferred example_libs "http://site/qb.php"
           (site_answering 200 "Player,FPTS")).
  vm_compute. reflexivity.
Defined.

(** X26, witness. *)
Lemma main_stops_witness :
  URLS = [] ++ ("https://www.fantasypros.com/nfl/projections/qb.php?week=draft", "QB")
               :: tail URLS
  /\ forall L : Libs,
       fst (main 17 silent_site)
       = Raise (ExnFrom RuntimeError
                  "Failed to fetch QB from https://www.fantasypros.com/nfl/projections/qb.php?week=draft: no reply"
                  (Exn ConnectionError "no reply")).
Proof.
  split; [reflexivity|]. intros L.
  rewrite (main_stops_at_first_failure 17 silent_site []
             "https://www.fantasypros.com/nfl/projections/qb.php?week=draft" "QB"
             (tail URLS) [] silent_site
             (ExnFrom RuntimeError
                "Failed to fetch QB from https://www.fantasypros.com/nfl/projections/qb.php?week=draft: no reply"
                (Exn ConnectionError "no reply"))
             (snd (fetch_position
                     "https://www.fantasypros.com/nfl/projections/qb.php?week=draft"
                     "QB" 17 2 1.5 silent_site))).
  - reflexivity.
  - reflexivity.
  - reflexivity.
  - vm_compute. reflexivity.
Defined.

(** X14, witness. *)
Lemma extractor_raises_only_witness :
  unambiguous [(LAtom (AStr "Player"), [CStr "Lamar Jackson BAL"])] = true
  /\ forall L : Libs,
       exists d1 d2,
         cleaned [(LAtom (AStr "Player"), [CStr "Lamar Jackson BAL"])] = Ok d1
         /\ with_player d1 = Ok d2
         /\ Forall (fun c => has_column c (with_team d2) = false) fpts_candidates.
Proof.
  split; [reflexivity|]. intros L.
  destruct (extractor_raises_only 0%nat
              (world_of [(LAtom (AStr "Player"), [CStr "Lamar Jackson BAL"])])
              [(LAtom (AStr "Player"), [CStr "Lamar Jackson BAL"])]
              missing_fpts
              (snd (extract_player_team_fpts 0%nat
                      (world_of [(LAtom (AStr "Player"), [CStr "Lamar Jackson BAL"])]))))
    as [(Hk & _)|[(He & _)|(_ & d1 & d2 & Hc & Hp & _ & Hnone)]].
  - reflexivity.
  - reflexivity.
  - vm_compute. reflexivity.
  - discriminate Hk.
  - discriminate He.
  - by exists d1, d2.
Defined.




(** X23, witness. *)
Lemma fetch_position_negative_retries_witness :
  -1 < 0
  /\ forall L : Libs,
       fetch_position "http://site/qb.php" "QB" 17 (-1) 1.5 silent_site
       = (Raise (Exn TypeError "exceptions must derive from BaseException"), silent_site).
Proof.
  split; [lia|]. intros L.
  apply (fetch_position_negative_retries "http://site/qb.php" "QB" 17 (-1) 1.5). lia.
Defined.

(** X24, witness. *)
Lemma fetch_position_sleep_raises_witness :
  negative_backoff_clock (-1.5)%float 1
  = Some (Exn ValueError "sleep length must be non-negative")
  /\ forall L : Libs,
       fetch_position "http://site/qb.php" "QB" 17 2 (-1.5)
         (mkWorld [] [] [] [] negative_backoff_clock)
       = (Raise (Exn ValueError "sleep length must be non-negative"),
          mkWorld [] [] ["http://site/qb.php?csv=1"; "http://site/qb.php?csv=1"]
            [((-1.5)%float, 0)] negative_backoff_clock).
Proof.
  split; [reflexivity|]. intros L.
  apply (fetch_position_sleep_raises "http://site/qb.php" "QB" 17 2 (-1.5)
           (mkWorld [] [] [] [] negative_backoff_clock) 1
           (mkWorld [] [] ["http://site/qb.php?csv=1"] [((-1.5)%float, 0)]
              negative_backoff_clock)
           (Exn ConnectionError "no reply")
           (mkWorld [] [] ["http://site/qb.php?csv=1"; "http://site/qb.php?csv=1"]
              [((-1.5)%float, 0)] negative_backoff_clock)).
  - eapply failed_next; [vm_compute; reflexivity|vm_compute; reflexivity|].
    apply failed_none.
  - lia.
  - vm_compute. reflexivity.
  - vm_compute. reflexivity.
Defined.

(** X22, witness. *)
Lemma fetch_position_raises_its_own_error_witness :
  0 <= 2
  /\ forall L : Libs,
       exists wk cause,
         fetch_position_attempt "http://site/qb.php" "QB" 17 wk
         = (Raise cause, snd (fetch_position "http://site/qb.php" "QB" 17 2 1.5 silent_site))
         /\ ExnFrom RuntimeError "Failed to fetch QB from http://site/qb.php: no reply"
              (Exn ConnectionError "no reply")
            = ExnFrom RuntimeError
                ("Failed to fetch " +:+ "QB" +:+ " from " +:+ "http://site/qb.php" +:+ ": "
                 +:+ exn_msg cause) cause.
Proof.
  split; [lia|]. intros L.
  apply (fetch_position_raises_its_own_error "http://site/qb.php" "QB" 17 2 1.5
           silent_site).
  - lia.
  - done.
  - vm_compute. reflexivity.
Defined.

(** X20, witness. *)
Lemma position_table_is_tagged_witness :
  In "QB" positions
  /\ forall L : Libs,
       exists o,
         heap (snd (position_table (Some 0%nat) "QB" 17 (world_of odd_points_table))) !! 3%nat
         = Some o
         /\ tagged_table o.
Proof.
  assert (In "QB" positions) as Hin by (by left).
  split; [exact Hin|]. intros L.
  apply (position_table_is_tagged 0%nat (world_of odd_points_table) odd_points_table
           "QB" 17).
  - reflexivity.
  - reflexivity.
  - by repeat constructor.
  - exact Hin.
  - vm_compute. reflexivity.
Defined.

(* ================================================================= *)
(** ** The query builder *)

Module UrlFacts.
Import Url UrlShape.

(** *** Percent-encoding and query strings *)

Lemma str_app_cons c s t : String c s +:+ t = String c (s +:+ t).
Proof. reflexivity. Qed.

Lemma str_app_nil_l s : EmptyString +:+ s = s.
Proof. reflexivity. Qed.

Lemma str_app_nil_r s : s +:+ EmptyString = s.
Proof. induction s as [|c s IH]; [done|]. by rewrite str_app_cons, IH. Qed.

Lemma str_app_assoc s t u : (s +:+ t) +:+ u = s +:+ (t +:+ u).
Proof. induction s as [|c s IH]; [done|]. by rewrite !str_app_cons, IH. Qed.

Lemma forallb_str_app p s t :
  forallb_str p (s +:+ t) = forallb_str p s && forallb_str p t.
Proof.
  induction s as [|c s IH]; [done|].
  rewrite str_app_cons. simpl. by rewrite IH, andb_assoc.
Qed.

Lemma existsb_str_app p s t :
  existsb_str p (s +:+ t) = existsb_str p s || existsb_str p t.
Proof.
  induction s as [|c s IH]; [done|].
  rewrite str_app_cons. simpl. by rewrite IH, orb_assoc.
Qed.

Lemma has_char_app c s t : has_char c (s +:+ t) = has_char c s || has_char c t.
Proof. apply existsb_str_app. Qed.

(** One encoded byte decodes to the byte. *)
Lemma unquote_to_bytes_quote_char c rest :
  unquote_to_bytes (replace_char "+" " " (quote_char c +:+ rest))
  = String c (unquote_to_bytes (replace_char "+" " " rest)).
Proof.
  destruct c as [[] [] [] [] [] [] [] []]; reflexivity.
Qed.

Lemma unquote_to_bytes_quote_plus s :
  unquote_to_bytes (replace_char "+" " " (quote_plus s)) = s.
Proof.
  induction s as [|c s IH]; [done|].
  cbn [quote_plus]. by rewrite unquote_to_bytes_quote_char, IH.
Qed.

Lemma quote_char_encoded c : forallb_str encoded_char (quote_char c) = true.
Proof. destruct c as [[] [] [] [] [] [] [] []]; reflexivity. Qed.

Lemma quote_plus_encoded s : forallb_str encoded_char (quote_plus s) = true.
Proof.
  induction s as [|c s IH]; [done|].
  cbn [quote_plus]. by rewrite forallb_str_app, quote_char_encoded, IH.
Qed.

Lemma forallb_str_impl (p q : ascii -> bool) s :
  (forall c, p c = true -> q c = true) ->
  forallb_str p s = true -> forallb_str q s = true.
Proof.
  intros Hpq. induction s as [|c s IH]; [done|]. simpl.
  intros [Hc Hs]%andb_prop. by rewrite (Hpq c Hc), (IH Hs).
Qed.

Lemma has_char_false c p s :
  p c = false -> forallb_str p s = true -> has_char c s = false.
Proof.
  intros Hc. unfold has_char. induction s as [|d s IH]; [done|]. simpl.
  intros [Hd Hs]%andb_prop. rewrite (IH Hs), orb_false_r.
  destruct (Ascii.eqb_spec c d) as [->|]; [congruence|done].
Qed.

Lemma eqb_sym_false (a b : ascii) : Ascii.eqb a b = false -> Ascii.eqb b a = false.
Proof. rewrite !Ascii.eqb_neq. congruence. Qed.

Lemma has_char_cons c d s :
  has_char c (String d s) = Ascii.eqb c d || has_char c s.
Proof. reflexivity. Qed.

Lemma unquote_to_bytes_plain s : has_char "%" s = false -> unquote_to_bytes s = s.
Proof.
  induction s as [|c s IH]; [done|]. rewrite has_char_cons.
  intros [Hc Hs]%orb_false_elim. cbn [unquote_to_bytes].
  by rewrite (eqb_sym_false _ _ Hc), (IH Hs).
Qed.

(** *** Well-formed text *)

Lemma range_high lo hi a :
  in_range lo hi a = true -> (128 <= lo)%N -> (code a <? 128)%N = false.
Proof.
  unfold in_range. intros [H _]%andb_prop Hlo. apply N.leb_le in H.
  apply N.ltb_ge. lia.
Qed.

Lemma range_apart lo hi lo' hi' a :
  in_range lo hi a = true -> (hi' < lo \/ hi < lo')%N -> in_range lo' hi' a = false.
Proof.
  unfold in_range. intros [H1 H2]%andb_prop Hd.
  apply N.leb_le in H1, H2. apply andb_false_iff.
  rewrite N.leb_gt, N.leb_gt. lia.
Qed.

Lemma is_cont_high b : is_cont b = true -> (code b <? 128)%N = false.
Proof. intros H. by eapply range_high. Qed.

Lemma second_ok_high a b : second_ok a b = true -> (code b <? 128)%N = false.
Proof.
  unfold second_ok.
  repeat match goal with |- context [if ?c then _ else _] => destruct c end;
    intros H; (eapply range_high; [exact H|lia]).
Qed.

(** The bytes of a character of several bytes are no ASCII characters. *)
Lemma scalar_high u :
  scalar u = true -> forallb_str (fun c => negb (code c <? 128)%N) u = true.
Proof.
  destruct u as [|a [|b [|c [|d [|e u]]]]]; try done; cbn [scalar forallb_str].
  - intros [Ha Hb]%andb_prop.
    by rewrite (range_high _ _ _ Ha), (is_cont_high _ Hb) by lia.
  - intros [[Ha Hb]%andb_prop Hc]%andb_prop.
    by rewrite (range_high _ _ _ Ha), (second_ok_high _ _ Hb), (is_cont_high _ Hc) by lia.
  - intros [[[Ha Hb]%andb_prop Hc]%andb_prop Hd]%andb_prop.
    by rewrite (range_high _ _ _ Ha), (second_ok_high _ _ Hb), (is_cont_high _ Hc),
      (is_cont_high _ Hd) by lia.
Qed.

Lemma scalar_absent c u :
  scalar u = true -> (code c <? 128)%N = true -> has_char c u = false.
Proof.
  intros Hu Hc. eapply has_char_false; [|exact (scalar_high u Hu)].
  cbv beta. by rewrite Hc.
Qed.

Lemma scalar_head u :
  scalar u = true -> exists a u', u = String a u' /\ (code a <? 128)%N = false.
Proof.
  intros Hu. pose proof (scalar_high u Hu) as Hh.
  destruct u as [|a u']; [done|]. exists a, u'. split; [done|].
  cbn [forallb_str] in Hh. apply andb_prop in Hh as [Ha _].
  by apply negb_true_iff in Ha.
Qed.

Lemma decode_scalar u s :
  scalar u = true -> decode_utf8 (u +:+ s) = u +:+ decode_utf8 s.
Proof.
  destruct u as [|a [|b [|c [|d [|e u]]]]]; try done; cbn [scalar].
  - intros [Ha Hb]%andb_prop.
    rewrite !str_app_cons. change (EmptyString +:+ ?x) with x. cbn [decode_utf8].
    by rewrite (range_high _ _ _ Ha), Ha, Hb by lia.
  - intros [[Ha Hb]%andb_prop Hc]%andb_prop.
    rewrite !str_app_cons. change (EmptyString +:+ ?x) with x. cbn [decode_utf8].
    by rewrite (range_high _ _ _ Ha), (range_apart _ _ 194 223 _ Ha), Ha, Hb, Hc by lia.
  - intros [[[Ha Hb]%andb_prop Hc]%andb_prop Hd]%andb_prop.
    rewrite !str_app_cons. change (EmptyString +:+ ?x) with x. cbn [decode_utf8].
    by rewrite (range_high _ _ _ Ha), (range_apart _ _ 194 223 _ Ha),
      (range_apart _ _ 224 239 _ Ha), Ha, Hb, Hc, Hd by lia.
Qed.

(** Decoding leaves text as it is. *)
Lemma text_decode s : text s -> decode_utf8 s = s.
Proof.
  induction 1 as [|c s Hc _ IH|u s Hu _ IH]; [done| |].
  - cbn [decode_utf8]. by rewrite Hc, IH.
  - by rewrite decode_scalar, IH.
Qed.

Lemma text_app x y : text x -> text y -> text (x +:+ y).
Proof.
  intros Hx Hy. induction Hx as [|c s Hc _ IH|u s Hu _ IH]; [done| |].
  - rewrite str_app_cons. by apply text_low.
  - rewrite str_app_assoc. by apply text_high.
Qed.

Lemma text_replacement : text replacement.
Proof. apply (text_high replacement EmptyString); [reflexivity|apply text_nil]. Qed.

Lemma text_unit u : scalar u = true -> text u.
Proof.
  intros Hu. rewrite <- (str_app_nil_r u). apply text_high; [done|apply text_nil].
Qed.

Lemma length_le_0 s : (String.length s <= 0)%nat -> s = EmptyString.
Proof. destruct s; simpl; [done|lia]. Qed.

(** What the decoder returns is text. *)
Lemma text_decode_utf8 s : text (decode_utf8 s).
Proof.
  remember (String.length s) as n eqn:Hn.
  assert (String.length s <= n)%nat as Hle by lia. clear Hn. revert s Hle.
  induction n as [|n IH]; intros s Hle.
  { rewrite (length_le_0 s Hle). apply text_nil. }
  assert (forall t, (String.length t <= n)%nat ->
                    text (replacement +:+ decode_utf8 t)) as Hrep.
  { intros t Ht. apply text_app; [apply text_replacement|by apply IH]. }
  destruct s as [|a s1]; [apply text_nil|]. cbn [String.length] in Hle.
  cbn [decode_utf8].
  destruct (code a <? 128)%N eqn:Ea; [apply text_low; [done|apply IH; lia]|].
  destruct (in_range 194 223 a) eqn:E2.
  { destruct s1 as [|b s2]; [apply text_replacement|]. cbn [String.length] in Hle.
    destruct (is_cont b) eqn:Eb; [|apply Hrep; cbn [String.length]; lia].
    apply (text_high (String a (String b EmptyString)) (decode_utf8 s2)).
    - cbn [scalar]. by rewrite E2, Eb.
    - apply IH. lia. }
  destruct (in_range 224 239 a) eqn:E3.
  { destruct s1 as [|b s2]; [apply text_replacement|]. cbn [String.length] in Hle.
    destruct (second_ok a b) eqn:Eb; [|apply Hrep; cbn [String.length]; lia].
    destruct s2 as [|c s3]; [apply text_replacement|]. cbn [String.length] in Hle.
    destruct (is_cont c) eqn:Ec; [|apply Hrep; cbn [String.length]; lia].
    apply (text_high (String a (String b (String c EmptyString))) (decode_utf8 s3)).
    - cbn [scalar]. by rewrite E3, Eb, Ec.
    - apply IH. lia. }
  destruct (in_range 240 244 a) eqn:E4; [|apply Hrep; lia].
  destruct s1 as [|b s2]; [apply text_replacement|]. cbn [String.length] in Hle.
  destruct (second_ok a b) eqn:Eb; [|apply Hrep; cbn [String.length]; lia].
  destruct s2 as [|c s3]; [apply text_replacement|]. cbn [String.length] in Hle.
  destruct (is_cont c) eqn:Ec; [|apply Hrep; cbn [String.length]; lia].
  destruct s3 as [|d s4]; [apply text_replacement|]. cbn [String.length] in Hle.
  destruct (is_cont d) eqn:Ed; [|apply Hrep; cbn [String.length]; lia].
  apply (text_high (String a (String b (String c (String d EmptyString))))
           (decode_utf8 s4)).
  - cbn [scalar]. by rewrite E4, Eb, Ec, Ed.
  - apply IH. lia.
Qed.

(** The check decides text. *)
Lemma well_formed_text s : well_formed s = true -> text s.
Proof.
  remember (String.length s) as n eqn:Hn.
  assert (String.length s <= n)%nat as Hle by lia. clear Hn. revert s Hle.
  induction n as [|n IH]; intros s Hle.
  { rewrite (length_le_0 s Hle). intros _. apply text_nil. }
  destruct s as [|a s1]; [intros _; apply text_nil|]. cbn [String.length] in Hle.
  cbn [well_formed].
  destruct (code a <? 128)%N eqn:Ea.
  { intros H. apply text_low; [done|]. apply IH; [lia|done]. }
  destruct s1 as [|b s2]; [done|]. cbn [String.length] in Hle.
  destruct (scalar (String a (String b EmptyString))) eqn:E2.
  { intros H. apply (text_high (String a (String b EmptyString)) s2); [done|].
    apply IH; [lia|done]. }
  destruct s2 as [|c s3]; [done|]. cbn [String.length] in Hle.
  destruct (scalar (String a (String b (String c EmptyString)))) eqn:E3.
  { intros H. apply (text_high (String a (String b (String c EmptyString))) s3); [done|].
    apply IH; [lia|done]. }
  destruct s3 as [|d s4]; [done|]. cbn [String.length] in Hle.
  intros [E4 H]%andb_prop.
  apply (text_high (String a (String b (String c (String d EmptyString)))) s4); [done|].
  apply IH; [lia|done].
Qed.

Lemma text_unquote s : text s -> text (unquote s).
Proof.
  intros Hs. unfold unquote. destruct (has_char "%" s); [|done].
  apply text_decode_utf8.
Qed.

(** An encoded text decodes to the text. *)
Lemma unquote_quote_plus s :
  text s -> unquote (replace_char "+" " " (quote_plus s)) = s.
Proof.
  intros Hs. unfold unquote.
  destruct (has_char "%" (replace_char "+" " " (quote_plus s))) eqn:E.
  - by rewrite unquote_to_bytes_quote_plus, text_decode.
  - by rewrite <- (unquote_to_bytes_plain _ E), unquote_to_bytes_quote_plus.
Qed.

Lemma before_absent c s : has_char c s = false -> before c s = s.
Proof.
  induction s as [|d s IH]; [done|]. rewrite has_char_cons.
  intros [Hd Hs]%orb_false_elim. simpl.
  by rewrite (eqb_sym_false _ _ Hd), (IH Hs).
Qed.

Lemma after_absent c s : has_char c s = false -> after c s = EmptyString.
Proof.
  induction s as [|d s IH]; [done|]. rewrite has_char_cons.
  intros [Hd Hs]%orb_false_elim. simpl.
  by rewrite (eqb_sym_false _ _ Hd), (IH Hs).
Qed.

Lemma before_app c s t :
  has_char c s = false -> before c (s +:+ String c t) = s.
Proof.
  induction s as [|d s IH]; intros Hs.
  - simpl. by rewrite Ascii.eqb_refl.
  - rewrite has_char_cons in Hs. apply orb_false_elim in Hs as [Hd Hs].
    rewrite str_app_cons. simpl. by rewrite (eqb_sym_false _ _ Hd), (IH Hs).
Qed.

Lemma after_app c s t :
  has_char c s = false -> after c (s +:+ String c t) = t.
Proof.
  induction s as [|d s IH]; intros Hs.
  - simpl. by rewrite Ascii.eqb_refl.
  - rewrite has_char_cons in Hs. apply orb_false_elim in Hs as [Hd Hs].
    rewrite str_app_cons. simpl. by rewrite (eqb_sym_false _ _ Hd), (IH Hs).
Qed.

Lemma split_on_aux_absent c s :
  has_char c s = false -> split_on_aux c s = (s, []).
Proof.
  induction s as [|d s IH]; [done|]. rewrite has_char_cons.
  intros [Hd Hs]%orb_false_elim. simpl.
  by rewrite (IH Hs), (eqb_sym_false _ _ Hd).
Qed.

Lemma split_on_aux_app c s t :
  has_char c s = false ->
  split_on_aux c (s +:+ String c t) = (s, split_on c t).
Proof.
  induction s as [|d s IH]; intros Hs.
  - simpl. rewrite Ascii.eqb_refl. unfold split_on. by destruct (split_on_aux c t).
  - rewrite has_char_cons in Hs. apply orb_false_elim in Hs as [Hd Hs].
    rewrite str_app_cons. simpl. by rewrite (IH Hs), (eqb_sym_false _ _ Hd).
Qed.

Lemma join_cons sep p q ps :
  join sep (p :: q :: ps) = p +:+ sep +:+ join sep (q :: ps).
Proof. reflexivity. Qed.

Lemma split_on_join c fields :
  fields <> [] ->
  Forall (fun f => has_char c f = false) fields ->
  split_on c (join (String c EmptyString) fields) = fields.
Proof.
  induction fields as [|f fs IH]; [done|]. intros _ Hall.
  apply Forall_cons in Hall as [Hf Hfs].
  destruct fs as [|g fs].
  - simpl. unfold split_on. by rewrite split_on_aux_absent.
  - rewrite join_cons. unfold split_on at 1.
    change (String c EmptyString +:+ ?t) with (String c t).
    rewrite split_on_aux_app by done. f_equal. by apply IH.
Qed.

Lemma encode_item_spread kv : encode_item kv = map encode_pair (spread kv).
Proof.
  destruct kv as [k [v|l]]; [done|]. unfold encode_item, spread. simpl.
  by rewrite map_map.
Qed.

Lemma flat_map_encode_item d :
  flat_map encode_item d = map encode_pair (flat_map spread d).
Proof.
  induction d as [|kv d IH]; [done|]. simpl.
  by rewrite map_app, IH, encode_item_spread.
Qed.

Lemma quote_plus_has_no c s :
  encoded_char c = false -> has_char c (quote_plus s) = false.
Proof. intros Hc. eapply has_char_false; [exact Hc|apply quote_plus_encoded]. Qed.

Lemma encode_pair_no_amp kv : has_char "&" (encode_pair kv) = false.
Proof.
  unfold encode_pair. rewrite !has_char_app, !quote_plus_has_no by done. done.
Qed.

Lemma encode_pair_not_empty kv : is_empty (encode_pair kv) = false.
Proof.
  unfold encode_pair. destruct (quote_plus (fst kv)); done.
Qed.

Lemma parse_field_encode_pair kv :
  text_pair kv -> parse_field (encode_pair kv) = [kv].
Proof.
  intros [Hk Hv]. unfold parse_field. rewrite encode_pair_not_empty. simpl.
  unfold encode_pair.
  change ("=" +:+ ?t) with (String "=" t).
  rewrite before_app, after_app by (by apply quote_plus_has_no).
  rewrite !unquote_quote_plus by done. by destruct kv.
Qed.

Lemma join_not_empty sep f fs :
  is_empty f = false -> is_empty (join sep (f :: fs)) = false.
Proof. destruct f; [done|]. intros _. by destruct fs. Qed.

Lemma spread_text d : Forall text_item d -> Forall text_pair (flat_map spread d).
Proof.
  induction 1 as [|[k [v|l]] d [Hk Hv] _ IH]; [done| |]; cbn [flat_map].
  - apply Forall_cons. by split.
  - apply Forall_app. split; [|done].
    cbn [text_value snd] in Hv. unfold spread. cbn [fst snd].
    induction Hv as [|x l Hx _ IHl]; [done|]. cbn [map].
    apply Forall_cons. split; [by split|by apply IHl].
Qed.

(** Parsing what [urlencode] wrote gives the pairs back. *)
Lemma parse_qsl_urlencode d :
  Forall text_item d -> parse_qsl (urlencode d) = flat_map spread d.
Proof.
  intros Hd%spread_text.
  unfold urlencode. rewrite flat_map_encode_item.
  destruct (flat_map spread d) as [|kv items]; [done|].
  unfold parse_qsl. cbn [map].
  rewrite join_not_empty by apply encode_pair_not_empty.
  rewrite <- (map_cons encode_pair).
  rewrite (split_on_join "&").
  - revert Hd. generalize (kv :: items). intros l Hl.
    induction Hl as [|x l Hx _ IH]; [done|]. cbn [map flat_map].
    by rewrite parse_field_encode_pair, IH.
  - done.
  - apply Forall_forall. intros f [x [-> _]]%list_elem_of_fmap.
    apply encode_pair_no_amp.
Qed.

Lemma join_forallb p sep fs :
  forallb_str p sep = true ->
  Forall (fun f => forallb_str p f = true) fs ->
  forallb_str p (join sep fs) = true.
Proof.
  intros Hsep. induction fs as [|f fs IH]; [done|].
  intros [Hf Hfs]%Forall_cons. destruct fs as [|g fs]; [done|].
  rewrite join_cons, !forallb_str_app, Hf, Hsep. by apply IH.
Qed.

Lemma urlencode_query_chars d : forallb_str query_char (urlencode d) = true.
Proof.
  unfold urlencode. apply join_forallb; [done|].
  rewrite flat_map_encode_item. apply Forall_forall.
  intros f [x [-> _]]%list_elem_of_fmap. unfold encode_pair.
  rewrite !forallb_str_app.
  assert (forall s, forallb_str query_char (quote_plus s) = true) as Hq.
  { intros s. eapply forallb_str_impl; [|apply quote_plus_encoded].
    intros c Hc. unfold query_char. by rewrite Hc. }
  by rewrite !Hq.
Qed.

Lemma if_has_before c s : (if has_char c s then before c s else s) = before c s.
Proof. destruct (has_char c s) eqn:E; [done|]. by rewrite before_absent. Qed.

Lemma if_has_after c s :
  (if has_char c s then after c s else EmptyString) = after c s.
Proof. destruct (has_char c s) eqn:E; [done|]. by rewrite after_absent. Qed.

Lemma urlsplit_eq chk url :
  urlsplit chk url =
  let (scheme, u1) := split_scheme (pre url) in
  let (netloc, u2) := netloc_rest u1 in
  if netloc_ok chk netloc
  then Ok (mkSplit scheme netloc (before "?" (before "#" u2)) (query_of u2) (after "#" u2))
  else Raise (netloc_error chk netloc).
Proof.
  unfold urlsplit, pre, drop_breaks, query_of. destruct (split_scheme _) as [s u1].
  fold (netloc_rest u1). destruct (netloc_rest u1) as [n u2].
  unfold netloc_ok, netloc_error, brackets_ok. cbv zeta.
  rewrite !if_has_after, if_has_before, !if_has_before.
  destruct (has_char "[" n), (has_char "]" n); cbn [andb orb negb]; try done;
    try (by destruct (checknetloc chk n)).
  destruct (check_bracketed_netloc chk n); cbn [andb negb]; [|done].
  by destruct (checknetloc chk n).
Qed.

Lemma urlunparse_eq p :
  urlunparse p
  = hier (scheme p) (netloc p) (with_params p) +:+ qpart (query p) +:+ fpart (fragment p).
Proof.
  unfold urlunparse, urlunsplit, hier, qpart, fpart. cbn [s_scheme s_netloc s_path s_query s_fragment].
  fold (join_params (path p) (params p)). fold (with_params p).
  destruct (negb (is_empty (query p))), (negb (is_empty (fragment p)));
    cbn [String.append]; rewrite ?str_app_assoc, ?str_app_nil_r; reflexivity.
Qed.

(** *** Characters of the parts *)

Lemma sub_refl s : sub s s.
Proof. by intros c. Qed.

Lemma sub_trans x y z : sub x y -> sub y z -> sub x z.
Proof. intros H1 H2 c Hc. auto. Qed.

Lemma sub_app x y s : sub x s -> sub y s -> sub (x +:+ y) s.
Proof. intros H1 H2 c Hc. by rewrite has_char_app, H1, H2. Qed.

Lemma sub_app_l x y : sub x (x +:+ y).
Proof. intros c. rewrite has_char_app. by intros [-> _]%orb_false_elim. Qed.

Lemma sub_app_r x y : sub y (x +:+ y).
Proof. intros c. rewrite has_char_app. by intros [_ ->]%orb_false_elim. Qed.

Lemma sub_cons d x s : sub x s -> sub x (String d s).
Proof. intros H c. rewrite has_char_cons. intros [_ Hc]%orb_false_elim. auto. Qed.

Lemma sub_cons_cons d x s : sub x s -> sub (String d x) (String d s).
Proof.
  intros H c. rewrite !has_char_cons. intros [-> Hc]%orb_false_elim. simpl. auto.
Qed.

Lemma sub_nil s : sub EmptyString s.
Proof. by intros c. Qed.

Lemma sub_before c s : sub (before c s) s.
Proof.
  induction s as [|d s IH]; [apply sub_refl|]. simpl.
  destruct (Ascii.eqb d c); [apply sub_nil|by apply sub_cons_cons].
Qed.

Lemma sub_after c s : sub (after c s) s.
Proof.
  induction s as [|d s IH]; [apply sub_refl|]. simpl.
  destruct (Ascii.eqb d c); apply sub_cons; [apply sub_refl|done].
Qed.

Lemma sub_remove a s : sub (remove_char a s) s.
Proof.
  induction s as [|d s IH]; [apply sub_refl|]. simpl.
  destruct (Ascii.eqb d a); [by apply sub_cons|by apply sub_cons_cons].
Qed.

Lemma sub_lstrip p s : sub (lstrip_with p s) s.
Proof.
  induction s as [|d s IH]; [apply sub_refl|]. simpl.
  destruct (p d); [by apply sub_cons|apply sub_refl].
Qed.

Lemma sub_drop_breaks s : sub (drop_breaks s) s.
Proof.
  unfold drop_breaks.
  eapply sub_trans; [apply sub_remove|].
  eapply sub_trans; [apply sub_remove|]. apply sub_remove.
Qed.

Lemma sub_pre s : sub (pre s) s.
Proof. eapply sub_trans; [apply sub_drop_breaks|apply sub_lstrip]. Qed.

Lemma has_char_before c s : has_char c (before c s) = false.
Proof.
  induction s as [|d s IH]; [done|]. simpl.
  destruct (Ascii.eqb d c) eqn:E; [done|].
  rewrite has_char_cons, IH. by rewrite (eqb_sym_false _ _ E).
Qed.

Lemma splitnetloc_spec s :
  s = fst (splitnetloc s) +:+ snd (splitnetloc s)
  /\ forallb_str (fun c => negb (is_delim c)) (fst (splitnetloc s)) = true
  /\ match snd (splitnetloc s) with
     | EmptyString => True
     | String c _ => is_delim c = true
     end.
Proof.
  induction s as [|d s IH]; [done|]. simpl.
  destruct (is_delim d) eqn:E; [done|].
  destruct (splitnetloc s) as [a b]. simpl in *.
  destruct IH as (-> & Ha & Hb). rewrite E, Ha. done.
Qed.

Lemma splitnetloc_app n t :
  forallb_str (fun c => negb (is_delim c)) n = true ->
  match t with EmptyString => True | String c _ => is_delim c = true end ->
  splitnetloc (n +:+ t) = (n, t).
Proof.
  intros Hn Ht. induction n as [|d n IH].
  - destruct t as [|c t]; [done|]. simpl. by rewrite Ht.
  - simpl in Hn. apply andb_prop in Hn as [Hd Hn].
    rewrite str_app_cons. simpl. apply negb_true_iff in Hd. by rewrite Hd, (IH Hn).
Qed.

Lemma plain_intro s :
  has_char "?" s = false -> has_char "#" s = false -> plain s = true.
Proof. unfold plain. by intros -> ->. Qed.

Lemma plain_elim s :
  plain s = true -> has_char "?" s = false /\ has_char "#" s = false.
Proof.
  unfold plain. intros [H1 H2]%andb_prop.
  by apply negb_true_iff in H1, H2.
Qed.

Lemma plain_sub x s : sub x s -> plain s = true -> plain x = true.
Proof. intros H [H1 H2]%plain_elim. apply plain_intro; auto. Qed.

Lemma plain_app x y : plain (x +:+ y) = plain x && plain y.
Proof.
  unfold plain. rewrite !has_char_app.
  destruct (has_char "?" x), (has_char "#" x), (has_char "?" y), (has_char "#" y); done.
Qed.

Lemma plain_forallb p s :
  p "?"%char = false -> p "#"%char = false ->
  forallb_str p s = true -> plain s = true.
Proof.
  intros H1 H2 Hs. apply plain_intro; eapply has_char_false; eauto.
Qed.

(** *** The query of a URL *)

Lemma before_app_l c x y :
  has_char c x = false -> before c (x +:+ y) = x +:+ before c y.
Proof.
  induction x as [|d x IH]; [done|]. rewrite has_char_cons.
  intros [Hd Hx]%orb_false_elim. rewrite !str_app_cons. simpl.
  by rewrite (eqb_sym_false _ _ Hd), (IH Hx).
Qed.

Lemma after_app_l c x y :
  has_char c x = false -> after c (x +:+ y) = after c y.
Proof.
  induction x as [|d x IH]; [done|]. rewrite has_char_cons.
  intros [Hd Hx]%orb_false_elim. rewrite !str_app_cons. simpl.
  by rewrite (eqb_sym_false _ _ Hd), (IH Hx).
Qed.

Lemma query_of_skip x y : plain x = true -> query_of (x +:+ y) = query_of y.
Proof.
  intros [H1 H2]%plain_elim. unfold query_of.
  by rewrite before_app_l, after_app_l.
Qed.

Lemma before_after c s :
  has_char c s = true -> s = before c s +:+ String c (after c s).
Proof.
  induction s as [|d s IH]; [done|]. rewrite has_char_cons. simpl.
  destruct (Ascii.eqb_spec d c) as [->|Hne].
  - done.
  - assert (Ascii.eqb c d = false) as -> by (apply Ascii.eqb_neq; congruence).
    simpl. intros Hs. rewrite str_app_cons. by rewrite <- IH.
Qed.

Lemma lower_char_scheme c :
  scheme_char c = true ->
  scheme_char (lower_char c) = true
  /\ is_upper_char (lower_char c) = false
  /\ is_alpha_char (lower_char c) = is_alpha_char c.
Proof. destruct c as [[] [] [] [] [] [] [] []]; intros H; try discriminate H; done. Qed.

Lemma lower_scheme s :
  forallb_str scheme_char s = true ->
  forallb_str (fun c => scheme_char c && negb (is_upper_char c)) (lower s) = true.
Proof.
  induction s as [|c s IH]; [done|]. simpl. intros [Hc Hs]%andb_prop.
  destruct (lower_char_scheme c Hc) as (-> & -> & _). by rewrite IH.
Qed.

(** The text taken off by the scheme and by the network location holds no
    [?] and no [#]. *)
Lemma split_scheme_app u s r :
  split_scheme u = (s, r) -> exists x, u = x +:+ r /\ plain x = true.
Proof.
  unfold split_scheme. destruct (has_char ":" u) eqn:Hc.
  2:{ intros [= <- <-]. by exists EmptyString. }
  destruct (before ":" u) as [|c pre'] eqn:Hb.
  { intros [= <- <-]. by exists EmptyString. }
  destruct (is_alpha_char c && forallb_str scheme_char (String c pre')) eqn:Hs.
  2:{ intros [= <- <-]. by exists EmptyString. }
  intros [= <- <-]. exists (String c pre' +:+ ":"). split.
  - rewrite str_app_assoc. change (":" +:+ ?t) with (String ":" t).
    rewrite <- Hb. by apply before_after.
  - apply andb_prop in Hs as [_ Hs]. rewrite plain_app.
    rewrite (plain_forallb scheme_char); done.
Qed.

Lemma netloc_rest_app u n r :
  netloc_rest u = (n, r) -> exists x, u = x +:+ r /\ plain x = true.
Proof.
  unfold netloc_rest. destruct (startswith "//" u) eqn:Hs.
  2:{ intros [= <- <-]. by exists EmptyString. }
  destruct u as [|a [|b u]]; [done| |].
  { cbn [startswith] in Hs. by rewrite andb_false_r in Hs. }
  cbn [startswith] in Hs. apply andb_prop in Hs as [Ha Hb].
  apply andb_prop in Hb as [Hb _].
  apply Ascii.eqb_eq in Ha, Hb. subst a b.
  destruct (splitnetloc_spec u) as (Hu & Hn & _).
  intros E. rewrite E in Hu, Hn. simpl in Hu, Hn.
  exists ("//" +:+ n). split.
  - rewrite str_app_assoc. by rewrite <- Hu.
  - rewrite plain_app. rewrite (plain_forallb (fun c => negb (is_delim c)) n); done.
Qed.

Lemma urlsplit_query chk url r :
  urlsplit chk url = Ok r -> s_query r = query_of (pre url).
Proof.
  rewrite urlsplit_eq.
  destruct (split_scheme (pre url)) as [s u1] eqn:E1.
  destruct (netloc_rest u1) as [n u2] eqn:E2.
  destruct (netloc_ok chk n); [|done]. intros [= <-]. simpl.
  apply split_scheme_app in E1 as (x1 & -> & H1).
  apply netloc_rest_app in E2 as (x2 & -> & H2).
  by rewrite !query_of_skip.
Qed.

Lemma urlparse_query chk url p :
  urlparse chk url = Ok p -> query p = query_of (pre url).
Proof.
  unfold urlparse. destruct (urlsplit chk url) as [r|] eqn:E; [|done].
  destruct (if mem _ _ && _ then _ else _) as [a b]. intros [= <-]. simpl.
  by eapply urlsplit_query.
Qed.

(** *** What [urlparse] returns *)

Lemma urlparse_inv chk url p :
  urlparse chk url = Ok p ->
  exists u1 u2,
    split_scheme (pre url) = (scheme p, u1)
    /\ netloc_rest u1 = (netloc p, u2)
    /\ netloc_ok chk (netloc p) = true
    /\ param_split (scheme p) (before "?" (before "#" u2)) = (path p, params p)
    /\ query p = query_of u2
    /\ fragment p = after "#" u2.
Proof.
  unfold urlparse. rewrite urlsplit_eq.
  destruct (split_scheme (pre url)) as [s u1] eqn:E1.
  destruct (netloc_rest u1) as [n u2] eqn:E2.
  destruct (netloc_ok chk n) eqn:E3; [|done].
  cbn [s_scheme s_netloc s_path s_query s_fragment].
  fold (param_split s (before "?" (before "#" u2))).
  destruct (param_split s _) as [a b] eqn:E4. intros [= <-]. simpl.
  by exists u1, u2.
Qed.

Lemma last_segment_semicolon_app x a b :
  last_segment_semicolon x = Some (a, b) -> x = a +:+ String ";" b.
Proof.
  revert a b. induction x as [|c x IH]; [done|]. intros a b. simpl.
  destruct (has_char "/" x).
  - destruct (last_segment_semicolon x) as [[a' b']|]; [|done].
    intros [= <- <-]. rewrite str_app_cons. f_equal. by apply IH.
  - destruct (Ascii.eqb_spec c ";") as [->|_].
    + by intros [= <- <-].
    + destruct (last_segment_semicolon x) as [[a' b']|]; [|done].
      intros [= <- <-]. rewrite str_app_cons. f_equal. by apply IH.
Qed.

Lemma splitparams_app x a b :
  splitparams x = (a, b) ->
  x = a +:+ String ";" b \/ (a = x /\ b = EmptyString).
Proof.
  unfold splitparams. destruct (has_char "/" x).
  - destruct (last_segment_semicolon x) as [[a' b']|] eqn:E.
    + intros [= <- <-]. left. by apply last_segment_semicolon_app.
    + intros [= <- <-]. by right.
  - intros [= <- <-]. destruct (has_char ";" x) eqn:E.
    + left. by apply before_after.
    + right. by rewrite before_absent, after_absent.
Qed.

Lemma param_split_app s x a b :
  param_split s x = (a, b) ->
  x = a +:+ String ";" b \/ (a = x /\ b = EmptyString).
Proof.
  unfold param_split. destruct (mem s uses_params && has_char ";" x).
  - apply splitparams_app.
  - intros [= <- <-]. by right.
Qed.

Lemma param_split_sub s x a b :
  param_split s x = (a, b) -> sub a x /\ sub b x.
Proof.
  intros [->|[-> ->]]%param_split_app.
  - split; [apply sub_app_l|].
    eapply sub_trans; [|apply sub_app_r]. apply sub_cons, sub_refl.
  - split; [apply sub_refl|apply sub_nil].
Qed.

Lemma split_scheme_scheme u s r :
  split_scheme u = (s, r) ->
  forallb_str (fun c => scheme_char c && negb (is_upper_char c)) s = true.
Proof.
  unfold split_scheme. destruct (has_char ":" u); [|by intros [= <- <-]].
  destruct (before ":" u) as [|c pre']; [by intros [= <- <-]|].
  destruct (is_alpha_char c && forallb_str scheme_char (String c pre')) eqn:Hs;
    [|by intros [= <- <-]].
  intros [= <- <-]. apply andb_prop in Hs as [_ Hs].
  by apply (lower_scheme (String c pre')).
Qed.

Lemma netloc_rest_netloc u n r :
  netloc_rest u = (n, r) -> forallb_str (fun c => negb (is_delim c)) n = true.
Proof.
  unfold netloc_rest. destruct (startswith "//" u); [|by intros [= <- <-]].
  destruct u as [|a [|b u]]; try by intros [= <- <-].
  destruct (splitnetloc_spec u) as (_ & Hn & _). intros E. by rewrite E in Hn.
Qed.

Lemma urlparse_plain chk url p :
  urlparse chk url = Ok p ->
  plain (scheme p) = true /\ plain (netloc p) = true
  /\ plain (path p) = true /\ plain (params p) = true.
Proof.
  intros (u1 & u2 & E1 & E2 & _ & E4 & _)%urlparse_inv.
  apply split_scheme_scheme in E1. apply netloc_rest_netloc in E2.
  apply param_split_sub in E4 as [Ha Hb].
  assert (plain (before "?" (before "#" u2)) = true) as Hp.
  { apply plain_intro; [apply has_char_before|].
    apply sub_before, has_char_before. }
  split; [by apply (plain_forallb _ _ eq_refl eq_refl E1)|].
  split; [by apply (plain_forallb _ _ eq_refl eq_refl E2)|].
  split; eapply plain_sub; eauto.
Qed.

(** *** The query of a rebuilt URL *)

Lemma lstrip_app p x t :
  lstrip_with p t = t -> lstrip_with p (x +:+ t) = lstrip_with p x +:+ t.
Proof.
  intros Ht. induction x as [|c x IH]; [done|].
  rewrite str_app_cons. simpl. by destruct (p c).
Qed.

Lemma remove_char_app a x y :
  remove_char a (x +:+ y) = remove_char a x +:+ remove_char a y.
Proof.
  induction x as [|c x IH]; [done|]. rewrite str_app_cons. simpl.
  destruct (Ascii.eqb c a); [done|]. by rewrite str_app_cons, IH.
Qed.

Lemma drop_breaks_app x y : drop_breaks (x +:+ y) = drop_breaks x +:+ drop_breaks y.
Proof. unfold drop_breaks. by rewrite !remove_char_app. Qed.

Lemma remove_char_absent a s : has_char a s = false -> remove_char a s = s.
Proof.
  induction s as [|c s IH]; [done|]. rewrite has_char_cons.
  intros [Hc Hs]%orb_false_elim. simpl.
  by rewrite (eqb_sym_false _ _ Hc), (IH Hs).
Qed.

Lemma clean_elim s :
  clean s = true ->
  has_char "009" s = false /\ has_char "013" s = false /\ has_char "010" s = false.
Proof.
  unfold clean. intros [[H1 H2]%andb_prop H3]%andb_prop.
  by apply negb_true_iff in H1, H2, H3.
Qed.

Lemma clean_intro s :
  has_char "009" s = false -> has_char "013" s = false -> has_char "010" s = false ->
  clean s = true.
Proof. unfold clean. by intros -> -> ->. Qed.

Lemma drop_breaks_clean s : clean s = true -> drop_breaks s = s.
Proof.
  intros (H1 & H2 & H3)%clean_elim. unfold drop_breaks.
  by rewrite (remove_char_absent "009"), (remove_char_absent "013"),
    (remove_char_absent "010").
Qed.

Lemma clean_sub x s : sub x s -> clean s = true -> clean x = true.
Proof. intros H (H1 & H2 & H3)%clean_elim. apply clean_intro; auto. Qed.

Lemma clean_app x y : clean (x +:+ y) = clean x && clean y.
Proof.
  unfold clean. rewrite !has_char_app.
  destruct (has_char "009" x), (has_char "013" x), (has_char "010" x),
    (has_char "009" y), (has_char "013" y), (has_char "010" y); done.
Qed.

Lemma clean_forallb p s :
  p "009"%char = false -> p "013"%char = false -> p "010"%char = false ->
  forallb_str p s = true -> clean s = true.
Proof.
  intros H1 H2 H3 Hs. apply clean_intro; eapply has_char_false; eauto.
Qed.

Lemma query_of_tail q F :
  has_char "#" q = false -> before "#" F = EmptyString ->
  query_of (qpart q +:+ F) = q.
Proof.
  intros Hq HF. unfold query_of.
  assert (has_char "#" (qpart q) = false) as Hq'.
  { unfold qpart. destruct q; [done|]. cbn [is_empty negb].
    by rewrite has_char_app, Hq. }
  rewrite before_app_l, HF, str_app_nil_r by done.
  unfold qpart. by destruct q.
Qed.

Lemma plain_hier s n u :
  plain s = true -> plain n = true -> plain u = true -> plain (hier s n u) = true.
Proof.
  intros Hs Hn Hu. unfold hier.
  repeat match goal with
         | |- context [if ?b then _ else _] => destruct b
         end;
    rewrite ?plain_app, ?Hs, ?Hn, ?Hu; done.
Qed.

Lemma plain_with_params p :
  plain (path p) = true -> plain (params p) = true -> plain (with_params p) = true.
Proof.
  intros Ha Hb. unfold with_params, join_params.
  destruct (negb (is_empty (params p))); [|done].
  by rewrite !plain_app, Ha, Hb.
Qed.

Lemma fpart_before f : before "#" (fpart f) = EmptyString.
Proof. unfold fpart. by destruct f. Qed.

Lemma drop_breaks_fpart_before f : before "#" (drop_breaks (fpart f)) = EmptyString.
Proof. unfold fpart. by destruct f. Qed.

Lemma drop_breaks_qpart q : clean q = true -> drop_breaks (qpart q) = qpart q.
Proof.
  intros Hq. apply drop_breaks_clean. unfold qpart.
  destruct q; [done|]. cbn [is_empty negb]. by rewrite clean_app, Hq.
Qed.

Lemma lstrip_tail q f :
  lstrip_with c0_or_space (qpart q +:+ fpart f) = qpart q +:+ fpart f.
Proof. unfold qpart, fpart. destruct q; [destruct f|]; done. Qed.

Lemma query_of_unparse p :
  plain (scheme p) = true -> plain (netloc p) = true ->
  plain (path p) = true -> plain (params p) = true ->
  clean (query p) = true -> has_char "#" (query p) = false ->
  query_of (pre (urlunparse p)) = query p.
Proof.
  intros Hs Hn Ha Hb Hc Hq. rewrite urlunparse_eq. unfold pre.
  rewrite lstrip_app by apply lstrip_tail.
  rewrite !drop_breaks_app, drop_breaks_qpart by done.
  rewrite query_of_skip.
  - apply query_of_tail; [done|apply drop_breaks_fpart_before].
  - eapply plain_sub; [apply sub_pre|].
    apply plain_hier; [done..|]. by apply plain_with_params.
Qed.

Lemma query_chars_clean q : forallb_str query_char q = true -> clean q = true.
Proof. by apply clean_forallb. Qed.

Lemma query_chars_no_hash q :
  forallb_str query_char q = true -> has_char "#" q = false.
Proof. by apply has_char_false. Qed.

(** Parsing a rebuilt URL gives back the query that was put in. *)
Lemma reparse_query chk url p q p' :
  urlparse chk url = Ok p ->
  forallb_str query_char q = true ->
  urlparse chk (urlunparse (set_query p q)) = Ok p' ->
  query p' = q.
Proof.
  intros (Hs & Hn & Ha & Hb)%urlparse_plain Hq ->%urlparse_query.
  apply (query_of_unparse (set_query p q)); try done.
  - by apply query_chars_clean.
  - by apply query_chars_no_hash.
Qed.

(** *** Heads of texts *)

Lemma head_is_impl (p q : ascii -> bool) s :
  (forall c, p c = true -> q c = true) -> head_is p s = true -> head_is q s = true.
Proof. intros H. destruct s; [done|]. apply H. Qed.

Lemma tail_head q f : head_is tail_char (qpart q +:+ fpart f) = true.
Proof. unfold qpart, fpart. destruct q; [destruct f|]; done. Qed.

Lemma head_is_app p u t :
  head_is p u = true -> head_is p t = true -> head_is p (u +:+ t) = true.
Proof. destruct u; [done|]. by intros. Qed.

Lemma lstrip_head p s : head_is (fun c => negb (p c)) s = true -> lstrip_with p s = s.
Proof. destruct s as [|c s]; [done|]. simpl. by intros ->%negb_true_iff. Qed.

Lemma pre_id u :
  head_is printable u = true -> clean u = true -> pre u = u.
Proof.
  intros Hh Hc. unfold pre. rewrite lstrip_head by done. by apply drop_breaks_clean.
Qed.

(** *** Schemes *)

Lemma split_scheme_eq u :
  split_scheme u
  = if has_scheme u then (lower (before ":" u), after ":" u) else (EmptyString, u).
Proof.
  unfold split_scheme, has_scheme. destruct (has_char ":" u); [|done].
  destruct (before ":" u) as [|c pre']; [done|]. cbn [andb].
  by destruct (is_alpha_char c && _).
Qed.

Lemma lower_fixed s :
  forallb_str (fun c => scheme_char c && negb (is_upper_char c)) s = true ->
  lower s = s.
Proof.
  induction s as [|c s IH]; [done|]. simpl. intros [Hc Hs]%andb_prop.
  apply andb_prop in Hc as [_ Hc]. apply negb_true_iff in Hc.
  unfold lower_char. by rewrite Hc, (IH Hs).
Qed.

Lemma scheme_chars s :
  forallb_str (fun c => scheme_char c && negb (is_upper_char c)) s = true ->
  forallb_str scheme_char s = true.
Proof. apply forallb_str_impl. by intros c [? _]%andb_prop. Qed.

Lemma split_scheme_unparse s rest :
  is_scheme s = true -> split_scheme (s +:+ String ":" rest) = (s, rest).
Proof.
  intros Hs. destruct s as [|c s']; [done|].
  cbv beta iota delta [is_scheme] in Hs. apply andb_prop in Hs as [Hc Hs].
  assert (has_char ":" (String c s') = false) as Hcolon.
  { eapply has_char_false; [|exact Hs]. done. }
  rewrite split_scheme_eq. unfold has_scheme.
  rewrite before_app, after_app by done.
  rewrite has_char_app, has_char_cons. cbn [Ascii.eqb Bool.eqb].
  rewrite orb_true_r. cbn [andb]. rewrite Hc, (scheme_chars _ Hs). cbn [andb].
  by rewrite lower_fixed.
Qed.

Lemma before_app_has c u t :
  has_char c u = true -> before c (u +:+ t) = before c u.
Proof.
  induction u as [|d u IH]; [done|]. rewrite has_char_cons, str_app_cons. simpl.
  destruct (Ascii.eqb_spec d c) as [->|Hne]; [done|].
  assert (Ascii.eqb c d = false) as -> by (apply Ascii.eqb_neq; congruence).
  simpl. intros H. by rewrite IH.
Qed.

Lemma has_scheme_app u t :
  has_scheme u = false ->
  head_is (fun c => negb (scheme_char c) && negb (Ascii.eqb c ":")) t = true ->
  has_scheme (u +:+ t) = false.
Proof.
  intros Hu Ht. unfold has_scheme in *.
  destruct (has_char ":" u) eqn:Hc.
  - rewrite before_app_has by done. cbn [andb] in Hu. rewrite Hu. apply andb_false_r.
  - rewrite before_app_l by done.
    destruct t as [|c t].
    { rewrite str_app_nil_r. by rewrite Hc. }
    simpl in Ht. apply andb_prop in Ht as [Hs Hn].
    apply negb_true_iff in Hs, Hn. cbn [before]. rewrite Hn.
    destruct u as [|a u].
    + change (EmptyString +:+ ?x) with x. cbv beta iota.
      apply andb_false_intro2.
      unfold scheme_char in Hs. apply orb_false_elim in Hs as [Hs _].
      apply orb_false_elim in Hs as [Hs _]. apply orb_false_elim in Hs as [Hs _].
      apply orb_false_elim in Hs as [Hs _]. by rewrite Hs.
    + rewrite str_app_cons. cbv beta iota.
      apply andb_false_intro2. apply andb_false_intro2.
      rewrite <- str_app_cons, forallb_str_app. cbn [forallb_str]. rewrite Hs.
      apply andb_false_r.
Qed.

Lemma has_scheme_slash t : has_scheme (String "/" t) = false.
Proof. unfold has_scheme. cbn. apply andb_false_r. Qed.

(** *** Network locations and paths *)

Lemma netloc_rest_slashes n t :
  forallb_str (fun c => negb (is_delim c)) n = true ->
  head_is is_delim t = true ->
  netloc_rest ("//" +:+ n +:+ t) = (n, t).
Proof.
  intros Hn Ht. change ("//" +:+ ?x) with (String "/" (String "/" x)).
  unfold netloc_rest. cbn [startswith Ascii.eqb Bool.eqb andb].
  apply splitnetloc_app; [done|]. by destruct t.
Qed.

Lemma netloc_rest_none x : startswith "//" x = false -> netloc_rest x = (EmptyString, x).
Proof. unfold netloc_rest. by intros ->. Qed.

Lemma startswith2_app u t :
  startswith "//" u = false ->
  head_is (fun c => negb (Ascii.eqb c "/")) t = true ->
  startswith "//" (u +:+ t) = false.
Proof.
  intros Hu Ht.
  assert (startswith "/" t = false \/ t = EmptyString) as Ht'.
  { destruct t as [|c t]; [by right|left]. simpl in Ht. apply negb_true_iff in Ht.
    cbn [startswith]. by rewrite (eqb_sym_false _ _ Ht). }
  destruct u as [|a [|b u]].
  - change (EmptyString +:+ t) with t. destruct Ht' as [Ht'| ->]; [|done].
    destruct t as [|c t]; [done|]. cbn [startswith] in *.
    apply andb_false_iff in Ht' as [->|Ht']; [done|]. done.
  - rewrite str_app_cons. change (EmptyString +:+ t) with t. cbn [startswith].
    destruct Ht' as [Ht'| ->]; [|apply andb_false_r].
    destruct t as [|c t]; [apply andb_false_r|]. cbn [startswith] in Ht'.
    apply andb_false_iff in Ht' as [Ht'|Ht']; [|done].
    rewrite Ht'. apply andb_false_r.
  - rewrite !str_app_cons. exact Hu.
Qed.

Lemma tail_parts u q f :
  plain u = true -> has_char "#" q = false ->
  before "?" (before "#" (u +:+ qpart q +:+ fpart f)) = u
  /\ query_of (u +:+ qpart q +:+ fpart f) = q
  /\ after "#" (u +:+ qpart q +:+ fpart f) = f.
Proof.
  intros Hu Hq. pose proof Hu as [H1 H2]%plain_elim.
  assert (has_char "#" (qpart q) = false) as Hq'.
  { unfold qpart. destruct q; [done|]. cbn [is_empty negb].
    by rewrite has_char_app, Hq. }
  split; [|split].
  - rewrite <- str_app_assoc, before_app_l, fpart_before, str_app_nil_r
      by (by rewrite has_char_app, H2, Hq').
    rewrite before_app_l by done.
    assert (before "?" (qpart q) = EmptyString) as -> by (unfold qpart; by destruct q).
    apply str_app_nil_r.
  - rewrite query_of_skip by done. apply query_of_tail; [done|apply fpart_before].
  - rewrite <- str_app_assoc, after_app_l by (by rewrite has_char_app, H2, Hq').
    unfold fpart. by destruct f.
Qed.

Lemma urlsplit_of chk w s u1 n u2 q f :
  pre w = w -> split_scheme w = (s, u1) ->
  netloc_rest u1 = (n, u2 +:+ qpart q +:+ fpart f) ->
  netloc_ok chk n = true -> plain u2 = true -> has_char "#" q = false ->
  urlsplit chk w = Ok (mkSplit s n u2 q f).
Proof.
  intros Hw Hs Hn Hb Hu Hq. rewrite urlsplit_eq, Hw, Hs, Hn, Hb.
  destruct (tail_parts u2 q f Hu Hq) as (-> & -> & ->). done.
Qed.

Lemma netloc_ok_empty chk : netloc_ok chk EmptyString = true.
Proof. reflexivity. Qed.

Lemma tail_clean q f :
  clean q = true -> clean f = true -> clean (qpart q +:+ fpart f) = true.
Proof.
  intros Hq Hf. unfold qpart, fpart. rewrite clean_app.
  destruct q, f; cbn [is_empty negb]; rewrite ?clean_app, ?Hq, ?Hf; done.
Qed.

Lemma is_scheme_facts s :
  is_scheme s = true ->
  clean s = true /\ plain s = true
  /\ head_is printable s = true.
Proof.
  destruct s as [|c s']; [done|]. cbv beta iota delta [is_scheme].
  intros [Hc Hs]%andb_prop. split; [|split].
  - eapply clean_forallb; [..|exact Hs]; done.
  - eapply plain_forallb; [..|exact Hs]; done.
  - simpl. clear Hs. by destruct c as [[] [] [] [] [] [] [] []].
Qed.

Lemma urlsplit_unparse chk s n u q f :
  (is_empty s || is_scheme s) = true ->
  forallb_str (fun c => negb (is_delim c)) n = true ->
  netloc_ok chk n = true ->
  plain u = true ->
  (is_empty n || is_empty u || startswith "/" u) = true ->
  (negb (is_empty n) || negb (startswith "//" u)) = true ->
  (negb (is_empty s) || negb (is_empty n)
   || (negb (has_scheme u) && head_is printable u)) = true ->
  clean n = true -> clean u = true -> clean q = true -> clean f = true ->
  has_char "#" q = false ->
  urlsplit chk (hier s n u +:+ qpart q +:+ fpart f)
  = Ok (mkSplit s n (norm_path s n u) q f).
Proof.
  intros Hs Hn Hbr Hu Habs Hroot Hrel Cn Cu Cq Cf Hq.
  pose proof (tail_head q f) as HT. pose proof (tail_clean q f Cq Cf) as CT.
  set (T := qpart q +:+ fpart f) in *.
  assert (forall x, (x +:+ qpart q +:+ fpart f) = x +:+ T) as HTT by done.
  assert (head_is is_delim T = true) as HTd.
  { eapply head_is_impl; [|exact HT]. intros c. unfold tail_char, is_delim.
    intros [-> | ->]%orb_prop; [by rewrite orb_true_r|by rewrite !orb_true_r]. }
  assert (head_is printable T = true) as HT0.
  { eapply head_is_impl; [|exact HT]. intros c. unfold tail_char.
    intros [->%Ascii.eqb_eq| ->%Ascii.eqb_eq]%orb_prop; done. }
  assert (head_is (fun c => negb (Ascii.eqb c "/")) T = true) as HTs.
  { eapply head_is_impl; [|exact HT]. intros c. unfold tail_char.
    intros [->%Ascii.eqb_eq| ->%Ascii.eqb_eq]%orb_prop; done. }
  assert (head_is (fun c => negb (scheme_char c) && negb (Ascii.eqb c ":")) T = true) as HTc.
  { eapply head_is_impl; [|exact HT]. intros c. unfold tail_char.
    intros [->%Ascii.eqb_eq| ->%Ascii.eqb_eq]%orb_prop; done. }
  assert (forall x, (is_empty x || startswith "/" x) = true ->
                    head_is is_delim (x +:+ T) = true) as Hdelim.
  { intros [|c x]; [done|]. cbn [is_empty orb startswith].
    intros [<-%Ascii.eqb_eq _]%andb_prop. done. }
  destruct n as [|d n'] eqn:En.
  - (* no network location *)
    cbn [is_empty negb orb] in Habs, Hroot, Hrel.
    apply negb_true_iff in Hroot.
    destruct s as [|c s'] eqn:Es.
    + (* no scheme *)
      cbn [is_empty negb orb] in Hrel. apply andb_prop in Hrel as [Hsch Hh].
      apply negb_true_iff in Hsch. 
      assert (hier EmptyString EmptyString u = u) as -> by done.
      assert (norm_path EmptyString EmptyString u = u) as -> by done.
      apply urlsplit_of with (u1 := u +:+ T); rewrite ?HTT; try done.
      * apply pre_id; [|by rewrite clean_app, Cu, CT].
        destruct u as [|a u']; [done|]. exact Hh.
      * rewrite split_scheme_eq. by rewrite has_scheme_app.
      * apply netloc_rest_none. by apply startswith2_app.
    + (* a scheme *)
      rewrite <- Es in *. assert (is_scheme s = true) as Hsc by (by subst s).
      destruct (is_scheme_facts s Hsc) as (Cs & Ps & Hs0).
      assert (negb (is_empty s) = true) as Hne by (by subst s).
      destruct (mem s uses_netloc) eqn:Hm.
      * set (u' := norm_path s EmptyString u).
        assert (hier s EmptyString u = s +:+ ":" +:+ "//" +:+ u') as ->.
        { unfold hier, u', norm_path. cbn [is_empty negb orb andb].
          rewrite Hne, Hm, Hroot. cbn [negb andb]. done. }
        assert ((is_empty u' || startswith "/" u') = true) as Hu'.
        { unfold u', norm_path. cbn [is_empty andb]. rewrite Hne, Hm. cbn [andb].
          destruct u as [|a u0]; [done|]. cbn [is_empty negb andb orb].
          destruct (startswith "/" (String a u0)) eqn:E; cbn [negb];
            [by rewrite E|reflexivity]. }
        assert (plain u' = true /\ clean u' = true) as [Pu' Cu'].
        { unfold u', norm_path.
          match goal with |- context [if ?b then _ else _] => destruct b end;
            [|by split].
          split; [by rewrite plain_app, Hu|by rewrite clean_app, Cu]. }
        apply urlsplit_of with (u1 := "//" +:+ u' +:+ T); rewrite ?HTT; try done.
        -- apply pre_id.
           ++ destruct s; done.
           ++ rewrite !clean_app, Cs, Cu', CT. done.
        -- rewrite !str_app_assoc. change (":" +:+ ?x) with (String ":" x).
           by apply split_scheme_unparse.
        -- apply (netloc_rest_slashes EmptyString); [done|]. by apply Hdelim.
      * assert (hier s EmptyString u = s +:+ ":" +:+ u) as ->.
        { unfold hier. cbn [is_empty negb orb andb]. by rewrite Hne, Hm. }
        assert (norm_path s EmptyString u = u) as ->.
        { unfold norm_path. cbn [is_empty negb orb andb]. by rewrite Hne, Hm. }
        apply urlsplit_of with (u1 := u +:+ T); rewrite ?HTT; try done.
        -- apply pre_id.
           ++ destruct s; done.
           ++ rewrite !clean_app, Cs, Cu, CT. done.
        -- rewrite !str_app_assoc. change (":" +:+ ?x) with (String ":" x).
           by apply split_scheme_unparse.
        -- apply netloc_rest_none. by apply startswith2_app.
  - (* a network location *)
    rewrite <- En in *. assert (is_empty n = false) as Hne by (by subst n).
    rewrite Hne in Habs. cbn [orb] in Habs.
    assert (norm_path s n u = u) as -> by (unfold norm_path; by rewrite Hne).
    assert (hier s n u
            = (if negb (is_empty s) then s +:+ ":" +:+ "//" +:+ n +:+ u
               else "//" +:+ n +:+ u)) as ->.
    { unfold hier. rewrite Hne. cbn [negb orb].
      destruct u as [|a u0]; [done|]. cbn [is_empty orb] in Habs.
      rewrite Habs. done. }
    destruct s as [|c s'] eqn:Es.
    + cbn [is_empty negb].
      apply urlsplit_of with (u1 := "//" +:+ n +:+ u +:+ T); rewrite ?HTT; try done.
      * apply pre_id; [done|]. rewrite !clean_app, Cn, Cu, CT. done.
      * rewrite split_scheme_eq, !str_app_assoc.
        change ("//" +:+ ?x) with (String "/" (String "/" x)).
        by rewrite has_scheme_slash.
      * rewrite ?str_app_assoc. apply netloc_rest_slashes; [done|]. by apply Hdelim.
    + rewrite <- Es in *. assert (is_scheme s = true) as Hsc by (by subst s).
      destruct (is_scheme_facts s Hsc) as (Cs & Ps & Hs0).
      assert (negb (is_empty s) = true) as -> by (by subst s).
      apply urlsplit_of with (u1 := "//" +:+ n +:+ u +:+ T); rewrite ?HTT; try done.
      * apply pre_id.
        -- destruct s; done.
        -- rewrite !clean_app, Cs, Cn, Cu, CT. done.
      * rewrite !str_app_assoc. change (":" +:+ ?x) with (String ":" x).
        by apply split_scheme_unparse.
      * rewrite ?str_app_assoc. apply netloc_rest_slashes; [done|]. by apply Hdelim.
Qed.

(** *** Parameters of the last path segment *)

Lemma after_last_absent c s : has_char c s = false -> after_last c s = s.
Proof.
  destruct s as [|d s]; [done|]. rewrite has_char_cons.
  intros [Hd Hs]%orb_false_elim. simpl. fold (has_char c s).
  by rewrite Hs, (eqb_sym_false _ _ Hd).
Qed.

Lemma last_segment_cons c a :
  last_segment (String c a)
  = if has_char "/" a then last_segment a
    else if Ascii.eqb c "/" then a else String c a.
Proof. reflexivity. Qed.

Lemma last_segment_semicolon_none a :
  has_char ";" (last_segment a) = false -> last_segment_semicolon a = None.
Proof.
  induction a as [|c a IH]; [done|]. rewrite last_segment_cons. simpl.
  destruct (has_char "/" a) eqn:Hs.
  - intros H. by rewrite IH.
  - unfold last_segment in IH. rewrite after_last_absent in IH by done.
    destruct (Ascii.eqb_spec c "/") as [->|Hc].
    + intros H. by rewrite IH.
    + rewrite has_char_cons. intros [Hc' Ha]%orb_false_elim.
      rewrite (eqb_sym_false _ _ Hc'). by rewrite IH.
Qed.

Lemma last_segment_semicolon_some a b :
  has_char "/" b = false -> has_char ";" (last_segment a) = false ->
  last_segment_semicolon (a +:+ String ";" b) = Some (a, b).
Proof.
  intros Hb. induction a as [|c a IH].
  - intros _. simpl. by rewrite Hb.
  - rewrite last_segment_cons, str_app_cons. simpl.
    rewrite has_char_app, has_char_cons, Hb. cbn [Ascii.eqb Bool.eqb orb].
    rewrite orb_false_r.
    destruct (has_char "/" a) eqn:Hs.
    + intros H. by rewrite IH.
    + unfold last_segment in IH. rewrite after_last_absent in IH by done.
      destruct (Ascii.eqb_spec c "/") as [->|Hc].
      * intros H. by rewrite IH.
      * rewrite has_char_cons. intros [Hc' Ha]%orb_false_elim.
        rewrite (eqb_sym_false _ _ Hc'). by rewrite IH.
Qed.

Lemma param_split_stable s a b :
  (if mem s uses_params
   then negb (has_char "/" b) && negb (has_char ";" (last_segment a))
   else is_empty b) = true ->
  param_split s (join_params a b) = (a, b).
Proof.
  unfold param_split, join_params. destruct (mem s uses_params).
  - intros [Hb Ha]%andb_prop. apply negb_true_iff in Hb, Ha. cbn [andb].
    destruct b as [|c b']; cbn [is_empty negb].
    + destruct (has_char ";" a) eqn:Hsc; [|done].
      unfold splitparams. destruct (has_char "/" a) eqn:Hsl.
      * by rewrite last_segment_semicolon_none.
      * unfold last_segment in Ha. rewrite after_last_absent in Ha by done.
        congruence.
    + change (";" +:+ ?x) with (String ";" x).
      rewrite has_char_app, has_char_cons. cbn [Ascii.eqb Bool.eqb orb].
      rewrite orb_true_r. unfold splitparams.
      destruct (has_char "/" (a +:+ String ";" (String c b'))) eqn:Hsl.
      * by rewrite last_segment_semicolon_some.
      * rewrite has_char_app in Hsl. apply orb_false_elim in Hsl as [Hsl _].
        unfold last_segment in Ha. rewrite after_last_absent in Ha by done.
        by rewrite before_app, after_app.
  - destruct b; [|done]. intros _. done.
Qed.

Lemma join_params_slash a b : join_params ("/" +:+ a) b = "/" +:+ join_params a b.
Proof. unfold join_params. destruct (negb (is_empty b)); [|done]. by rewrite str_app_assoc. Qed.

Lemma last_segment_slash a :
  has_char ";" (last_segment a) = false ->
  has_char ";" (last_segment ("/" +:+ a)) = false.
Proof.
  change ("/" +:+ a) with (String "/" a). rewrite last_segment_cons.
  destruct (has_char "/" a) eqn:E; [done|].
  unfold last_segment. by rewrite after_last_absent.
Qed.

(** *** Rebuilding after a second parse *)

Lemma hier_norm s n u :
  (negb (is_empty n) || negb (startswith "//" u)) = true ->
  hier s n (norm_path s n u) = hier s n u.
Proof.
  unfold norm_path.
  destruct (is_empty n && negb (is_empty s) && mem s uses_netloc
            && negb (is_empty u) && negb (startswith "/" u)) eqn:E; [|done].
  apply andb_prop in E as [E Hsl]. apply andb_prop in E as [E Hu].
  apply andb_prop in E as [E Hm]. apply andb_prop in E as [Hn Hs].
  intros _. unfold hier. rewrite Hs, Hm, Hu, Hsl.
  destruct n; [|done]. cbn [is_empty negb orb andb].
  destruct u as [|a u]; [done|].
  change ("/" +:+ ?x) with (String "/" x).
  cbn [startswith] in Hsl |- *.
  apply negb_true_iff in Hsl. apply andb_false_iff in Hsl as [Hsl|Hsl]; [|done].
  rewrite Hsl, ?Ascii.eqb_refl. cbn [andb negb is_empty orb]. done.
Qed.

Lemma plain_join_params a b :
  plain a = true -> plain b = true -> plain (join_params a b) = true.
Proof.
  intros Ha Hb. unfold join_params. destruct (negb (is_empty b)); [|done].
  by rewrite !plain_app, Ha, Hb.
Qed.

Lemma clean_join_params a b :
  clean a = true -> clean b = true -> clean (join_params a b) = true.
Proof.
  intros Ha Hb. unfold join_params. destruct (negb (is_empty b)); [|done].
  by rewrite !clean_app, Ha, Hb.
Qed.

(** A stable parse result is rebuilt and parsed to a result that is rebuilt
    to the same URL. *)
Lemma stable_reparse chk p :
  stable chk p = true ->
  exists a2,
    urlparse chk (urlunparse p)
    = Ok (mkParse (scheme p) (netloc p) a2 (params p) (query p) (fragment p))
    /\ urlunparse (mkParse (scheme p) (netloc p) a2 (params p) (query p) (fragment p))
       = urlunparse p.
Proof.
  unfold stable. cbv zeta.
  intros H.
  repeat match type of H with
         | _ && _ = true => let H' := fresh "H" in apply andb_prop in H as [H H']
         end.
  rename H into Hs, H13 into Hn, H12 into Hbr, H11 into Pa, H10 into Pb,
    H9 into Habs, H8 into Hroot, H7 into Hrel, H6 into Hpar, H5 into Cn,
    H4 into Ca, H3 into Cb, H2 into Cq, H1 into Cf, H0 into Hq.
  apply negb_true_iff in Hq.
  destruct p as [s n a b q f]. unfold with_params in *.
  cbn [scheme netloc path params query fragment] in *.
  set (a2 := if is_empty n && negb (is_empty s) && mem s uses_netloc
                && negb (is_empty (join_params a b))
                && negb (startswith "/" (join_params a b))
             then "/" +:+ a else a).
  assert (norm_path s n (join_params a b) = join_params a2 b) as Hnorm.
  { unfold norm_path, a2. destruct (_ && negb (startswith "/" (join_params a b))); [|done].
    by rewrite join_params_slash. }
  exists a2. split.
  - rewrite urlunparse_eq. unfold with_params.
    cbn [scheme netloc path params query fragment].
    unfold urlparse.
    rewrite urlsplit_unparse; try done;
      [|by apply plain_join_params|by apply clean_join_params].
    cbn [s_scheme s_netloc s_path s_query s_fragment].
    fold (param_split s (norm_path s n (join_params a b))).
    rewrite Hnorm, param_split_stable; [done|].
    destruct (mem s uses_params); [|done].
    apply andb_prop in Hpar as [Hb Ha]. rewrite Hb. cbn [andb].
    unfold a2. destruct (_ && negb (startswith "/" (join_params a b))); [|done].
    apply negb_true_iff in Ha. by rewrite last_segment_slash.
  - rewrite !urlunparse_eq. unfold with_params.
    cbn [scheme netloc path params query fragment].
    by rewrite <- Hnorm, hier_norm.
Qed.

(** *** A parse result is stable *)

Lemma has_char_remove a s : has_char a (remove_char a s) = false.
Proof.
  induction s as [|c s IH]; [done|]. simpl.
  destruct (Ascii.eqb c a) eqn:E; [done|].
  by rewrite has_char_cons, (eqb_sym_false _ _ E), IH.
Qed.

Lemma clean_pre url : clean (pre url) = true.
Proof.
  unfold pre, drop_breaks. apply clean_intro.
  - do 2 apply sub_remove. apply has_char_remove.
  - apply sub_remove. apply has_char_remove.
  - apply has_char_remove.
Qed.

Lemma head_lstrip p s : head_is (fun c => negb (p c)) (lstrip_with p s) = true.
Proof.
  induction s as [|c s IH]; [done|]. simpl.
  destruct (p c) eqn:E; [done|]. simpl. by rewrite E.
Qed.

Lemma head_remove a s :
  c0_or_space a = true ->
  head_is printable s = true -> head_is printable (remove_char a s) = true.
Proof.
  intros Ha. destruct s as [|c s]; [done|]. simpl. intros Hc.
  destruct (Ascii.eqb_spec c a) as [->|_]; [|done].
  unfold printable in Hc. by rewrite Ha in Hc.
Qed.

Lemma head_pre url : head_is printable (pre url) = true.
Proof.
  unfold pre, drop_breaks. do 3 (apply head_remove; [done|]). apply head_lstrip.
Qed.

Lemma head_is_prefix p u t : head_is p (u +:+ t) = true -> head_is p u = true.
Proof. by destruct u. Qed.

Lemma has_scheme_prefix u t : has_scheme (u +:+ t) = false -> has_scheme u = false.
Proof.
  unfold has_scheme. destruct (has_char ":" u) eqn:E; [|done].
  by rewrite has_char_app, E, before_app_has.
Qed.

Lemma before_prefix c s : exists t, s = before c s +:+ t.
Proof.
  destruct (has_char c s) eqn:E.
  - eexists. by apply before_after.
  - exists EmptyString. by rewrite before_absent, str_app_nil_r.
Qed.

Lemma split_scheme_facts w s u1 :
  split_scheme w = (s, u1) ->
  (is_empty s || is_scheme s) = true
  /\ sub u1 w
  /\ (is_empty s = true -> has_scheme w = false /\ u1 = w).
Proof.
  rewrite split_scheme_eq. destruct (has_scheme w) eqn:E.
  2:{ intros [= <- <-]. split; [done|]. split; [apply sub_refl|done]. }
  intros [= <- <-]. unfold has_scheme in E. apply andb_prop in E as [_ E].
  destruct (before ":" w) as [|c pre'] eqn:Eb; [done|].
  apply andb_prop in E as [Hc Hs].
  assert (is_scheme (lower (String c pre')) = true) as Hsc.
  { pose proof (lower_scheme _ Hs) as Hl. cbn [lower] in *.
    cbv beta iota delta [is_scheme]. rewrite Hl, andb_true_r.
    cbn [forallb_str] in Hs. apply andb_prop in Hs as [Hs _].
    destruct (lower_char_scheme c Hs) as (_ & _ & ->). done. }
  split; [by rewrite Hsc, orb_true_r|]. split; [apply sub_after|].
  by destruct (lower (String c pre')).
Qed.

Lemma netloc_rest_facts u1 n u2 :
  netloc_rest u1 = (n, u2) ->
  (n = EmptyString /\ u2 = u1 /\ startswith "//" u1 = false)
  \/ (u1 = "//" +:+ n +:+ u2
      /\ forallb_str (fun c => negb (is_delim c)) n = true
      /\ head_is is_delim u2 = true).
Proof.
  unfold netloc_rest. destruct (startswith "//" u1) eqn:Hs.
  2:{ intros [= <- <-]. by left. }
  destruct u1 as [|a [|b u]]; [done| |].
  { cbn [startswith] in Hs. by rewrite andb_false_r in Hs. }
  cbn [startswith] in Hs. apply andb_prop in Hs as [Ha Hb].
  apply andb_prop in Hb as [Hb _].
  apply Ascii.eqb_eq in Ha, Hb. subst a b.
  destruct (splitnetloc_spec u) as (Hu & Hn & Hd).
  intros E. rewrite E in Hu, Hn, Hd. simpl in Hu, Hn, Hd. right.
  split; [by rewrite Hu at 1|]. split; [done|]. by destruct u2.
Qed.

Lemma netloc_rest_sub u1 n u2 :
  netloc_rest u1 = (n, u2) -> sub n u1 /\ sub u2 u1.
Proof.
  intros [(-> & -> & _)|(-> & _ & _)]%netloc_rest_facts.
  - split; [apply sub_nil|apply sub_refl].
  - split.
    + eapply sub_trans; [|apply sub_app_r]. apply sub_app_l.
    + eapply sub_trans; [|apply sub_app_r]. apply sub_app_r.
Qed.

Lemma path0_head u2 :
  head_is is_delim u2 = true ->
  (is_empty (before "?" (before "#" u2))
   || startswith "/" (before "?" (before "#" u2))) = true.
Proof.
  destruct u2 as [|c u]; [done|]. cbn [head_is]. unfold is_delim.
  intros [[H|H]%orb_prop|H]%orb_prop; apply Ascii.eqb_eq in H; subst c; done.
Qed.

Lemma path0_prefix u2 : exists t, u2 = before "?" (before "#" u2) +:+ t.
Proof.
  destruct (before_prefix "#" u2) as [t1 H1].
  destruct (before_prefix "?" (before "#" u2)) as [t2 H2].
  exists (t2 +:+ t1). by rewrite <- str_app_assoc, <- H2.
Qed.

Lemma param_split_join s x a b :
  param_split s x = (a, b) ->
  join_params a b = x \/ x = join_params a b +:+ ";".
Proof.
  intros [->|[-> ->]]%param_split_app; unfold join_params.
  - destruct b; [by right|by left].
  - by left.
Qed.

Lemma sub_after_last c s : sub (after_last c s) s.
Proof.
  induction s as [|d s IH]; [apply sub_refl|]. simpl. fold (has_char c s).
  destruct (has_char c s); [by apply sub_cons|].
  destruct (Ascii.eqb d c); [apply sub_cons|]; apply sub_refl.
Qed.

Lemma last_segment_semicolon_elim x :
  match last_segment_semicolon x with
  | Some (a, b) => has_char "/" b = false /\ has_char ";" (last_segment a) = false
  | None => has_char ";" (last_segment x) = false
  end.
Proof.
  induction x as [|c x IH]; [done|]. rewrite last_segment_cons. simpl.
  destruct (has_char "/" x) eqn:Hs.
  - destruct (last_segment_semicolon x) as [[a b]|] eqn:E; [|done].
    destruct IH as [Hb Ha]. split; [done|].
    rewrite last_segment_cons.
    apply last_segment_semicolon_app in E. subst x.
    rewrite has_char_app, has_char_cons, Hb in Hs. cbn [Ascii.eqb Bool.eqb orb] in Hs.
    rewrite orb_false_r in Hs. by rewrite Hs.
  - unfold last_segment in IH. rewrite after_last_absent in IH by done.
    destruct (Ascii.eqb_spec c ";") as [->|Hc].
    + done.
    + destruct (last_segment_semicolon x) as [[a b]|] eqn:E.
      * destruct IH as [Hb Ha]. split; [done|].
        apply last_segment_semicolon_app in E. subst x.
        rewrite has_char_app in Hs. apply orb_false_elim in Hs as [Hs _].
        rewrite last_segment_cons, Hs.
        unfold last_segment in Ha. rewrite after_last_absent in Ha by done.
        destruct (Ascii.eqb c "/"); [done|].
        rewrite has_char_cons, Ha, orb_false_r.
        apply Ascii.eqb_neq. congruence.
      * destruct (Ascii.eqb c "/"); [done|].
        rewrite has_char_cons, IH, orb_false_r.
        apply Ascii.eqb_neq. congruence.
Qed.

Lemma param_split_cond s x a b :
  param_split s x = (a, b) ->
  (if mem s uses_params
   then negb (has_char "/" b) && negb (has_char ";" (last_segment a))
   else is_empty b) = true.
Proof.
  unfold param_split. destruct (mem s uses_params); cbn [andb].
  2:{ by intros [= <- <-]. }
  destruct (has_char ";" x) eqn:Hsc.
  2:{ intros [= <- <-]. cbn [has_char existsb_str negb andb].
      apply negb_true_iff. by apply sub_after_last. }
  unfold splitparams. destruct (has_char "/" x) eqn:Hsl.
  - pose proof (last_segment_semicolon_elim x) as H.
    destruct (last_segment_semicolon x) as [[a' b']|].
    + intros [= <- <-]. destruct H as [-> ->]. done.
    + intros [= <- <-]. by rewrite H.
  - intros [= <- <-].
    rewrite (sub_after ";" x "/"%char Hsl). cbn [negb andb].
    unfold last_segment. rewrite after_last_absent by (by apply sub_before).
    by rewrite has_char_before.
Qed.

Lemma startswith2_join a b :
  startswith "//" (join_params a b) = startswith "//" a.
Proof.
  unfold join_params. destruct (negb (is_empty b)); [|done].
  destruct a as [|c [|d a]]; [done| |done].
  change (String c EmptyString +:+ ";" +:+ b) with (String c (String ";" b)).
  cbn [startswith]. rewrite andb_false_r. cbn. by rewrite andb_false_r.
Qed.

Lemma rooted_join x u :
  (is_empty x || startswith "/" x) = true ->
  u = x \/ x = u +:+ ";" ->
  (is_empty u || startswith "/" u) = true.
Proof.
  intros Hx [-> | ->]; [done|]. destruct u as [|c u]; [done|].
  by rewrite str_app_cons in Hx.
Qed.

Lemma urlparse_stable chk url p q :
  urlparse chk url = Ok p ->
  rooted p = true ->
  forallb_str query_char q = true ->
  stable chk (set_query p q) = true.
Proof.
  intros (u1 & u2 & E1 & E2 & E3 & E4 & _ & E6)%urlparse_inv Hrooted Hq.
  destruct p as [s n a b q0 f]. unfold rooted in Hrooted.
  cbn [scheme netloc path params query fragment] in *.
  set (x := before "?" (before "#" u2)) in *.
  destruct (split_scheme_facts _ _ _ E1) as (Hs & Hsub1 & Hnos).
  pose proof (netloc_rest_netloc _ _ _ E2) as Hn.
  destruct (netloc_rest_sub _ _ _ E2) as [Hsubn Hsub2].
  destruct (param_split_sub _ _ _ _ E4) as [Hsuba Hsubb].
  pose proof (param_split_join _ _ _ _ E4) as Hjoin.
  pose proof (param_split_cond _ _ _ _ E4) as Hpar.
  assert (plain x = true) as Px.
  { apply plain_intro; [apply has_char_before|]. apply sub_before, has_char_before. }
  assert (clean u2 = true) as Cu2.
  { eapply clean_sub; [exact Hsub2|]. eapply clean_sub; [exact Hsub1|]. apply clean_pre. }
  assert (clean x = true) as Cx.
  { eapply clean_sub; [|exact Cu2]. eapply sub_trans; apply sub_before. }
  assert (clean n = true) as Cn.
  { eapply clean_sub; [exact Hsubn|]. eapply clean_sub; [exact Hsub1|]. apply clean_pre. }
  assert (clean f = true) as Cf.
  { subst f. eapply clean_sub; [apply sub_after|exact Cu2]. }
  assert ((is_empty n || is_empty (join_params a b) || startswith "/" (join_params a b))
          = true) as Habs.
  { apply netloc_rest_facts in E2 as [(-> & _)|(_ & _ & Hd)]; [done|].
    rewrite <- orb_assoc. apply orb_true_intro. right.
    apply (rooted_join x); [by apply path0_head|].
    destruct Hjoin as [-> | ->]; [by left|by right]. }
  assert ((negb (is_empty n) || negb (startswith "//" (join_params a b))) = true) as Hroot.
  { rewrite startswith2_join. by rewrite <- negb_andb. }
  assert ((negb (is_empty s) || negb (is_empty n)
           || (negb (has_scheme (join_params a b)) && head_is printable (join_params a b)))
          = true) as Hrel.
  { destruct s as [|c s']; [|done]. destruct n as [|d n']; [|done].
    cbn [is_empty negb orb]. destruct (Hnos eq_refl) as [Hw ->].
    apply netloc_rest_facts in E2 as [(_ & -> & _)|(_ & _ & Hd)].
    - destruct (path0_prefix (pre url)) as [t Ht]. fold x in Ht.
      assert (exists t', pre url = join_params a b +:+ t') as [t' Ht'].
      { destruct Hjoin as [->| Hx]; [by exists t|].
        exists (";" +:+ t). by rewrite <- str_app_assoc, <- Hx. }
      rewrite Ht' in Hw. rewrite (has_scheme_prefix _ _ Hw). cbn [negb andb].
      apply (head_is_prefix _ _ t'). rewrite <- Ht'. apply head_pre.
    - assert ((is_empty (join_params a b) || startswith "/" (join_params a b)) = true)
        as Hj.
      { apply (rooted_join x); [by apply path0_head|].
        destruct Hjoin as [-> | ->]; [by left|by right]. }
      destruct (join_params a b) as [|c u]; [done|].
      cbn [is_empty orb startswith] in Hj. apply andb_prop in Hj as [Hc _].
      apply Ascii.eqb_eq in Hc. subst c. by rewrite has_scheme_slash. }
  unfold stable, set_query, with_params.
  cbn [scheme netloc path params query fragment].
  rewrite Hs, Hn, E3, Habs, Hroot, Hrel, Hpar, Cn, Cf.
  rewrite (plain_sub _ _ Hsuba Px), (plain_sub _ _ Hsubb Px).
  rewrite (clean_sub _ _ Hsuba Cx), (clean_sub _ _ Hsubb Cx).
  rewrite (query_chars_clean _ Hq), (query_chars_no_hash _ Hq).
  done.
Qed.

Section Dict.
Context {V : Type}.
Implicit Types (d : dict V) (items : list (string * V)) (k : string) (v : V).

Lemma dict_update_cons_items d k v items :
  dict_update d ((k, v) :: items) = dict_update (dict_set k v d) items.
Proof. reflexivity. Qed.

Lemma dict_update_app d items1 items2 :
  dict_update d (items1 ++ items2) = dict_update (dict_update d items1) items2.
Proof. unfold dict_update. apply fold_left_app. Qed.

Lemma dict_set_fresh k v d : k ∉ keys d -> dict_set k v d = d ++ [(k, v)].
Proof.
  induction d as [|[k' v'] d IH]; [done|]. cbn [keys map fst].
  intros [Hne Hd]%not_elem_of_cons. cbn [dict_set app].
  destruct (String.eqb_spec k' k) as [->|_]; [done|]. by rewrite IH.
Qed.

Lemma dict_set_last k v v0 d :
  k ∉ keys d -> dict_set k v (d ++ [(k, v0)]) = d ++ [(k, v)].
Proof.
  induction d as [|[k' v'] d IH].
  - intros _. simpl. by rewrite String.eqb_refl.
  - cbn [keys map fst]. intros [Hne Hd]%not_elem_of_cons. cbn [dict_set app].
    destruct (String.eqb_spec k' k) as [->|_]; [done|]. by rewrite IH.
Qed.

Lemma keys_dict_set k v d :
  keys (dict_set k v d) = if decide (k ∈ keys d) then keys d else keys d ++ [k].
Proof.
  induction d as [|[k' v'] d IH]; [done|]. cbn [dict_set keys map fst].
  destruct (String.eqb_spec k' k) as [->|Hne].
  - rewrite decide_True by (by left). done.
  - cbn [map fst]. fold (keys (dict_set k v d)). rewrite IH. fold (keys d).
    destruct (decide (k ∈ keys d)) as [Hin|Hin].
    + rewrite decide_True by (by right). done.
    + rewrite decide_False; [done|]. intros [?|?]%elem_of_cons; congruence.
Qed.

Lemma NoDup_dict_set k v d : NoDup (keys d) -> NoDup (keys (dict_set k v d)).
Proof.
  intros Hd. rewrite keys_dict_set. destruct (decide (k ∈ keys d)); [done|].
  apply NoDup_app. split; [done|]. split; [|apply NoDup_singleton].
  intros x Hx ->%list_elem_of_singleton. done.
Qed.

Lemma NoDup_dict_update d items : NoDup (keys d) -> NoDup (keys (dict_update d items)).
Proof.
  revert d. induction items as [|[k v] items IH]; intros d Hd; [done|].
  rewrite dict_update_cons_items. by apply IH, NoDup_dict_set.
Qed.

Lemma get_dict_set k v d k' :
  get k' (dict_set k v d) = if String.eqb k k' then Some v else get k' d.
Proof.
  induction d as [|[k0 v0] d IH].
  - simpl. done.
  - cbn [dict_set get]. destruct (String.eqb_spec k0 k) as [->|Hne].
    + cbn [get]. by destruct (String.eqb k k').
    + cbn [get]. rewrite IH.
      destruct (String.eqb_spec k0 k') as [->|_]; [|done].
      destruct (String.eqb_spec k k') as [->|_]; done.
Qed.

Lemma get_dict_update k d items :
  get k (dict_update d items)
  = match final k items with Some v => Some v | None => get k d end.
Proof.
  revert d. induction items as [|[k1 v1] items IH]; intros d; [done|].
  rewrite dict_update_cons_items, IH. cbn [final].
  destruct (final k items); [done|]. rewrite get_dict_set.
  by destruct (String.eqb k1 k).
Qed.

Lemma get_None k d : get k d = None <-> k ∉ keys d.
Proof.
  induction d as [|[k' v'] d IH]; [by split; [intros _; apply not_elem_of_nil|]|].
  cbn [get keys map fst]. rewrite not_elem_of_cons.
  destruct (String.eqb_spec k' k) as [->|Hne].
  - split; [done|]. by intros [? _].
  - rewrite IH. split; [by split; [congruence|]|by intros [_ ?]].
Qed.

Lemma get_elem k v d : NoDup (keys d) -> (k, v) ∈ d <-> get k d = Some v.
Proof.
  induction d as [|[k' v'] d IH]; [by split; [intros ?%elem_of_nil|]|].
  cbn [keys map fst get]. intros [Hk Hd]%NoDup_cons. rewrite elem_of_cons.
  destruct (String.eqb_spec k' k) as [->|Hne].
  - split.
    + intros [[= ->]|Hin]; [done|]. destruct Hk.
      apply list_elem_of_fmap. by exists (k, v).
    + intros [= ->]. by left.
  - rewrite (IH Hd). split; [|by right]. intros [[= -> ->]|?]; done.
Qed.

Lemma final_None k items : final k items = None <-> k ∉ keys items.
Proof.
  induction items as [|[k' v'] items IH]; [by split; [intros _; apply not_elem_of_nil|]|].
  cbn [final keys map fst]. rewrite not_elem_of_cons.
  destruct (final k items) eqn:E.
  - split; [done|]. intros [_ H]. by apply IH in H.
  - destruct (String.eqb_spec k' k) as [->|Hne].
    + split; [done|]. by intros [? _].
    + split; [|done]. intros _. split; [congruence|by apply IH].
Qed.

(** The first entry stays first, with the value the items give it last;
    the other entries do not see the items for its key. *)
Lemma dict_update_cons k0 v0 d items :
  dict_update ((k0, v0) :: d) items
  = (k0, from_option id v0 (final k0 items))
    :: dict_update d (filter (fun kv => fst kv <> k0) items).
Proof.
  revert v0 d. induction items as [|[k v] items IH]; intros v0 d; [done|].
  rewrite dict_update_cons_items. cbn [dict_set final].
  destruct (String.eqb_spec k0 k) as [->|Hne].
  - rewrite IH. rewrite filter_cons_False by (by intros ?).
    rewrite String.eqb_refl. by destruct (final k items).
  - rewrite IH. rewrite filter_cons_True by (cbn; congruence).
    assert ((k =? k0)%string = false) as -> by (apply String.eqb_neq; congruence).
    rewrite dict_update_cons_items. by destruct (final k0 items).
Qed.

Lemma final_filter (P : string -> Prop) `{!forall k, Decision (P k)} k items :
  final k (filter (fun kv => P (fst kv)) items)
  = if decide (P k) then final k items else None.
Proof.
  induction items as [|[k' v'] items IH]; [by destruct (decide (P k))|].
  destruct (decide (P k')) as [HP|HP].
  - rewrite filter_cons_True by done. cbn [final]. rewrite IH.
    destruct (decide (P k)); [done|].
    destruct (String.eqb_spec k' k) as [->|_]; done.
  - rewrite filter_cons_False by done. rewrite IH. cbn [final].
    destruct (decide (P k)) as [HPk|]; [|done].
    destruct (final k items); [done|].
    destruct (String.eqb_spec k' k) as [->|_]; done.
Qed.

Lemma filter_all {A} (P : A -> Prop) `{!forall x, Decision (P x)} (l : list A) :
  (forall x, P x) -> filter P l = l.
Proof.
  intros HP. induction l as [|x l IH]; [done|].
  by rewrite filter_cons_True, IH.
Qed.

Lemma dict_update_split d items :
  NoDup (keys d) ->
  dict_update d items
  = map (updated items) d
    ++ dict_update [] (filter (fun kv => fst kv ∉ keys d) items).
Proof.
  revert items. induction d as [|[k0 v0] d IH]; intros items Hd.
  - cbn [map app keys]. f_equal. symmetry. apply filter_all.
    intros ?. apply not_elem_of_nil.
  - cbn [keys map fst] in Hd. apply NoDup_cons in Hd as [Hk Hd].
    rewrite dict_update_cons, IH by done. cbn [map app].
    change (updated items (k0, v0)) with (k0, from_option id v0 (final k0 items)).
    f_equal. f_equal.
    + apply map_ext_in. intros [k v] Hin%list_elem_of_In. unfold updated. cbn [fst snd].
      pose proof (final_filter (fun k => k <> k0) k items) as Hf.
      cbv beta in Hf. rewrite Hf.
      rewrite decide_True; [done|]. intros ->. apply Hk.
      apply list_elem_of_fmap. by exists (k0, v).
    + f_equal. rewrite list_filter_filter. apply list_filter_iff.
      intros [k v]. cbn [fst keys map]. rewrite not_elem_of_cons. tauto.
Qed.

End Dict.

Lemma keys_app {V} (d1 d2 : dict V) : keys (d1 ++ d2) = keys d1 ++ keys d2.
Proof. apply map_app. Qed.

Lemma collapse_cons kv d : collapse (kv :: d) = collapse_item kv ++ collapse d.
Proof. reflexivity. Qed.

Lemma collapse_item_keys kv x : x ∈ collapse_item kv -> fst x = fst kv.
Proof.
  destruct kv as [k [s|l]]; unfold collapse_item; cbn [fst snd].
  - by intros ->%list_elem_of_singleton.
  - destruct (last l); [|by intros ?%elem_of_nil].
    by intros ->%list_elem_of_singleton.
Qed.

Lemma keys_collapse d k : k ∈ keys (collapse d) -> k ∈ keys d.
Proof.
  induction d as [|kv d IH]; [done|]. rewrite collapse_cons, keys_app.
  cbn [keys map]. intros [Hin|Hin]%elem_of_app.
  - apply list_elem_of_fmap in Hin as (x & -> & Hx).
    rewrite (collapse_item_keys _ _ Hx). by left.
  - right. by apply IH.
Qed.

Lemma NoDup_collapse d : NoDup (keys d) -> NoDup (keys (collapse d)).
Proof.
  induction d as [|kv d IH]; [done|]. cbn [keys map].
  intros [Hk Hd]%NoDup_cons. rewrite collapse_cons, keys_app.
  apply NoDup_app. split; [|split; [|by apply IH]].
  - destruct kv as [k [s|l]]; unfold collapse_item; cbn [fst snd].
    + apply NoDup_singleton.
    + destruct (last l); [apply NoDup_singleton|apply NoDup_nil_2].
  - intros x Hx Hx'. apply Hk.
    apply list_elem_of_fmap in Hx as (y & -> & Hy).
    rewrite (collapse_item_keys _ _ Hy) in Hx'. by apply keys_collapse.
Qed.

Lemma collapse_text d :
  Forall (fun kv => is_text (snd kv) = true) d -> collapse d = d.
Proof.
  induction 1 as [|[k [s|l]] d Hkv Hd IH]; [done| |done].
  rewrite collapse_cons, IH. done.
Qed.

(** *** Reading back what was written *)

Lemma update_sequence acc k l :
  k ∉ keys acc ->
  dict_update acc (map qstr (map (fun elt => (k, elt)) l))
  = acc ++ collapse_item (k, QSeq l).
Proof.
  intros Hk. induction l as [|x l IH] using rev_ind.
  - by rewrite app_nil_r.
  - rewrite !map_app, dict_update_app, IH. cbn [map].
    change (qstr (k, x)) with (k, QStr x).
    rewrite dict_update_cons_items. cbn [dict_update fold_left].
    unfold collapse_item. cbn [fst snd]. rewrite last_snoc.
    destruct (last l).
    + by apply dict_set_last.
    + rewrite app_nil_r. by apply dict_set_fresh.
Qed.

Lemma update_spread acc d :
  NoDup (keys d) -> (forall k, k ∈ keys d -> k ∉ keys acc) ->
  dict_update acc (map qstr (flat_map spread d)) = acc ++ collapse d.
Proof.
  revert acc. induction d as [|[k v] d IH]; intros acc Hd Hacc.
  - by rewrite app_nil_r.
  - cbn [keys map fst] in Hd. apply NoDup_cons in Hd as [Hk Hd].
    cbn [flat_map]. rewrite map_app, dict_update_app, collapse_cons.
    assert (dict_update acc (map qstr (spread (k, v))) = acc ++ collapse_item (k, v)) as ->.
    { assert (k ∉ keys acc) as Hka by (apply Hacc; by left).
      destruct v as [s|l].
      - cbn. by apply dict_set_fresh.
      - by apply update_sequence. }
    rewrite IH, app_assoc; [done..|].
    intros k' Hk'. rewrite keys_app. intros [Hin|Hin]%elem_of_app.
    + by eapply Hacc; [right|].
    + apply list_elem_of_fmap in Hin as (x & -> & Hx).
      rewrite (collapse_item_keys _ _ Hx) in Hk'. done.
Qed.

Lemma query_mapping_urlencode d :
  NoDup (keys d) -> Forall text_item d -> query_mapping (urlencode d) = collapse d.
Proof.
  intros Hd Ht. unfold query_mapping. rewrite parse_qsl_urlencode by done.
  rewrite update_spread; [done..|]. intros. apply not_elem_of_nil.
Qed.

(** *** What holds of every entry *)

Lemma Forall_dict_set {V} (P : string * V -> Prop) k v (d : dict V) :
  P (k, v) -> Forall P d -> Forall P (dict_set k v d).
Proof.
  intros Hv. induction 1 as [|[k' v'] d Hkv Hd IH]; cbn [dict_set].
  - by apply Forall_singleton.
  - destruct (String.eqb_spec k' k) as [->|_]; by apply Forall_cons.
Qed.

Lemma Forall_dict_update {V} (P : string * V -> Prop) (d : dict V) items :
  Forall P d -> Forall P items -> Forall P (dict_update d items).
Proof.
  intros Hd Hi. revert d Hd. induction Hi as [|[k v] items Hkv Hi IH]; intros d Hd; [done|].
  rewrite dict_update_cons_items. by apply IH, Forall_dict_set.
Qed.

Lemma query_mapping_text qs :
  Forall (fun kv => is_text (snd kv) = true) (query_mapping qs).
Proof.
  apply Forall_dict_update; [done|]. apply Forall_forall.
  by intros ? (x & -> & _)%list_elem_of_fmap.
Qed.

Lemma collapse_text_item d : Forall text_item d -> Forall text_item (collapse d).
Proof.
  induction 1 as [|[k [s|l]] d [Hk Hv] _ IH]; [done| |]; rewrite collapse_cons.
  - apply Forall_app. split; [|done]. by apply Forall_singleton.
  - apply Forall_app. split; [|done]. unfold collapse_item. cbn [fst snd].
    destruct (last l) as [x|] eqn:El; [|done]. apply Forall_singleton.
    split; [done|]. cbn [text_value snd] in *.
    apply last_Some in El as [l' ->]. apply Forall_app in Hv as [_ Hx].
    by apply (proj1 (Forall_singleton _ _)) in Hx.
Qed.

Lemma query_mapping_NoDup qs : NoDup (keys (query_mapping qs)).
Proof. apply NoDup_dict_update, NoDup_nil_2. Qed.

(** *** Updating twice *)

Lemma merged_saturated d items :
  NoDup (keys d) -> Forall (fun kv => is_text (snd kv) = true) d ->
  Forall (saturated items) (dict_update d items).
Proof.
  intros Hd Ht. apply Forall_forall. intros [k v] Hin.
  apply get_elem in Hin; [|by apply NoDup_dict_update].
  rewrite get_dict_update in Hin. unfold saturated. cbn [fst snd].
  destruct (final k items); [congruence|].
  apply get_elem in Hin; [|done].
  by apply (proj1 (Forall_forall _ _) Ht (k, v)).
Qed.

Lemma spread_updated_collapse items kv :
  saturated items kv ->
  flat_map spread (map (updated items) (collapse_item kv)) = spread kv.
Proof.
  destruct kv as [k [s|l]]; unfold saturated, collapse_item, updated; cbn [fst snd].
  - cbn [map flat_map fst snd]. rewrite app_nil_r.
    destruct (final k items) as [v|]; [intros -> | intros _]; done.
  - destruct (final k items) as [v|] eqn:E; [intros -> | done].
    destruct (last l) eqn:El.
    + cbn [map flat_map fst snd]. rewrite E. cbn. apply app_nil_r.
    + apply last_None in El. by subst l.
Qed.

Lemma spread_updated_collapse_all items d :
  Forall (saturated items) d ->
  flat_map spread (map (updated items) (collapse d)) = flat_map spread d.
Proof.
  induction 1 as [|kv d Hkv Hd IH]; [done|].
  rewrite collapse_cons, map_app, flat_map_app, IH.
  by rewrite spread_updated_collapse.
Qed.

Lemma flat_map_nil {A B} (f : A -> list B) l :
  Forall (fun x => f x = []) l -> flat_map f l = [].
Proof. induction 1 as [|x l Hx Hl IH]; [done|]. cbn. by rewrite Hx, IH. Qed.

Lemma collapse_item_elem kv d : kv ∈ d -> forall x, x ∈ collapse_item kv -> x ∈ collapse d.
Proof.
  induction d as [|kv' d IH]; [by intros ?%elem_of_nil|].
  intros [->|Hin]%elem_of_cons x Hx; rewrite collapse_cons; apply elem_of_app.
  - by left.
  - right. by apply IH.
Qed.

Lemma spread_new_keys items d :
  NoDup (keys d) ->
  (forall k v, final k items = Some v -> get k d = Some v) ->
  flat_map spread
    (dict_update [] (filter (fun kv => fst kv ∉ keys (collapse d)) items)) = [].
Proof.
  intros Hd Hfin. apply flat_map_nil, Forall_forall. intros [k v] Hin.
  apply get_elem in Hin; [|apply NoDup_dict_update, NoDup_nil_2].
  rewrite get_dict_update in Hin. cbn [get] in Hin.
  pose proof (final_filter (fun k => k ∉ keys (collapse d)) k items) as Hf.
  cbv beta in Hf. rewrite Hf in Hin. clear Hf.
  destruct (decide (k ∉ keys (collapse d))) as [Hk|]; [|done].
  assert (final k items = Some v) as Hv by (by destruct (final k items)).
  apply Hfin, get_elem in Hv; [|done].
  assert (collapse_item (k, v) = []) as Hnil.
  { destruct (collapse_item (k, v)) as [|x l] eqn:E; [done|]. destruct Hk.
    assert (x ∈ collapse_item (k, v)) as Hx by (rewrite E; by left).
    apply list_elem_of_fmap. exists x. split.
    - by rewrite (collapse_item_keys _ _ Hx).
    - by eapply collapse_item_elem. }
  destruct v as [s|l]; [done|]. unfold collapse_item in Hnil. cbn [snd] in Hnil.
  destruct (last l) eqn:El; [done|]. apply last_None in El. by subst l.
Qed.

(** Merging the same items into what was read back writes the same query. *)
Lemma urlencode_merged_again d items :
  NoDup (keys d) -> Forall (fun kv => is_text (snd kv) = true) d ->
  urlencode (dict_update (collapse (dict_update d items)) items)
  = urlencode (dict_update d items).
Proof.
  intros Hd Ht. set (m := dict_update d items).
  assert (NoDup (keys m)) as Hm by (by apply NoDup_dict_update).
  unfold urlencode. rewrite !flat_map_encode_item. f_equal.
  rewrite dict_update_split by (by apply NoDup_collapse).
  rewrite flat_map_app, spread_updated_collapse_all by (by apply merged_saturated).
  rewrite spread_new_keys; [by rewrite app_nil_r|done|].
  intros k v Hv. unfold m. by rewrite get_dict_update, Hv.
Qed.

(** *** The parts of a text are texts *)

Lemma replace_char_app a b x y :
  replace_char a b (x +:+ y) = replace_char a b x +:+ replace_char a b y.
Proof.
  induction x as [|c x IH]; [done|]. rewrite str_app_cons. cbn [replace_char].
  by rewrite str_app_cons, IH.
Qed.

Lemma replace_char_absent a b s : has_char a s = false -> replace_char a b s = s.
Proof.
  induction s as [|c s IH]; [done|]. rewrite has_char_cons.
  intros [Hc Hs]%orb_false_elim. cbn [replace_char].
  by rewrite (eqb_sym_false _ _ Hc), (IH Hs).
Qed.

Lemma splitnetloc_app_l u s :
  forallb_str (fun c => negb (is_delim c)) u = true ->
  splitnetloc (u +:+ s) = (u +:+ fst (splitnetloc s), snd (splitnetloc s)).
Proof.
  induction u as [|c u IH]; [rewrite !str_app_nil_l; by destruct (splitnetloc s)|].
  cbn [forallb_str]. intros [Hc Hu]%andb_prop. apply negb_true_iff in Hc.
  rewrite str_app_cons. cbn [splitnetloc]. by rewrite Hc, (IH Hu).
Qed.

Lemma split_on_aux_app_l c u s :
  has_char c u = false ->
  split_on_aux c (u +:+ s) = (u +:+ fst (split_on_aux c s), snd (split_on_aux c s)).
Proof.
  induction u as [|d u IH]; [rewrite !str_app_nil_l; by destruct (split_on_aux c s)|].
  rewrite has_char_cons. intros [Hd Hu]%orb_false_elim.
  rewrite str_app_cons. cbn [split_on_aux]. by rewrite (IH Hu), (eqb_sym_false _ _ Hd).
Qed.

Lemma scalar_no_delim u :
  scalar u = true -> forallb_str (fun c => negb (is_delim c)) u = true.
Proof.
  intros Hu. eapply forallb_str_impl; [|exact (scalar_high u Hu)].
  intros c Hc. apply negb_true_iff in Hc. apply negb_true_iff. unfold is_delim.
  destruct (Ascii.eqb_spec c "/") as [->|_]; [done|].
  destruct (Ascii.eqb_spec c "?") as [->|_]; [done|].
  by destruct (Ascii.eqb_spec c "#") as [->|_].
Qed.

Section Cut.
Variable c : ascii.
Hypothesis low : (code c <? 128)%N = true.

Lemma text_before s : text s -> text (before c s).
Proof.
  induction 1 as [|d s Hd _ IH|u s Hu _ IH]; [apply text_nil| |].
  - cbn [before]. destruct (Ascii.eqb d c); [apply text_nil|by apply text_low].
  - rewrite before_app_l by (by apply scalar_absent). by apply text_high.
Qed.

Lemma text_after s : text s -> text (after c s).
Proof.
  induction 1 as [|d s Hd Hs IH|u s Hu _ IH]; [apply text_nil| |].
  - cbn [after]. by destruct (Ascii.eqb d c).
  - by rewrite after_app_l by (by apply scalar_absent).
Qed.

Lemma text_remove_char s : text s -> text (remove_char c s).
Proof.
  induction 1 as [|d s Hd _ IH|u s Hu _ IH]; [apply text_nil| |].
  - cbn [remove_char]. destruct (Ascii.eqb d c); [done|by apply text_low].
  - rewrite remove_char_app, remove_char_absent by (by apply scalar_absent).
    by apply text_high.
Qed.

Lemma text_replace_char b s :
  (code b <? 128)%N = true -> text s -> text (replace_char c b s).
Proof.
  intros Hb. induction 1 as [|d s Hd _ IH|u s Hu _ IH]; [apply text_nil| |].
  - cbn [replace_char]. apply text_low; [|done]. by destruct (Ascii.eqb d c).
  - rewrite replace_char_app, replace_char_absent by (by apply scalar_absent).
    by apply text_high.
Qed.

Lemma text_split_on s : text s -> Forall text (split_on c s).
Proof.
  unfold split_on.
  induction 1 as [|d s Hd _ IH|u s Hu _ IH].
  - apply Forall_singleton, text_nil.
  - cbn [split_on_aux]. destruct (split_on_aux c s) as [t ts].
    apply Forall_cons in IH as [Ht Hts].
    destruct (Ascii.eqb d c).
    + apply Forall_cons. split; [apply text_nil|]. by apply Forall_cons.
    + apply Forall_cons. split; [by apply text_low|done].
  - rewrite split_on_aux_app_l by (by apply scalar_absent).
    destruct (split_on_aux c s) as [t ts]. cbn [fst snd].
    apply Forall_cons in IH as [Ht Hts].
    apply Forall_cons. split; [by apply text_high|done].
Qed.

End Cut.

Lemma text_lstrip p s :
  (forall c, p c = true -> (code c <? 128)%N = true) ->
  text s -> text (lstrip_with p s).
Proof.
  intros Hp. induction 1 as [|d s Hd Hs IH|u s Hu Hs IH]; [apply text_nil| |].
  - cbn [lstrip_with]. destruct (p d); [done|by apply text_low].
  - destruct (scalar_head u Hu) as (a & u' & -> & Ha).
    rewrite str_app_cons. cbn [lstrip_with].
    destruct (p a) eqn:Epa; [by rewrite (Hp a Epa) in Ha|].
    rewrite <- str_app_cons. by apply text_high.
Qed.

Lemma text_pre url : text url -> text (pre url).
Proof.
  intros Hu. unfold pre, drop_breaks.
  do 3 (apply text_remove_char; [done|]).
  apply text_lstrip; [|done].
  intros c Hc. unfold c0_or_space in Hc. apply N.leb_le in Hc. apply N.ltb_lt. lia.
Qed.

Lemma text_splitnetloc s : text s -> text (snd (splitnetloc s)).
Proof.
  induction 1 as [|d s Hd Hs IH|u s Hu Hs IH]; [apply text_nil| |].
  - cbn [splitnetloc]. destruct (is_delim d); [by apply text_low|].
    by destruct (splitnetloc s).
  - by rewrite splitnetloc_app_l by (by apply scalar_no_delim).
Qed.

Lemma text_split_scheme u s r : split_scheme u = (s, r) -> text u -> text r.
Proof.
  rewrite split_scheme_eq. destruct (has_scheme u); intros [= <- <-] Hu; [|done].
  by apply text_after.
Qed.

Lemma text_netloc_rest u n r : netloc_rest u = (n, r) -> text u -> text r.
Proof.
  unfold netloc_rest. destruct (startswith "//" u) eqn:Hs; [|by intros [= <- <-]].
  destruct u as [|a [|b u]]; try by intros [= <- <-].
  cbn [startswith] in Hs. apply andb_prop in Hs as [Ha Hb].
  apply andb_prop in Hb as [Hb _]. apply Ascii.eqb_eq in Ha, Hb. subst a b.
  intros E Hu.
  assert (text u) as Hu'.
  { change u with (after "/" (after "/" (String "/" (String "/" u)))).
    by do 2 (apply text_after; [done|]). }
  apply text_splitnetloc in Hu'. by rewrite E in Hu'.
Qed.

Lemma text_query chk url p : urlparse chk url = Ok p -> text url -> text (query p).
Proof.
  intros ->%urlparse_query Hu. unfold query_of.
  apply text_after; [done|]. apply text_before; [done|]. by apply text_pre.
Qed.

Lemma text_parse_qsl qs : text qs -> Forall text_pair (parse_qsl qs).
Proof.
  intros Hqs. unfold parse_qsl. destruct (is_empty qs); [done|].
  pose proof (text_split_on "&" eq_refl qs Hqs) as Hf.
  induction Hf as [|f fs Hf _ IH]; [done|]. cbn [flat_map].
  apply Forall_app. split; [|done]. unfold parse_field.
  destruct (is_empty f); [done|]. apply Forall_singleton. split; cbn [fst snd].
  - apply text_unquote, text_replace_char; [done..|]. by apply text_before.
  - apply text_unquote, text_replace_char; [done..|]. by apply text_after.
Qed.

Lemma text_query_mapping qs : text qs -> Forall text_item (query_mapping qs).
Proof.
  intros Hqs%text_parse_qsl. apply Forall_dict_update; [done|].
  induction Hqs as [|[k v] l [Hk Hv] _ IH]; [done|]. cbn [map].
  apply Forall_cons. by split.
Qed.

Lemma well_formed_items kw :
  forallb well_formed_item kw = true -> Forall text_item kw.
Proof.
  induction kw as [|[k v] kw IH]; [done|]. cbn [forallb].
  intros [[Hk Hv]%andb_prop Hkw]%andb_prop. apply Forall_cons. split; [|by apply IH].
  split; [by apply well_formed_text|]. cbn [fst snd] in *.
  destruct v as [s|l]; cbn [well_formed_value text_value] in *.
  - by apply well_formed_text.
  - clear -Hv. induction l as [|x l IHl]; [done|]. cbn [forallb] in Hv.
    apply andb_prop in Hv as [Hx Hl]. apply Forall_cons.
    split; [by apply well_formed_text|by apply IHl].
Qed.

End UrlFacts.

Import Url UrlShape UrlFacts.

Section QueryBuilder.
Context `{Libs}.

Lemma add_or_update_query_eq url kw :
  add_or_update_query url kw
  = match urlparse url_checks url with
    | Raise e => Raise e
    | Ok p =>
        Ok (urlunparse
              (set_query p (urlencode (dict_update (query_mapping (query p)) kw))))
    end.
Proof. reflexivity. Qed.

(** C5 (amended). Let the URL and the parameters be text (well-formed
    UTF-8, as is every Python [str] that can be encoded). When the builder
    returns a URL, the query of that URL parses to the merged mapping with
    every sequence value replaced by its last element (an empty sequence
    leaves no key), hence to the merged mapping itself when the parameters
    are texts; and unless the URL parsed to an empty network location and a
    path that begins with two slashes, the built URL parses and building
    again from it with the same parameters returns it unchanged. *)
Theorem query_builder_round_trip url kw u' :
  well_formed url = true ->
  forallb well_formed_item kw = true ->
  add_or_update_query url kw = Ok u' ->
  exists p,
    urlparse url_checks url = Ok p
    /\ (forall p', urlparse url_checks u' = Ok p' ->
          query_mapping (query p')
          = collapse (dict_update (query_mapping (query p)) kw))
    /\ (Forall (fun kv => is_text (snd kv) = true) kw ->
        collapse (dict_update (query_mapping (query p)) kw)
        = dict_update (query_mapping (query p)) kw)
    /\ (rooted p = true ->
        (exists p', urlparse url_checks u' = Ok p')
        /\ add_or_update_query u' kw = Ok u').
Proof.
  intros Hurl%well_formed_text Hkw%well_formed_items.
  rewrite add_or_update_query_eq.
  destruct (urlparse url_checks url) as [p|e] eqn:Hp; [|done].
  intros [= <-]. exists p. split; [done|].
  set (m := dict_update (query_mapping (query p)) kw).
  assert (NoDup (keys m)) as Hm by apply NoDup_dict_update, query_mapping_NoDup.
  assert (Forall text_item m) as Ht.
  { apply Forall_dict_update; [|done].
    apply text_query_mapping. by eapply text_query. }
  pose proof (urlencode_query_chars m) as Hq.
  split; [|split].
  - intros p' Hp'. rewrite (reparse_query _ _ _ _ _ Hp Hq Hp').
    by apply query_mapping_urlencode.
  - intros Htx. apply collapse_text, Forall_dict_update; [|done].
    apply query_mapping_text.
  - intros Hr.
    destruct (stable_reparse _ _ (urlparse_stable _ _ _ _ Hp Hr Hq)) as (a2 & Hp2 & Hu).
    split; [by eexists|].
    rewrite add_or_update_query_eq, Hp2.
    cbn [set_query scheme netloc path params query fragment] in *.
    rewrite query_mapping_urlencode by done. fold m.
    unfold m at 1 2. rewrite urlencode_merged_again;
      [|apply query_mapping_NoDup|apply query_mapping_text].
    fold m. by rewrite <- Hu.
Qed.

End QueryBuilder.

(** C5, counterexample: a parameter whose value is a sequence is written as
    one field per element and read back as the last element alone. *)
Lemma sequence_parameter_is_read_back_as_its_last_element :
  dict_update (query_mapping EmptyString) [("csv", QSeq ["1"; "2"])]
  = [("csv", QSeq ["1"; "2"])]
  /\ forall L : Libs,
       add_or_update_query "http://a/b" [("csv", QSeq ["1"; "2"])]
       = Ok "http://a/b?csv=1&csv=2"
       /\ urlparse url_checks "http://a/b?csv=1&csv=2"
          = Ok (mkParse "http" "a" "/b" EmptyString "csv=1&csv=2" EmptyString)
       /\ query_mapping "csv=1&csv=2" = [("csv", QStr "2")].
Proof.
  split; [reflexivity|]. intros L. repeat split; vm_compute; reflexivity.
Qed.

(** An empty network location before a path that begins with two slashes is
    not written back: a second call shortens the URL again. *)
Lemma unrooted_url_is_shortened_twice :
  rooted (mkParse EmptyString EmptyString "///x" EmptyString EmptyString EmptyString)
  = false
  /\ forall L : Libs,
       urlparse url_checks "/////x"
       = Ok (mkParse EmptyString EmptyString "///x" EmptyString EmptyString EmptyString)
       /\ add_or_update_query "/////x" [("csv", QStr "1")] = Ok "///x?csv=1"
       /\ add_or_update_query "///x?csv=1" [("csv", QStr "1")] = Ok "/x?csv=1".
Proof.
  split; [reflexivity|]. intros L. repeat split; vm_compute; reflexivity.
Qed.

(** C5, witness: the theorem at a URL with parameters, a query and a
    fragment. *)
Lemma query_builder_witness :
  (well_formed "http://a/b;c?csv=2&z=%41+1#fr?ag" = true
   /\ forallb well_formed_item [("csv", QStr "1"); ("y", QStr "a&b")] = true
   /\ parse_qsl "csv=2&z=%41+1" = [("csv", "2"); ("z", "A 1")])
  /\ forall L : Libs,
       add_or_update_query "http://a/b;c?csv=2&z=%41+1#fr?ag"
         [("csv", QStr "1"); ("y", QStr "a&b")]
       = Ok "http://a/b;c?csv=1&z=A+1&y=a%26b#fr?ag"
       /\ query_mapping "csv=1&z=A+1&y=a%26b"
          = [("csv", QStr "1"); ("z", QStr "A 1"); ("y", QStr "a&b")]
       /\ add_or_update_query "http://a/b;c?csv=1&z=A+1&y=a%26b#fr?ag"
            [("csv", QStr "1"); ("y", QStr "a&b")]
          = Ok "http://a/b;c?csv=1&z=A+1&y=a%26b#fr?ag".
Proof.
  split; [repeat split; reflexivity|]. intros L.
  assert (add_or_update_query "http://a/b;c?csv=2&z=%41+1#fr?ag"
            [("csv", QStr "1"); ("y", QStr "a&b")]
          = Ok "http://a/b;c?csv=1&z=A+1&y=a%26b#fr?ag") as Hrun
    by (vm_compute; reflexivity).
  destruct (query_builder_round_trip "http://a/b;c?csv=2&z=%41+1#fr?ag"
              [("csv", QStr "1"); ("y", QStr "a&b")] _ eq_refl eq_refl Hrun)
    as (p & Hp & Hre & _ & Hfix).
  assert (p = mkParse "http" "a" "/b" "c" "csv=2&z=%41+1" "fr?ag") as ->.
  { vm_compute in Hp. by injection Hp as <-. }
  split; [exact Hrun|]. split.
  - etrans.
    + apply (Hre (mkParse "http" "a" "/b" "c" "csv=1&z=A+1&y=a%26b" "fr?ag")).
      vm_compute. reflexivity.
    + vm_compute. reflexivity.
  - apply Hfix. reflexivity.
Defined.

(** *** The query builder, further *)



Lemma keys_dict_update {V} (d : dict V) items :
  exists fresh,
    keys (dict_update d items) = keys d ++ fresh
    /\ Forall (fun k => In k (keys items)) fresh.
Proof.
  revert d. induction items as [|[k v] items IH]; intros d.
  - exists []. by rewrite app_nil_r.
  - rewrite dict_update_cons_items.
    destruct (IH (dict_set k v d)) as (fresh & -> & Hf). rewrite keys_dict_set.
    assert (Forall (fun k0 => In k0 (keys ((k, v) :: items))) fresh) as Hf'.
    { eapply Forall_impl; [exact Hf|]. intros k0 Hk0. by right. }
    destruct (decide (k ∈ keys d)).
    + by exists fresh.
    + exists (k :: fresh). rewrite <- app_assoc. split; [done|].
      constructor; [by left|done].
Qed.

Lemma spread_keys d :
  Forall (fun kv => is_text (snd kv) = true) d -> map fst (flat_map spread d) = keys d.
Proof.
  induction 1 as [|[k [s|l]] d Hkv Hd IH]; [done| |done].
  simpl. by rewrite IH.
Qed.

Lemma stable_reparse_parts chk p :
  stable chk p = true ->
  urlparse chk (urlunparse p)
  = Ok (mkParse (scheme p) (netloc p)
          (if is_empty (netloc p) && negb (is_empty (scheme p))
              && mem (scheme p) uses_netloc
              && negb (is_empty (with_params p))
              && negb (startswith "/" (with_params p))
           then "/" +:+ path p else path p)
          (params p) (query p) (fragment p)).
Proof.
  unfold stable. cbv zeta.
  intros H.
  repeat match type of H with
         | _ && _ = true => let H' := fresh "H" in apply andb_prop in H as [H H']
         end.
  rename H into Hs, H13 into Hn, H12 into Hbr, H11 into Pa, H10 into Pb,
    H9 into Habs, H8 into Hroot, H7 into Hrel, H6 into Hpar, H5 into Cn,
    H4 into Ca, H3 into Cb, H2 into Cq, H1 into Cf, H0 into Hq.
  apply negb_true_iff in Hq.
  destruct p as [s n a b q f]. unfold with_params in *.
  cbn [scheme netloc path params query fragment] in *.
  set (a2 := if is_empty n && negb (is_empty s) && mem s uses_netloc
                && negb (is_empty (join_params a b))
                && negb (startswith "/" (join_params a b))
             then "/" +:+ a else a).
  assert (norm_path s n (join_params a b) = join_params a2 b) as Hnorm.
  { unfold norm_path, a2. destruct (_ && negb (startswith "/" (join_params a b))); [|done].
    by rewrite join_params_slash. }
  rewrite urlunparse_eq. unfold with_params.
  cbn [scheme netloc path params query fragment].
  unfold urlparse.
  rewrite urlsplit_unparse; try done;
    [|by apply plain_join_params|by apply clean_join_params].
  cbn [s_scheme s_netloc s_path s_query s_fragment].
  fold (param_split s (norm_path s n (join_params a b))).
  rewrite Hnorm, param_split_stable; [done|].
  destruct (mem s uses_params); [|done].
  apply andb_prop in Hpar as [Hb Ha]. rewrite Hb. cbn [andb].
  unfold a2. destruct (_ && negb (startswith "/" (join_params a b))); [|done].
  apply negb_true_iff in Ha. by rewrite last_segment_slash.
Qed.

Section QueryBuilderFurther.
Context `{Libs}.


(** X2. The query the builder writes names every key once when the parameters
    given are texts: the keys of the URL in the order of their first
    occurrence, then the new keys among the parameters. *)
Theorem builder_writes_each_key_once url kw u' p' :
  well_formed url = true ->
  forallb well_formed_item kw = true ->
  Forall (fun kv => is_text (snd kv) = true) kw ->
  add_or_update_query url kw = Ok u' ->
  urlparse url_checks u' = Ok p' ->
  exists p fresh,
    urlparse url_checks url = Ok p
    /\ map fst (parse_qsl (query p')) = keys (query_mapping (query p)) ++ fresh
    /\ Forall (fun k => In k (keys kw)) fresh
    /\ NoDup (map fst (parse_qsl (query p'))).
Proof.
  intros Hurl%well_formed_text Hkw%well_formed_items Htx.
  rewrite add_or_update_query_eq.
  destruct (urlparse url_checks url) as [p|e] eqn:Hp; [|done].
  intros [= <-] Hp'.
  set (m := dict_update (query_mapping (query p)) kw) in *.
  assert (Forall text_item m) as Ht.
  { apply Forall_dict_update; [|done]. apply text_query_mapping. by eapply text_query. }
  assert (Forall (fun kv => is_text (snd kv) = true) m) as Hm.
  { apply Forall_dict_update; [|done]. apply query_mapping_text. }
  rewrite (reparse_query _ _ _ _ _ Hp (urlencode_query_chars m) Hp').
  rewrite (parse_qsl_urlencode m Ht), (spread_keys m Hm).
  destruct (keys_dict_update (query_mapping (query p)) kw) as (fresh & Hk & Hf).
  exists p, fresh. split; [done|]. split; [exact Hk|]. split; [exact Hf|].
  apply NoDup_dict_update, query_mapping_NoDup.
Qed.

(** X3. The builder changes the query alone: unless the URL parsed to an empty
    network location and a path that begins with two slashes, the built
    URL parses to the scheme, network location, parameters and fragment of
    the URL given, and to its path, with a slash put before it where
    [urlunparse] writes an empty network location before a relative
    path. *)
Theorem builder_keeps_the_rest url kw u' p :
  add_or_update_query url kw = Ok u' ->
  urlparse url_checks url = Ok p ->
  rooted p = true ->
  exists p',
    urlparse url_checks u' = Ok p'
    /\ scheme p' = scheme p /\ netloc p' = netloc p
    /\ params p' = params p /\ fragment p' = fragment p
    /\ path p' =
         if is_empty (netloc p) && negb (is_empty (scheme p))
            && mem (scheme p) uses_netloc
            && negb (is_empty (with_params p))
            && negb (startswith "/" (with_params p))
         then "/" +:+ path p else path p.
Proof.
  rewrite add_or_update_query_eq. intros Hrun Hp Hr. rewrite Hp in Hrun.
  injection Hrun as <-.
  set (q := urlencode (dict_update (query_mapping (query p)) kw)).
  pose proof (stable_reparse_parts _ _
                (urlparse_stable _ _ _ q Hp Hr (urlencode_query_chars _))) as Hre.
  eexists. split; [exact Hre|]. by repeat split.
Qed.

End QueryBuilderFurther.

(** *** Witnesses of the further properties of the query builder *)


(** X2, witness. *)
Lemma builder_writes_each_key_once_witness :
  parse_qsl "x=1&x=2&y=3" = [("x", "1"); ("x", "2"); ("y", "3")]
  /\ forall L : Libs,
       add_or_update_query "http://a/b?x=1&x=2&y=3" [("y", QStr "4"); ("z", QStr "5")]
       = Ok "http://a/b?x=2&y=4&z=5"
       /\ NoDup (map fst (parse_qsl "x=2&y=4&z=5")).
Proof.
  split; [reflexivity|]. intros L.
  assert (add_or_update_query "http://a/b?x=1&x=2&y=3" [("y", QStr "4"); ("z", QStr "5")]
          = Ok "http://a/b?x=2&y=4&z=5") as Hrun by (vm_compute; reflexivity).
  split; [exact Hrun|].
  destruct (builder_writes_each_key_once "http://a/b?x=1&x=2&y=3"
              [("y", QStr "4"); ("z", QStr "5")] "http://a/b?x=2&y=4&z=5"
              (mkParse "http" "a" "/b" EmptyString "x=2&y=4&z=5" EmptyString))
    as (p & fresh & _ & _ & _ & Hnd).
  - reflexivity.
  - reflexivity.
  - by repeat constructor.
  - exact Hrun.
  - vm_compute. reflexivity.
  - exact Hnd.
Defined.

(** X3, witness. *)
Lemma builder_keeps_the_rest_witness :
  rooted (mkParse "http" EmptyString "x" "p" EmptyString "f") = true
  /\ forall L : Libs,
       add_or_update_query "http:x;p#f" [("csv", QStr "1")] = Ok "http:///x;p?csv=1#f"
       /\ exists p',
            urlparse url_checks "http:///x;p?csv=1#f" = Ok p'
            /\ scheme p' = "http" /\ netloc p' = EmptyString
            /\ params p' = "p" /\ fragment p' = "f" /\ path p' = "/x".
Proof.
  split; [reflexivity|]. intros L.
  assert (add_or_update_query "http:x;p#f" [("csv", QStr "1")] = Ok "http:///x;p?csv=1#f")
    as Hrun by (vm_compute; reflexivity).
  split; [exact Hrun|].
  apply (builder_keeps_the_rest "http:x;p#f" [("csv", QStr "1")] "http:///x;p?csv=1#f"
           (mkParse "http" EmptyString "x" "p" EmptyString "f")).
  - exact Hrun.
  - vm_compute. reflexivity.
  - reflexivity.
Defined.
